(** * eERC SDK: the operation engine, balance reconstruction and message codec

    A shallow embedding of [src/EERC.ts], [src/utils] (constants) and
    [src/helpers/metadata.ts], followed by the properties the specification
    states about them.

    Conventions of the embedding.
    - A [bigint] (and a chain id) is a [Z]; a [bigint[]] (a [Point], a PCT, a
      ciphertext) is a [list Z], read by index with [nth_error], so that an
      index out of range is [None], JavaScript's [undefined].
    - Addresses, keys and signatures are [string]s.  Free-text messages are
      lists of Unicode code points.
    - A [throw] is an [Err].  The asynchronous methods run in a state and
      exception monad over a [World]: the instance, and the trace of the calls
      made to the host.
    - [await]ed calls to the wallet, the RPC client, the prover and the
      randomised encryption routines are oracles of a [Host]; each sees the
      trace so far and may reject.
    - The synchronous helpers of [src/crypto] and of [poseidon-lite], which are
      outside the files modelled here, are the fields of a [Crypto] record and
      are total functions.
    - [Buffer], [BigInt] and the string methods of the platform are modelled in
      [Platform]. *)

From Stdlib Require Import ZArith List String Ascii Bool Lia.
Import ListNotations.
Open Scope Z_scope.

(* ================================================================== *)
(** * Part I: definitions *)
(* ================================================================== *)

(** ** Errors and results *)

(** The [Error] objects the engine throws, one constructor per message. *)
Inductive Error : Type :=
| MissingWalletOrClient          (* "Missing wallet or client!" *)
| MissingClientWalletOrContract  (* "Missing client, wallet or contract address!" *)
| InvalidAddress                 (* "Invalid address!" *)
| InvalidAmount                  (* "Invalid amount!" *)
| InsufficientBalance            (* "Insufficient balance!" *)
| NotAllowedForConverter         (* "Not allowed for converter!" *)
| NotAllowedForStandAlone        (* "Not allowed for stand alone!" *)
| AuditorNotSet                  (* "Auditor is not set for the contract!" *)
| ReceiverNotRegistered          (* "Receiver is not registered!" *)
| FailedToGenerateDecryptionKey  (* "Failed to generate decryption key!" *)
| MissingCircuitURL              (* "Missing WASM/ZKey URL for ... operation" *)
| TypeError                      (* a bigint mixed with [undefined] *)
| SyntaxError                    (* [BigInt] of a string that is no number *)
| PoseidonInputCount             (* poseidon-lite: wrong number of inputs *)
| SizeExceedsPaddingSize         (* viem [pad]/[toHex]: not an unsigned 32-byte value *)
| Rejected (who : string)        (* a rejection coming from the host *)
| Rethrown (e : Error).          (* [throw new Error(e as string)] *)

Inductive result (A : Type) : Type :=
| Ok (a : A)
| Err (e : Error).
Arguments Ok {A} a.
Arguments Err {A} e.

Definition isOk {A} (r : result A) : bool :=
  match r with Ok _ => true | Err _ => false end.

(** The error kind below any chain of rethrows. *)
Fixpoint rootCause (e : Error) : Error :=
  match e with
  | Rethrown e' => rootCause e'
  | _ => e
  end.

(** ** JavaScript values *)

(** [a === b] on two array reads, either of which may be [undefined]. *)
Definition strictEq (a b : option Z) : bool :=
  match a, b with
  | Some x, Some y => x =? y
  | None, None => true
  | _, _ => false
  end.

(** [a[i] === 0n]. *)
Definition isZeroAt (a : list Z) (i : nat) : bool :=
  strictEq (nth_error a i) (Some 0).

(** [a.slice(i, j)]. *)
Definition slice {A} (i j : nat) (a : list A) : list A :=
  firstn (j - i) (skipn i a).

(** Truthiness of a string: the empty string is falsy. *)
Definition truthyStr (s : string) : bool :=
  negb (String.eqb s EmptyString).

(** ** Constants ([src/utils]) *)

Definition SNARK_FIELD_SIZE : Z :=
  21888242871839275222246405745257275088548364400416034343698204186575808495617.

Definition LF : string := String (ascii_of_nat 10) EmptyString.

(** [c.toLowerCase()] on one ASCII character; addresses are ASCII. *)
Definition lowerAscii (c : ascii) : ascii :=
  let n := nat_of_ascii c in
  if (65 <=? n)%nat && (n <=? 90)%nat then ascii_of_nat (n + 32) else c.

Fixpoint toLowerCase (s : string) : string :=
  match s with
  | EmptyString => EmptyString
  | String c r => String (lowerAscii c) (toLowerCase r)
  end.

(** [MESSAGES.REGISTER(user)], the template literal
    [`eERC\nRegistering user with\n Address:${user.toLowerCase()}`]. *)
Definition MESSAGES_REGISTER (user : string) : string :=
  ("eERC" ++ LF ++ "Registering user with" ++ LF ++ " Address:"
   ++ toLowerCase user)%string.

Definition BURN_USER_address : string :=
  "0x1111111111111111111111111111111111111111".

Definition BURN_USER_publicKey : list Z := [0; 1].

(** ** Platform string and buffer primitives (Node [Buffer], [BigInt]) *)

Module Platform.

(** A JavaScript string as its sequence of code points.  A code point in
    [0xD800, 0xDFFF] stands for an unpaired surrogate. *)
Definition ustring := list Z.

Definition isSurrogate (c : Z) : bool := (0xD800 <=? c) && (c <=? 0xDFFF).

(** A Unicode scalar value: what a well-formed (UTF-8 encodable) string holds. *)
Definition isScalar (c : Z) : bool :=
  (0 <=? c) && (c <=? 0x10FFFF) && negb (isSurrogate c).

(** The UTF-8 bytes of one code point; an unpaired surrogate is written as
    U+FFFD, as [Buffer.from(s, "utf8")] does. *)
Definition utf8EncodeCodePoint (c : Z) : list Z :=
  if c <? 0x80 then [c]
  else if c <? 0x800 then [0xC0 + c / 64; 0x80 + c mod 64]
  else if isSurrogate c then [0xEF; 0xBF; 0xBD]
  else if c <? 0x10000 then
    [0xE0 + c / 4096; 0x80 + (c / 64) mod 64; 0x80 + c mod 64]
  else
    [0xF0 + c / 262144; 0x80 + (c / 4096) mod 64;
     0x80 + (c / 64) mod 64; 0x80 + c mod 64].

(** [Buffer.from(s, "utf8")]. *)
Definition utf8Encode (s : ustring) : list Z :=
  flat_map utf8EncodeCodePoint s.

(** The state of the UTF-8 decoder between bytes: the code point under
    construction, the continuation bytes still needed and the range allowed
    for the next one. *)
Record DecoderState := {
  codePoint : Z;
  bytesNeeded : nat;
  lowerBoundary : Z;
  upperBoundary : Z
}.

Definition decoderStart : DecoderState :=
  {| codePoint := 0; bytesNeeded := 0;
     lowerBoundary := 0x80; upperBoundary := 0xBF |}.

(** A byte read when no continuation byte is expected. *)
Definition leadByte (b : Z) : DecoderState * list Z :=
  if (0 <=? b) && (b <=? 0x7F) then (decoderStart, [b])
  else if (0xC2 <=? b) && (b <=? 0xDF) then
    ({| codePoint := b mod 32; bytesNeeded := 1;
        lowerBoundary := 0x80; upperBoundary := 0xBF |}, [])
  else if (0xE0 <=? b) && (b <=? 0xEF) then
    ({| codePoint := b mod 16; bytesNeeded := 2;
        lowerBoundary := if b =? 0xE0 then 0xA0 else 0x80;
        upperBoundary := if b =? 0xED then 0x9F else 0xBF |}, [])
  else if (0xF0 <=? b) && (b <=? 0xF4) then
    ({| codePoint := b mod 8; bytesNeeded := 3;
        lowerBoundary := if b =? 0xF0 then 0x90 else 0x80;
        upperBoundary := if b =? 0xF4 then 0x8F else 0xBF |}, [])
  else (decoderStart, [0xFFFD]).

(** One byte through the decoder: the next state and the code points emitted.
    A byte that cannot continue the sequence ends it with U+FFFD and is read
    again as a lead byte. *)
Definition decodeByte (st : DecoderState) (b : Z) : DecoderState * list Z :=
  match bytesNeeded st with
  | O => leadByte b
  | S n =>
      if (lowerBoundary st <=? b) && (b <=? upperBoundary st) then
        let cp := codePoint st * 64 + b mod 64 in
        match n with
        | O => (decoderStart, [cp])
        | S _ => ({| codePoint := cp; bytesNeeded := n;
                     lowerBoundary := 0x80; upperBoundary := 0xBF |}, [])
        end
      else
        let '(st', out) := leadByte b in (st', 0xFFFD :: out)
  end.

Fixpoint decodeFrom (st : DecoderState) (bs : list Z) : ustring :=
  match bs with
  | [] => match bytesNeeded st with O => [] | S _ => [0xFFFD] end
  | b :: r => let '(st', out) := decodeByte st b in (out ++ decodeFrom st' r)%list
  end.

(** [buf.toString("utf8")]. *)
Definition utf8Decode (bs : list Z) : ustring := decodeFrom decoderStart bs.

(** [s.replace(/\u0000/g, "")]. *)
Definition removeNul (s : ustring) : ustring :=
  filter (fun c => negb (c =? 0)) s.

(** The hexadecimal digit of a value in [0, 16). *)
Definition hexDigit (d : Z) : ascii :=
  match d with
  | 0 => "0" | 1 => "1" | 2 => "2" | 3 => "3" | 4 => "4" | 5 => "5"
  | 6 => "6" | 7 => "7" | 8 => "8" | 9 => "9" | 10 => "a" | 11 => "b"
  | 12 => "c" | 13 => "d" | 14 => "e" | 15 => "f" | _ => "?"
  end%char.

(** The value of a hexadecimal digit, in either case. *)
Definition hexValue (c : ascii) : option Z :=
  let n := Z.of_nat (nat_of_ascii c) in
  if (48 <=? n) && (n <=? 57) then Some (n - 48)
  else if (97 <=? n) && (n <=? 102) then Some (n - 87)
  else if (65 <=? n) && (n <=? 70) then Some (n - 55)
  else None.

(** [buf.toString("hex")]. *)
Fixpoint bufToHex (bs : list Z) : string :=
  match bs with
  | [] => EmptyString
  | b :: r => String (hexDigit (b / 16)) (String (hexDigit (b mod 16)) (bufToHex r))
  end.

Fixpoint parseHexFrom (acc : Z) (s : string) : option Z :=
  match s with
  | EmptyString => Some acc
  | String c r =>
      match hexValue c with
      | Some d => parseHexFrom (acc * 16 + d) r
      | None => None
      end
  end.

(** [BigInt(`0x${hex}`)]; [None] is the [SyntaxError] thrown when [hex] is
    empty or holds a character that is not a hexadecimal digit. *)
Definition BigIntOfHex (hex : string) : option Z :=
  match hex with
  | EmptyString => None
  | _ => parseHexFrom 0 hex
  end.

(** The digits of a positive [n], most significant first, written in front
    of [acc]. *)
Fixpoint hexDigitsOnto (fuel : nat) (n : Z) (acc : string) : string :=
  match fuel with
  | O => acc
  | S f =>
      if n <=? 0 then acc
      else hexDigitsOnto f (n / 16) (String (hexDigit (n mod 16)) acc)
  end.

(** [n.toString(16)]. *)
Definition toString16 (n : Z) : string :=
  let digits m := hexDigitsOnto (S (Z.to_nat (Z.log2 m))) m EmptyString in
  if n =? 0 then "0"%string
  else if n <? 0 then String "-"%char (digits (- n))
  else digits n.

(** [Buffer.from(hex, "hex")]: one byte per pair of digits, stopping at the
    first pair that is not hexadecimal; a trailing single character is
    dropped. *)
Fixpoint bufFromHex (hex : string) : list Z :=
  match hex with
  | String a (String b r) =>
      match hexValue a, hexValue b with
      | Some x, Some y => (x * 16 + y) :: bufFromHex r
      | _, _ => []
      end
  | _ => []
  end.

End Platform.

(** ** The message codec ([src/helpers/metadata.ts]) *)

Module Metadata.
Import Platform.

(** The [while (remaining > 0)] loop of [splitIntoBigIntChunks]; [None] when
    the fuel runs out before the loop ends. *)
Fixpoint splitLoop (fuel : nat) (chunkSize remaining : Z) (chunks : list Z)
  : option (list Z) :=
  if remaining >? 0 then
    match fuel with
    | O => None
    | S f =>
        splitLoop f chunkSize (Z.quot remaining chunkSize)
                  (chunks ++ [Z.rem remaining chunkSize])
    end
  else Some chunks.

(** [splitIntoBigIntChunks(decimal)], on the integer that [decimal] spells.
    The loop divides by 2^250 at each turn, so it ends within
    [log2 decimal + 1] turns. *)
Definition splitIntoBigIntChunks (bigIntDecimal : Z) : list Z :=
  let chunkSize := 2 ^ 250 in
  if bigIntDecimal =? 0 then [0]
  else
    match splitLoop (S (Z.to_nat (Z.log2 bigIntDecimal))) chunkSize
                    bigIntDecimal [] with
    | Some chunks => chunks
    | None => []
    end.

(** [combineFromBigIntChunks(chunks)]: the loop runs from the last chunk
    down to the first. *)
Definition combineFromBigIntChunks (chunks : list Z) : Z :=
  let chunkSize := 2 ^ 250 in
  fold_left (fun result chunk => result * chunkSize + chunk) (rev chunks) 0.

(** [str2int(s)]: the chunks and their number.  [None] is the [SyntaxError]
    of [BigInt]. *)
Definition str2int (s : ustring) : option (list Z * Z) :=
  match s with
  | [] => Some ([0], 1)
  | _ =>
      let buf := utf8Encode s in
      let hexString := bufToHex buf in
      match (if String.eqb hexString EmptyString then Some 0
             else BigIntOfHex hexString) with
      | Some result =>
          let resultChunks := splitIntoBigIntChunks result in
          Some (resultChunks, Z.of_nat (List.length resultChunks))
      | None => None
      end
  end.

(** [int2str(input)]. *)
Definition int2str (input : list Z) : ustring :=
  match input with
  | [0] => []
  | _ =>
      let decimal := combineFromBigIntChunks input in
      if decimal =? 0 then []
      else
        let hex := toString16 decimal in
        let hex := if Nat.eqb (String.length hex mod 2) 0 then hex
                   else String "0"%char hex in
        let buf := bufFromHex hex in
        removeNul (utf8Decode buf)
  end.

End Metadata.

(** ** Contract-side data ([src/crypto/types], [src/hooks/types]) *)

Record PPoint := { px : Z; py : Z }.
Record EGCT := { c1 : PPoint; c2 : PPoint }.
Record AmountPCT := { pct : list Z; index : Z }.

(** ** Synchronous helpers outside the modelled files *)

Record Crypto := {
  (* src/crypto/key *)
  getPrivateKeyFromSignature : string -> string;
  formatKeyForCurve : string -> Z;
  (* src/crypto/babyjub *)
  Base8 : list Z;
  generatePublicKey : Z -> list Z;
  mulWithScalar : list Z -> Z -> list Z;
  elGamalDecryption : Z -> list Z * list Z -> list Z;
  (* src/crypto/poseidon: privateKey, authKey, cipher, nonce, length *)
  processPoseidonDecryption :
    Z -> list Z -> list Z -> option Z -> nat -> list Z;
  (* poseidon-lite *)
  poseidon3 : Z -> Z -> Z -> Z;
  poseidon5 : Z -> Z -> Z -> Z -> Z -> Z
}.

(** ** The EERC instance *)

Record CircuitURL := { wasm : string; zkey : string }.

Record CircuitURLs := {
  url_register : CircuitURL;
  url_transfer : CircuitURL;
  url_mint : CircuitURL;
  url_withdraw : CircuitURL;
  url_burn : CircuitURL
}.

Record EERC := {
  walletAddress : option string;   (* this.wallet.account?.address *)
  contractAddress : string;
  registrarAddress : string;
  isConverter : bool;
  circuitURLs : CircuitURLs;
  decryptionKey : string;
  publicKey : list Z
}.

(** ** The host: wallet, RPC client, prover and randomised encryption *)

Inductive Operation := REGISTER | MINT | WITHDRAW | TRANSFER | BURN.

(** A value of a circuit input: a number or an array of numbers. *)
Inductive Val := VNum (z : Z) | VArr (l : list Z).

(** The circuit input, an object literal: its fields in order. *)
Definition Witness := list (string * Val).

Record eERC_Proof := {
  proofPoints_a : list Z;
  proofPoints_b : list (list Z);
  proofPoints_c : list Z;
  publicSignals : list Z
}.

Inductive Abi :=
| ENCRYPTED_ERC_ABI
| REGISTRAR_ABI
| PRIVATE_MINT_WITH_MESSAGE_ABI
| PRIVATE_BURN_WITH_MESSAGE_ABI
| TRANSFER_WITH_MESSAGE_ABI
| WITHDRAW_WITH_MESSAGE_ABI.

Inductive Arg :=
| AAddress (a : string)
| ANum (z : Z)
| AArr (l : list Z)
| AProof (p : eERC_Proof)
| ABytes (words : list Z).

Record ContractCall := {
  call_abi : Abi;
  call_address : string;
  call_functionName : string;
  call_args : list Arg;
  call_account : option string
}.

(** The result of [curve.encryptMessage]. *)
Record ElGamalOut := {
  eg_c1 : list Z;
  eg_c2 : list Z;
  eg_random : Z
}.

(** The result of [poseidon.processPoseidonEncryption]. *)
Record PoseidonOut := {
  cipher : list Z;
  nonce : Z;
  authKey : list Z;
  encryptionRandom : Z
}.

(** What the engine asks of the host, in the order it asks. *)
Inductive Event :=
| SignMessage (message account : string)
| GetUserPublicKey (registrar user : string)
| TokenIds (contract tokenAddress : string)
| GetChainId
| EncryptMessage (pk : list Z) (amount : Z)
| PoseidonEncryption (inputs pk : list Z)
| FullProve (op : Operation) (input : Witness)
| SimulateContract (call : ContractCall)
| WriteContract (request : ContractCall).

(** What the host answers: a value, or a rejection with its reason. *)
Inductive answer (A : Type) : Type :=
| Answer (a : A)
| Reject (reason : string).
Arguments Answer {A} a.
Arguments Reject {A} reason.

(** Every oracle sees the trace so far: its answer may depend on the past
    (fresh randomness, a chain that moves) and it may reject. *)
Record Host := {
  isAddress : string -> bool;
  signMessage : list Event -> string -> string -> answer string;
  getUserPublicKey : list Event -> string -> string -> answer (list Z);
  tokenIds : list Event -> string -> string -> answer Z;
  getChainId : list Event -> answer Z;
  encryptMessage : list Event -> list Z -> Z -> answer ElGamalOut;
  processPoseidonEncryption :
    list Event -> list Z -> list Z -> answer PoseidonOut;
  fullProve :
    list Event -> Operation -> Witness -> string -> string -> answer eERC_Proof;
  simulateContract : list Event -> ContractCall -> answer ContractCall;
  writeContract : list Event -> ContractCall -> answer string
}.

(** The instance together with the history of its exchanges with the host. *)
Record World := { self : EERC; trace : list Event }.

(** ** A state and exception monad for the asynchronous methods *)

Definition M (A : Type) : Type := World -> World * result A.

Definition ret {A} (a : A) : M A := fun w => (w, Ok a).

Definition throw {A} (e : Error) : M A := fun w => (w, Err e).

Definition bind {A B} (m : M A) (k : A -> M B) : M B :=
  fun w =>
    match m w with
    | (w', Ok a) => k a w'
    | (w', Err e) => (w', Err e)
    end.

Notation "x <- m ;; k" := (bind m (fun x => k))
  (at level 61, m at next level, right associativity).
Notation "m ;;; k" := (bind m (fun _ => k))
  (at level 61, right associativity).

(** [try { body } catch (e) { handler }]: what [body] did before it threw
    stays done. *)
Definition tryCatch {A} (body : M A) (handler : Error -> M A) : M A :=
  fun w =>
    match body w with
    | (w', Ok a) => (w', Ok a)
    | (w', Err e) => handler e w'
    end.

Definition liftResult {A} (r : result A) : M A := fun w => (w, r).

Definition this : M EERC := fun w => (w, Ok (self w)).

(** [this.decryptionKey = key]. *)
Definition setDecryptionKey (key : string) : M unit :=
  fun w =>
    let s := self w in
    ({| self := {| walletAddress := walletAddress s;
                   contractAddress := contractAddress s;
                   registrarAddress := registrarAddress s;
                   isConverter := isConverter s;
                   circuitURLs := circuitURLs s;
                   decryptionKey := key;
                   publicKey := publicKey s |};
        trace := trace w |}, Ok tt).

(** [this.publicKey = pk]. *)
Definition setPublicKey (pk : list Z) : M unit :=
  fun w =>
    let s := self w in
    ({| self := {| walletAddress := walletAddress s;
                   contractAddress := contractAddress s;
                   registrarAddress := registrarAddress s;
                   isConverter := isConverter s;
                   circuitURLs := circuitURLs s;
                   decryptionKey := decryptionKey s;
                   publicKey := pk |};
        trace := trace w |}, Ok tt).

(** An [await]ed call to the host: the call is recorded, then answered; a
    rejection is thrown. *)
Definition ask {A} (ev : Event) (oracle : list Event -> answer A) : M A :=
  fun w =>
    ({| self := self w; trace := trace w ++ [ev] |},
     match oracle (trace w) with
     | Answer a => Ok a
     | Reject reason => Err (Rejected reason)
     end).

Module Engine.

Section WithCrypto.
Context (C : Crypto).

(** [validateAmount(amount, senderBalance?)]. *)
Definition validateAmount (amount : Z) (senderBalance : option Z)
  : result unit :=
  if amount <=? 0 then Err InvalidAmount
  else
    match senderBalance with
    | Some b =>
        (* [senderBalance && amount > senderBalance]: 0n is falsy *)
        if negb (b =? 0) && (amount >? b) then Err InsufficientBalance
        else Ok tt
    | None => Ok tt
    end.

(** [decryptPCT(pct)]: the first decrypted field, [undefined] when the
    decryption returns no element. *)
Definition decryptPCT (self : EERC) (p : list Z) : option Z :=
  let privateKey := formatKeyForCurve C (decryptionKey self) in
  let cipher := slice 0 4 p in
  let authKey := slice 4 6 p in
  let nonce := nth_error p 6 in
  let length := 1%nat in
  hd_error (processPoseidonDecryption C privateKey authKey cipher nonce length).

(** [totalBalance += x], where [x] may be [undefined]. *)
Definition addAssign (total : result Z) (x : option Z) : result Z :=
  match total with
  | Ok t => match x with Some v => Ok (t + v) | None => Err TypeError end
  | Err e => Err e
  end.

(** [balancePCT?.some((e) => e !== 0n)]. *)
Definition someNonZero (balancePCT : option (list Z)) : bool :=
  match balancePCT with
  | Some l => existsb (fun e => negb (e =? 0)) l
  | None => false
  end.

(** [calculateTotalBalance(eGCT, amountPCTs, balancePCT)]. *)
Definition calculateTotalBalance (self : EERC) (eGCT : EGCT)
    (amountPCTs : list AmountPCT) (balancePCT : option (list Z))
  : result Z :=
  let privateKey := formatKeyForCurve C (decryptionKey self) in
  let totalBalance : result Z := Ok 0 in
  let totalBalance :=
    if someNonZero balancePCT
    then addAssign totalBalance
           (decryptPCT self (match balancePCT with Some l => l | None => [] end))
    else totalBalance in
  let totalBalance :=
    fold_left (fun acc amountPCT => addAssign acc (decryptPCT self (pct amountPCT)))
              amountPCTs totalBalance in
  match totalBalance with
  | Err e => Err e
  | Ok total =>
      if negb (total =? 0) then
        let decryptedEGCT :=
          elGamalDecryption C privateKey
            ([px (c1 eGCT); py (c1 eGCT)], [px (c2 eGCT); py (c2 eGCT)]) in
        let expectedPoint := mulWithScalar C (Base8 C) total in
        if negb (strictEq (nth_error decryptedEGCT 0) (nth_error expectedPoint 0))
           || negb (strictEq (nth_error decryptedEGCT 1) (nth_error expectedPoint 1))
        then Ok (-1)
        else Ok total
      else Ok total
  end.

End WithCrypto.

Section WithHost.
Context (C : Crypto) (H : Host).

(** [validateAddress(address)]. *)
Definition validateAddress (address : string) : M unit :=
  if negb (isAddress H address) then throw InvalidAddress else ret tt.

(** [fetchPublicKey(to)]. *)
Definition fetchPublicKey (to : string) : M (list Z) :=
  if String.eqb to BURN_USER_address then ret BURN_USER_publicKey
  else
    s <- this ;;
    ask (GetUserPublicKey (registrarAddress s) to)
        (fun t => getUserPublicKey H t (registrarAddress s) to).

(** [fetchTokenId(tokenAddress)]. *)
Definition fetchTokenId (tokenAddress : string) : M Z :=
  s <- this ;;
  ask (TokenIds (contractAddress s) tokenAddress)
      (fun t => tokenIds H t (contractAddress s) tokenAddress).

(** The asset pair that [generateProof] selects for an operation. *)
Definition circuitURL (s : EERC) (operation : Operation) : CircuitURL :=
  match operation with
  | REGISTER => url_register (circuitURLs s)
  | MINT => url_mint (circuitURLs s)
  | WITHDRAW => url_withdraw (circuitURLs s)
  | TRANSFER => url_transfer (circuitURLs s)
  | BURN => url_burn (circuitURLs s)
  end.

(** [generateProof(input, operation)]; resolving the two paths and turning the
    prover's output into call data are left to the [fullProve] oracle. *)
Definition generateProof (input : Witness) (operation : Operation)
  : M eERC_Proof :=
  s <- this ;;
  let u := circuitURL s operation in
  if negb (truthyStr (wasm u)) || negb (truthyStr (zkey u))
  then throw MissingCircuitURL
  else ask (FullProve operation input)
           (fun t => fullProve H t operation input (wasm u) (zkey u)).

(** [pad(toHex(x), { size: 32 })], as the 32-byte word it denotes. *)
Definition pad32 (x : option Z) : result Z :=
  match x with
  | Some v => if (0 <=? v) && (v <? 2 ^ 256) then Ok v
              else Err SizeExceedsPaddingSize
  | None => Err TypeError
  end.

Fixpoint mapResult {A B} (f : A -> result B) (l : list A) : result (list B) :=
  match l with
  | [] => Ok []
  | x :: r =>
      match f x with
      | Ok y => match mapResult f r with
                | Ok ys => Ok (y :: ys)
                | Err e => Err e
                end
      | Err e => Err e
      end
  end.

(** [encryptMetadata(poseidon, publicKey, message)]: the encrypted message as
    its sequence of 32-byte words. *)
Definition encryptMetadata (pk : list Z) (message : Platform.ustring)
  : M (list Z) :=
  match Metadata.str2int message with
  | None => throw SyntaxError
  | Some (messageFieldElements, length) =>
      out <- ask (PoseidonEncryption messageFieldElements pk)
                 (fun t => processPoseidonEncryption H t messageFieldElements pk) ;;
      liftResult
        (mapResult pad32
           ([Some length; Some (nonce out);
             nth_error (authKey out) 0; nth_error (authKey out) 1]
            ++ map Some (cipher out)))
  end.

(** Truthiness of the optional [message] argument. *)
Definition hasMessage (message : option Platform.ustring) : bool :=
  match message with
  | Some (_ :: _) => true
  | _ => false
  end.

(** [message ? await encryptMetadata(this.poseidon, pk, message) : ""]. *)
Definition encryptedMessageFor (pk : list Z) (message : option Platform.ustring)
  : M (list Z) :=
  match message with
  | Some (c :: r) => encryptMetadata pk (c :: r)
  | _ => ret []
  end.

(** The wallet address when it is set and not empty. *)
Definition accountAddress (s : EERC) : option string :=
  match walletAddress s with
  | Some a => if truthyStr a then Some a else None
  | None => None
  end.

(** [generateDecryptionKey()]. *)
Definition generateDecryptionKey : M string :=
  s <- this ;;
  match accountAddress s with
  | None => throw MissingWalletOrClient
  | Some address =>
      tryCatch
        (let message := MESSAGES_REGISTER address in
         signature <- ask (SignMessage message address)
                          (fun t => signMessage H t message address) ;;
         let key := getPrivateKeyFromSignature C signature in
         setDecryptionKey key ;;;
         s' <- this ;;
         let formatted := formatKeyForCurve C (decryptionKey s') in
         setPublicKey (generatePublicKey C formatted) ;;;
         ret key)
        (fun _ => throw FailedToGenerateDecryptionKey)
  end.

(** [address.slice(2)]. *)
Definition slice2 (a : string) : string :=
  String.substring 2 (String.length a - 2) a.

(** The circuit input of [register]. *)
Definition registerInput (formatted : Z) (pk : list Z)
    (fullAddress chainId registrationHash : Z) : Witness :=
  [ ("SenderPrivateKey", VNum formatted);
    ("SenderPublicKey", VArr pk);
    ("SenderAddress", VNum fullAddress);
    ("ChainID", VNum chainId);
    ("RegistrationHash", VNum registrationHash) ]%string.

(** [register()]: the key and the transaction hash. *)
Definition register : M (string * string) :=
  s <- this ;;
  match accountAddress s with
  | None => throw MissingClientWalletOrContract
  | Some address =>
      if negb (truthyStr (contractAddress s))
      then throw MissingClientWalletOrContract
      else
        tryCatch
          (key <- generateDecryptionKey ;;
           let formatted := formatKeyForCurve C key in
           let pk := generatePublicKey C formatted in
           contractPublicKey <- fetchPublicKey address ;;
           if negb (isZeroAt contractPublicKey 0)
              && negb (isZeroAt contractPublicKey 1)
           then
             setDecryptionKey key ;;;
             setPublicKey pk ;;;
             ret (key, EmptyString)
           else
             chainId <- ask GetChainId (fun t => getChainId H t) ;;
             match Platform.BigIntOfHex (slice2 address) with
             | None => throw SyntaxError
             | Some fullAddress =>
                 let registrationHash :=
                   poseidon3 C chainId formatted fullAddress in
                 let input :=
                   registerInput formatted pk fullAddress chainId
                                 registrationHash in
                 proof <- generateProof input REGISTER ;;
                 let call :=
                   {| call_abi := REGISTRAR_ABI;
                      call_address := registrarAddress s;
                      call_functionName := "register";
                      call_args := [AProof proof];
                      call_account := walletAddress s |} in
                 request <- ask (SimulateContract call)
                                (fun t => simulateContract H t call) ;;
                 transactionHash <- ask (WriteContract request)
                                        (fun t => writeContract H t request) ;;
                 setDecryptionKey key ;;;
                 setPublicKey pk ;;;
                 ret (key, transactionHash)
             end)
          (fun e => throw (Rethrown e))
  end.

(** [poseidon5([chainId, ...auditorCiphertext].map(String))]. *)
Definition nullifierOf (chainId : Z) (auditorCiphertext : list Z) : result Z :=
  match auditorCiphertext with
  | [a0; a1; a2; a3] => Ok (poseidon5 C chainId a0 a1 a2 a3)
  | _ => Err PoseidonInputCount
  end.

(** [[...cipher, ...authKey, nonce]], the seven-field form of a PCT. *)
Definition pctFields (o : PoseidonOut) : list Z :=
  cipher o ++ authKey o ++ [nonce o].

(** The circuit input of [privateMint]. *)
Definition mintInput (mintAmount chainId nullifier : Z)
    (receiverPublicKey : list Z) (encryptedAmount : ElGamalOut)
    (receiver : PoseidonOut) (auditorPublicKey : list Z)
    (auditor : PoseidonOut) : Witness :=
  [ ("ValueToMint", VNum mintAmount);
    ("ChainID", VNum chainId);
    ("NullifierHash", VNum nullifier);
    ("ReceiverPublicKey", VArr receiverPublicKey);
    ("ReceiverVTTC1", VArr (eg_c1 encryptedAmount));
    ("ReceiverVTTC2", VArr (eg_c2 encryptedAmount));
    ("ReceiverVTTRandom", VNum (eg_random encryptedAmount));
    ("ReceiverPCT", VArr (cipher receiver));
    ("ReceiverPCTAuthKey", VArr (authKey receiver));
    ("ReceiverPCTNonce", VNum (nonce receiver));
    ("ReceiverPCTRandom", VNum (encryptionRandom receiver));
    ("AuditorPublicKey", VArr auditorPublicKey);
    ("AuditorPCT", VArr (cipher auditor));
    ("AuditorPCTAuthKey", VArr (authKey auditor));
    ("AuditorPCTNonce", VNum (nonce auditor));
    ("AuditorPCTRandom", VNum (encryptionRandom auditor)) ]%string.

(** [privateMint(recipient, mintAmount, auditorPublicKey, message?)]. *)
Definition privateMint (recipient : string) (mintAmount : Z)
    (auditorPublicKey : list Z) (message : option Platform.ustring)
  : M string :=
  s <- this ;;
  if isConverter s then throw NotAllowedForConverter
  else
    validateAddress recipient ;;;
    liftResult (validateAmount mintAmount None) ;;;
    receiverPublicKey <- fetchPublicKey recipient ;;
    encryptedMessage <- encryptedMessageFor receiverPublicKey message ;;
    encryptedAmount <-
      ask (EncryptMessage receiverPublicKey mintAmount)
          (fun t => encryptMessage H t receiverPublicKey mintAmount) ;;
    receiver <-
      ask (PoseidonEncryption [mintAmount] receiverPublicKey)
          (fun t => processPoseidonEncryption H t [mintAmount] receiverPublicKey) ;;
    auditor <-
      ask (PoseidonEncryption [mintAmount] auditorPublicKey)
          (fun t => processPoseidonEncryption H t [mintAmount] auditorPublicKey) ;;
    chainId <- ask GetChainId (fun t => getChainId H t) ;;
    nullifier <- liftResult (nullifierOf chainId (cipher auditor)) ;;
    let input :=
      mintInput mintAmount chainId nullifier receiverPublicKey encryptedAmount
                receiver auditorPublicKey auditor in
    proof <- generateProof input MINT ;;
    let call :=
      {| call_abi := if hasMessage message then PRIVATE_MINT_WITH_MESSAGE_ABI
                     else ENCRYPTED_ERC_ABI;
         call_address := contractAddress s;
         call_functionName := "privateMint";
         call_args := if hasMessage message
                      then [AAddress recipient; AProof proof;
                            ABytes encryptedMessage]
                      else [AAddress recipient; AProof proof];
         call_account := walletAddress s |} in
    request <- ask (SimulateContract call) (fun t => simulateContract H t call) ;;
    ask (WriteContract request) (fun t => writeContract H t request).


(** The fields that the spending circuits share. *)
Definition senderFields (privateKey : Z) (s : EERC) (decryptedBalance : Z)
    (encryptedBalance : list Z) : Witness :=
  [ ("SenderPrivateKey", VNum privateKey);
    ("SenderPublicKey", VArr (publicKey s));
    ("SenderBalance", VNum decryptedBalance);
    ("SenderBalanceC1", VArr (slice 0 2 encryptedBalance));
    ("SenderBalanceC2", VArr (slice 2 4 encryptedBalance)) ]%string.

Definition auditorFields (auditorPublicKey : list Z) (auditor : PoseidonOut)
  : Witness :=
  [ ("AuditorPublicKey", VArr auditorPublicKey);
    ("AuditorPCT", VArr (cipher auditor));
    ("AuditorPCTAuthKey", VArr (authKey auditor));
    ("AuditorPCTNonce", VNum (nonce auditor));
    ("AuditorPCTRandom", VNum (encryptionRandom auditor)) ]%string.

(** The circuit input of [privateBurn]. *)
Definition burnInput (amount privateKey : Z) (s : EERC) (decryptedBalance : Z)
    (encryptedBalance : list Z) (encryptedAmount : ElGamalOut)
    (auditorPublicKey : list Z) (auditor : PoseidonOut) : Witness :=
  [ ("ValueToBurn", VNum amount) ]%string
  ++ senderFields privateKey s decryptedBalance encryptedBalance
  ++ [ ("SenderVTBC1", VArr (eg_c1 encryptedAmount));
       ("SenderVTBC2", VArr (eg_c2 encryptedAmount)) ]%string
  ++ auditorFields auditorPublicKey auditor.

(** [privateBurn(amount, encryptedBalance, decryptedBalance, auditorPublicKey,
    message?)]. *)
Definition privateBurn (amount : Z) (encryptedBalance : list Z)
    (decryptedBalance : Z) (auditorPublicKey : list Z)
    (message : option Platform.ustring) : M string :=
  s <- this ;;
  if isConverter s then throw NotAllowedForConverter
  else
    liftResult (validateAmount amount (Some decryptedBalance)) ;;;
    encryptedMessage <- encryptedMessageFor (publicKey s) message ;;
    let privateKey := formatKeyForCurve C (decryptionKey s) in
    encryptedAmount <-
      ask (EncryptMessage (publicKey s) amount)
          (fun t => encryptMessage H t (publicKey s) amount) ;;
    auditor <-
      ask (PoseidonEncryption [amount] auditorPublicKey)
          (fun t => processPoseidonEncryption H t [amount] auditorPublicKey) ;;
    let senderNewBalance := decryptedBalance - amount in
    user <-
      ask (PoseidonEncryption [senderNewBalance] (publicKey s))
          (fun t => processPoseidonEncryption H t [senderNewBalance] (publicKey s)) ;;
    let input :=
      burnInput amount privateKey s decryptedBalance encryptedBalance
                encryptedAmount auditorPublicKey auditor in
    proof <- generateProof input BURN ;;
    let call :=
      {| call_abi := if hasMessage message then PRIVATE_BURN_WITH_MESSAGE_ABI
                     else ENCRYPTED_ERC_ABI;
         call_address := contractAddress s;
         call_functionName := "privateBurn";
         call_args := if hasMessage message
                      then [AProof proof; AArr (pctFields user);
                            ABytes encryptedMessage]
                      else [AProof proof; AArr (pctFields user)];
         call_account := walletAddress s |} in
    request <- ask (SimulateContract call) (fun t => simulateContract H t call) ;;
    ask (WriteContract request) (fun t => writeContract H t request).

(** The circuit input of [withdraw]. *)
Definition withdrawInput (amount privateKey : Z) (s : EERC)
    (decryptedBalance : Z) (encryptedBalance : list Z)
    (auditorPublicKey : list Z) (auditor : PoseidonOut) : Witness :=
  [ ("ValueToWithdraw", VNum amount) ]%string
  ++ senderFields privateKey s decryptedBalance encryptedBalance
  ++ auditorFields auditorPublicKey auditor.

(** [withdraw(amount, encryptedBalance, decryptedBalance, auditorPublicKey,
    tokenAddress, message?)]. *)
Definition withdraw (amount : Z) (encryptedBalance : list Z)
    (decryptedBalance : Z) (auditorPublicKey : list Z) (tokenAddress : string)
    (message : option Platform.ustring) : M string :=
  s <- this ;;
  if negb (isConverter s) then throw NotAllowedForStandAlone
  else
    liftResult (validateAmount amount (Some decryptedBalance)) ;;;
    tryCatch
      (tokenId <- fetchTokenId tokenAddress ;;
       encryptedMessage <- encryptedMessageFor (publicKey s) message ;;
       let newBalance := decryptedBalance - amount in
       let privateKey := formatKeyForCurve C (decryptionKey s) in
       sender <-
         ask (PoseidonEncryption [newBalance] (publicKey s))
             (fun t => processPoseidonEncryption H t [newBalance] (publicKey s)) ;;
       auditor <-
         ask (PoseidonEncryption [amount] auditorPublicKey)
             (fun t => processPoseidonEncryption H t [amount] auditorPublicKey) ;;
       let input :=
         withdrawInput amount privateKey s decryptedBalance encryptedBalance
                       auditorPublicKey auditor in
       proof <- generateProof input WITHDRAW ;;
       let call :=
         {| call_abi := if hasMessage message then WITHDRAW_WITH_MESSAGE_ABI
                        else ENCRYPTED_ERC_ABI;
            call_address := contractAddress s;
            call_functionName := "withdraw";
            call_args := if hasMessage message
                         then [ANum tokenId; AProof proof;
                               AArr (pctFields sender); ABytes encryptedMessage]
                         else [ANum tokenId; AProof proof;
                               AArr (pctFields sender)];
            call_account := walletAddress s |} in
       request <- ask (SimulateContract call)
                      (fun t => simulateContract H t call) ;;
       ask (WriteContract request) (fun t => writeContract H t request))
      (fun e => throw (Rethrown e)).

(** The circuit input of [generateTransferProof]. *)
Definition transferInput (amount privateKey : Z) (s : EERC)
    (decryptedBalance : Z) (encryptedBalance : list Z)
    (encryptedAmountSender : ElGamalOut) (receiverPublicKey : list Z)
    (encryptedAmountReceiver : ElGamalOut) (receiver : PoseidonOut)
    (auditorPublicKey : list Z) (auditor : PoseidonOut) : Witness :=
  [ ("ValueToTransfer", VNum amount) ]%string
  ++ senderFields privateKey s decryptedBalance encryptedBalance
  ++ [ ("SenderVTTC1", VArr (eg_c1 encryptedAmountSender));
       ("SenderVTTC2", VArr (eg_c2 encryptedAmountSender));
       ("ReceiverPublicKey", VArr receiverPublicKey);
       ("ReceiverVTTC1", VArr (eg_c1 encryptedAmountReceiver));
       ("ReceiverVTTC2", VArr (eg_c2 encryptedAmountReceiver));
       ("ReceiverVTTRandom", VNum (eg_random encryptedAmountReceiver));
       ("ReceiverPCT", VArr (cipher receiver));
       ("ReceiverPCTAuthKey", VArr (authKey receiver));
       ("ReceiverPCTNonce", VNum (nonce receiver));
       ("ReceiverPCTRandom", VNum (encryptionRandom receiver)) ]%string
  ++ auditorFields auditorPublicKey auditor.

Record TransferProof := {
  proof : eERC_Proof;
  senderBalancePCT : list Z;
  receiverEncryptedAmount : list Z;
  senderEncryptedAmount : list Z
}.

(** [generateTransferProof(to, amount, encryptedBalance, decryptedBalance,
    auditorPublicKey)]. *)
Definition generateTransferProof (to : string) (amount : Z)
    (encryptedBalance : list Z) (decryptedBalance : Z)
    (auditorPublicKey : list Z) : M TransferProof :=
  tryCatch
    (if isZeroAt auditorPublicKey 0 && isZeroAt auditorPublicKey 1
     then throw AuditorNotSet
     else
       validateAddress to ;;;
       liftResult (validateAmount amount (Some decryptedBalance)) ;;;
       s <- this ;;
       let senderNewBalance := decryptedBalance - amount in
       let privateKey := formatKeyForCurve C (decryptionKey s) in
       receiverPublicKey <- fetchPublicKey to ;;
       if isZeroAt receiverPublicKey 0 && isZeroAt receiverPublicKey 1
       then throw ReceiverNotRegistered
       else
         encryptedAmountSender <-
           ask (EncryptMessage (publicKey s) amount)
               (fun t => encryptMessage H t (publicKey s) amount) ;;
         encryptedAmountReceiver <-
           ask (EncryptMessage receiverPublicKey amount)
               (fun t => encryptMessage H t receiverPublicKey amount) ;;
         receiver <-
           ask (PoseidonEncryption [amount] receiverPublicKey)
               (fun t => processPoseidonEncryption H t [amount] receiverPublicKey) ;;
         auditor <-
           ask (PoseidonEncryption [amount] auditorPublicKey)
               (fun t => processPoseidonEncryption H t [amount] auditorPublicKey) ;;
         sender <-
           ask (PoseidonEncryption [senderNewBalance] (publicKey s))
               (fun t => processPoseidonEncryption H t [senderNewBalance]
                                                   (publicKey s)) ;;
         let input :=
           transferInput amount privateKey s decryptedBalance encryptedBalance
                         encryptedAmountSender receiverPublicKey
                         encryptedAmountReceiver receiver auditorPublicKey
                         auditor in
         proof <- generateProof input TRANSFER ;;
         senderAmount <-
           ask (PoseidonEncryption [amount] (publicKey s))
               (fun t => processPoseidonEncryption H t [amount] (publicKey s)) ;;
         ret {| proof := proof;
                senderBalancePCT := pctFields sender;
                receiverEncryptedAmount := pctFields receiver;
                senderEncryptedAmount := pctFields senderAmount |})
    (fun e => throw (Rethrown e)).

(** [transfer(to, amount, encryptedBalance, decryptedBalance,
    auditorPublicKey, tokenAddress?, message?)]: the transaction hash and the
    receiver's and the sender's amount PCTs. *)
Definition transfer (to : string) (amount : Z) (encryptedBalance : list Z)
    (decryptedBalance : Z) (auditorPublicKey : list Z)
    (tokenAddress : option string) (message : option Platform.ustring)
  : M (string * list Z * list Z) :=
  validateAddress to ;;;
  liftResult (validateAmount amount (Some decryptedBalance)) ;;;
  receiverPublicKey <- fetchPublicKey to ;;
  encryptedMessage <- encryptedMessageFor receiverPublicKey message ;;
  tokenId <-
    match tokenAddress with
    | Some a => if truthyStr a then fetchTokenId a else ret 0
    | None => ret 0
    end ;;
  p <- generateTransferProof to amount encryptedBalance decryptedBalance
                             auditorPublicKey ;;
  s <- this ;;
  let call :=
    {| call_abi := if hasMessage message then TRANSFER_WITH_MESSAGE_ABI
                   else ENCRYPTED_ERC_ABI;
       call_address := contractAddress s;
       call_functionName := "transfer";
       call_args := if hasMessage message
                    then [AAddress to; ANum tokenId; AProof (proof p);
                          AArr (senderBalancePCT p); ABytes encryptedMessage]
                    else [AAddress to; ANum tokenId; AProof (proof p);
                          AArr (senderBalancePCT p)];
       call_account := walletAddress s |} in
  request <- ask (SimulateContract call) (fun t => simulateContract H t call) ;;
  transactionHash <- ask (WriteContract request)
                         (fun t => writeContract H t request) ;;
  ret (transactionHash, receiverEncryptedAmount p, senderEncryptedAmount p).

End WithHost.

End Engine.


(** ** The specification's wording, for comparison with the code *)

Module Spec.


(** "[balancePCT] is non-zero": not every field of it is zero. *)
Definition nonZero (balancePCT : option (list Z)) : bool :=
  match balancePCT with
  | Some l => negb (forallb (fun e => e =? 0) l)
  | None => false
  end.

(** §4.I, steps 1 and 2: the first decrypted field of [balancePCT], counted
    only when [balancePCT] is non-zero, plus the first decrypted field of
    every amount PCT.  [dec] is "the first field of [PCT.decrypt]". *)
Definition total (dec : list Z -> Z) (amountPCTs : list AmountPCT)
    (balancePCT : option (list Z)) : Z :=
  (match balancePCT with
   | Some l => if nonZero balancePCT then dec l else 0
   | None => 0
   end)
  + fold_right Z.add 0 (map (fun a => dec (pct a)) amountPCTs).


(** The integer that the UTF-8 bytes of [s] spell, most significant first. *)
Definition encodedInteger (s : Platform.ustring) : Z :=
  fold_left (fun acc b => acc * 256 + b) (Platform.utf8Encode s) 0.

(** [s] without its trailing U+0000 padding. *)
Definition stripTrailingNul (s : Platform.ustring) : Platform.ustring :=
  rev (
    (fix dropZeros (l : list Z) : list Z :=
       match l with
       | 0 :: r => dropZeros r
       | _ => l
       end) (rev s)).

End Spec.

(** ** The curve's addition law *)

Module BabyJubSpec.

Definition p : Z := SNARK_FIELD_SIZE.
Definition a : Z := 168700.
Definition d : Z := 168696.

(** Modelled from the spec: the field arithmetic of §4.A is not among the
    source files; [b ^ e mod p] by squaring. *)
Fixpoint powmod (b : Z) (e : positive) : Z :=
  match e with
  | xH => b mod p
  | xO e' => let r := powmod b e' in (r * r) mod p
  | xI e' => let r := powmod b e' in (r * r * b) mod p
  end.

(** Modelled from the spec: [inv] of §4.A, by Fermat. *)
Definition inv (x : Z) : Z := powmod x (Z.to_pos (p - 2)).

(** Modelled from the spec: [src/crypto/babyjub] is not among the source files;
    §4.B gives [add(P, Q)] as the complete twisted-Edwards addition law on
    [a x^2 + y^2 = 1 + d x^2 y^2] with [a = 168700] and [d = 168696], over the
    field of §3. *)
Definition add (P Q : Z * Z) : Z * Z :=
  let '(x1, y1) := P in
  let '(x2, y2) := Q in
  let t := (d * x1 * x2 * y1 * y2) mod p in
  (((x1 * y2 + y1 * x2) * inv (1 + t)) mod p,
   ((y1 * y2 - a * x1 * x2) * inv (1 - t)) mod p).

(** A point all of whose sums with a field point are that point. *)
Definition isIdentity (O : Z * Z) : Prop :=
  forall x y, 0 <= x < p -> 0 <= y < p ->
    add O (x, y) = (x, y) /\ add (x, y) O = (x, y).

End BabyJubSpec.

(** ** Auxiliary notions used to state the codec's properties *)

Module CodecAux.
Import Platform.

Definition isByte (b : Z) : Prop := 0 <= b < 256.

(** The integer that a byte sequence spells after [acc]. *)
Definition valueFrom (acc : Z) (bs : list Z) : Z :=
  fold_left (fun a b => a * 256 + b) bs acc.

(** The hexadecimal digits of [n] in front of [acc]. *)
Definition hexOf (n : Z) (acc : string) : string :=
  hexDigitsOnto (S (Z.to_nat (Z.log2 n))) n acc.

(** A sequence without its leading zeros. *)
Fixpoint dropLeadingZeros (l : list Z) : list Z :=
  match l with
  | 0 :: r => dropLeadingZeros r
  | _ => l
  end.

(** A string all of whose code points are Unicode scalar values. *)
Definition wellFormed (s : ustring) : Prop :=
  Forall (fun c => isScalar c = true) s.

(** "hello, auditor" followed by U+1F642, the message of scenario 6 of §8. *)
Definition helloAuditor : ustring :=
  [104; 101; 108; 108; 111; 44; 32; 97; 117; 100; 105; 116; 111; 114; 32;
   0x1F642].

(** One turn of the loop of [combineFromBigIntChunks]. *)
Definition chunkStep (result chunk : Z) : Z := result * 2 ^ 250 + chunk.

(** The [if (hex.length % 2 !== 0)] step of [int2str]. *)
Definition evenPad (hex : string) : string :=
  if Nat.eqb (String.length hex mod 2) 0 then hex else String "0"%char hex.

End CodecAux.

(** ** Reading a circuit input *)

(** [input[name]]. *)
Fixpoint field (name : string) (input : Witness) : option Val :=
  match input with
  | [] => None
  | (k, v) :: r => if String.eqb k name then Some v else field name r
  end.

(** The all-zero pair that the registrar returns for an address that never
    registered, and the contract for an auditor that was never set. *)
Definition isZeroPair (pk : list Z) : bool := isZeroAt pk 0 && isZeroAt pk 1.

(** The instance after [this.decryptionKey = key] and
    [this.publicKey = generatePublicKey(formatKeyForCurve(key))]. *)
Definition withKey (C : Crypto) (s : EERC) (key : string) : EERC :=
  {| walletAddress := walletAddress s;
     contractAddress := contractAddress s;
     registrarAddress := registrarAddress s;
     isConverter := isConverter s;
     circuitURLs := circuitURLs s;
     decryptionKey := key;
     publicKey := generatePublicKey C (formatKeyForCurve C key) |}.

(** Whether [validateAmount] lets an amount pass against a balance. *)
Definition validateAmount_accepts (v bal : Z) : bool :=
  isOk (Engine.validateAmount v (Some bal)).

(** The character codes of ["eERC\nRegistering user with\n Address:"]. *)
Definition registerPrefix : list nat :=
  [101; 69; 82; 67; 10;
   82; 101; 103; 105; 115; 116; 101; 114; 105; 110; 103; 32;
   117; 115; 101; 114; 32; 119; 105; 116; 104; 10;
   32; 65; 100; 100; 114; 101; 115; 115; 58]%nat.

(** The code of a character after [toLowerCase]. *)
Definition lowerCode (n : nat) : nat :=
  if (65 <=? n)%nat && (n <=? 90)%nat then (n + 32)%nat else n.

(** The character codes of a string. *)
Definition codes (s : string) : list nat :=
  map nat_of_ascii (list_ascii_of_string s).

(** ** A concrete session, on which the statements are exercised *)

Module Scenario.

(** A stand-in group: pairs of integers under addition, generated by
    [(1, 0)]; ElGamal and the Poseidon stream are taken over it. *)
Definition scale (k : Z) (P : list Z) : list Z := map (fun c => k * c) P.

Definition crypto : Crypto := {|
  getPrivateKeyFromSignature := fun signature => signature;
  formatKeyForCurve := fun key => Z.of_nat (String.length key);
  Base8 := [1; 0];
  generatePublicKey := fun sk => scale sk [1; 0];
  mulWithScalar := fun P k => scale k P;
  elGamalDecryption := fun sk ct =>
    [nth 0 (snd ct) 0 - sk * nth 0 (fst ct) 0;
     nth 1 (snd ct) 0 - sk * nth 1 (fst ct) 0];
  processPoseidonDecryption := fun sk authKey cipher _ len =>
    map (fun i => nth i cipher 0 - sk * nth 0 authKey 0) (seq 0 len);
  poseidon3 := fun a b c => a + 2 * b + 3 * c;
  poseidon5 := fun a b c d e => a + 2 * b + 3 * c + 4 * d + 5 * e
|}.

Definition alice : string := "0x00000000000000000000000000000000000A11CE".
Definition bob : string := "0x0000000000000000000000000000000000000B0B".
Definition token : string := "0x00000000000000000000000000000000000000AA".

Definition urls : CircuitURLs :=
  let u := {| wasm := "circuit.wasm"; zkey := "circuit.zkey" |} in
  {| url_register := u; url_transfer := u; url_mint := u;
     url_withdraw := u; url_burn := u |}.

(** Alice's instance in a stand-alone deployment, key already derived. *)
Definition standalone : EERC := {|
  walletAddress := Some alice;
  contractAddress := "0x00000000000000000000000000000000000000C0";
  registrarAddress := "0x00000000000000000000000000000000000000D0";
  isConverter := false;
  circuitURLs := urls;
  decryptionKey := "abc";
  publicKey := [3; 0]
|}.

(** The same instance in a converter deployment. *)
Definition converter : EERC := {|
  walletAddress := Some alice;
  contractAddress := "0x00000000000000000000000000000000000000C0";
  registrarAddress := "0x00000000000000000000000000000000000000D0";
  isConverter := true;
  circuitURLs := urls;
  decryptionKey := "abc";
  publicKey := [3; 0]
|}.

(** Alice's instance before any key was derived. *)
Definition fresh : EERC := {|
  walletAddress := Some alice;
  contractAddress := "0x00000000000000000000000000000000000000C0";
  registrarAddress := "0x00000000000000000000000000000000000000D0";
  isConverter := false;
  circuitURLs := urls;
  decryptionKey := "";
  publicKey := []
|}.

(** An instance whose wallet has no account. *)
Definition noWallet : EERC := {|
  walletAddress := None;
  contractAddress := "0x00000000000000000000000000000000000000C0";
  registrarAddress := "0x00000000000000000000000000000000000000D0";
  isConverter := false;
  circuitURLs := urls;
  decryptionKey := "";
  publicKey := []
|}.

Definition someProof : eERC_Proof :=
  {| proofPoints_a := [1; 2]; proofPoints_b := [[3; 4]; [5; 6]];
     proofPoints_c := [7; 8]; publicSignals := [9] |}.

(** The randomness of a call: the number of calls made before it, plus one. *)
Definition entropy (t : list Event) : Z := Z.of_nat (List.length t) + 1.

(** A host on which every call succeeds; Bob is registered with key
    [(11, 0)], nobody else is.  Addresses are checked by their length
    alone. *)
Definition host : Host := {|
  isAddress := fun a => Nat.eqb (String.length a) 42;
  signMessage := fun _ _ _ => Answer "c0ffee"%string;
  getUserPublicKey := fun _ _ user =>
    Answer (if String.eqb user bob then [11; 0] else [0; 0]);
  tokenIds := fun _ _ _ => Answer 1;
  getChainId := fun _ => Answer 43114;
  encryptMessage := fun t pk m =>
    let r := entropy t in
    Answer {| eg_c1 := [r; 0];
              eg_c2 := [m + r * nth 0 pk 0; r * nth 1 pk 0];
              eg_random := r |};
  processPoseidonEncryption := fun t inputs pk =>
    let r := entropy t in
    let k := r * nth 0 pk 0 in
    Answer {| cipher := map (fun i => nth i inputs 0 + k) (seq 0 4);
              nonce := r + 100;
              authKey := [r; 0];
              encryptionRandom := r |};
  fullProve := fun _ _ _ _ _ => Answer someProof;
  simulateContract := fun _ call => Answer call;
  writeContract := fun _ _ => Answer "0xfeed"%string
|}.

(** The same host with a prover that always fails. *)
Definition hostWithoutProver : Host := {|
  isAddress := isAddress host;
  signMessage := signMessage host;
  getUserPublicKey := getUserPublicKey host;
  tokenIds := tokenIds host;
  getChainId := getChainId host;
  encryptMessage := encryptMessage host;
  processPoseidonEncryption := processPoseidonEncryption host;
  fullProve := fun _ _ _ _ _ => Reject "prover failed";
  simulateContract := simulateContract host;
  writeContract := writeContract host
|}.

Definition start (s : EERC) : World := {| self := s; trace := [] |}.

(** The PCT of [m] under Alice's key [(3, 0)] with randomness [r]. *)
Definition pctOf (m r : Z) : list Z :=
  [m + 3 * r; 3 * r; 3 * r; 3 * r; r; 0; r + 100].

(** Scenario 5 of §8: a balance PCT of 70, amount PCTs of 10 and 20, and
    an EGCT of 100. *)
Definition balancePCT70 : list Z := pctOf 70 2.
Definition amountPCTs30 : list AmountPCT :=
  [ {| pct := pctOf 10 5; index := 0 |}; {| pct := pctOf 20 7; index := 1 |} ].
Definition egct100 : EGCT :=
  {| c1 := {| px := 4; py := 0 |}; c2 := {| px := 100 + 4 * 3; py := 0 |} |}.


(** The circuit inputs that a run handed to the prover, in order. *)
Definition provedInputs (w : World) : list Witness :=
  flat_map (fun ev => match ev with FullProve _ i => [i] | _ => [] end)
           (trace w).

(** The calls that a run simulated, in order. *)
Definition simulatedCalls (w : World) : list ContractCall :=
  flat_map (fun ev => match ev with SimulateContract c => [c] | _ => [] end)
           (trace w).

Definition noCall : ContractCall :=
  {| call_abi := ENCRYPTED_ERC_ABI; call_address := ""; call_functionName := "";
     call_args := []; call_account := None |}.

Definition encryptedBalance : list Z := [1; 2; 3; 4].
Definition auditorKey : list Z := [7; 0].

(** Scenario 1 of §8: Alice registers. *)
Definition registration : M (string * string) :=
  Engine.register crypto host.
Definition registrationInput : Witness :=
  Eval vm_compute in hd [] (provedInputs (fst (registration (start fresh)))).

(** Scenario 2 of §8: a mint of 100 to Bob. *)
Definition mint100 : M string :=
  Engine.privateMint crypto host bob 100 auditorKey None.
Definition mint100Input : Witness :=
  Eval vm_compute in hd [] (provedInputs (fst (mint100 (start standalone)))).

(** Scenario 3 of §8: a transfer of 30 to Bob from a balance of 100. *)
Definition transfer30 : M (string * list Z * list Z) :=
  Engine.transfer crypto host bob 30 encryptedBalance 100 auditorKey None None.
Definition transfer30Input : Witness :=
  Eval vm_compute in hd [] (provedInputs (fst (transfer30 (start standalone)))).
Definition transfer30Call : ContractCall :=
  Eval vm_compute in
    hd noCall (simulatedCalls (fst (transfer30 (start standalone)))).

(** Scenario 4 of §8: a withdrawal of 40 from a balance of 70. *)
Definition withdraw40 : M string :=
  Engine.withdraw crypto host 40 encryptedBalance 70 auditorKey token None.
Definition withdraw40Call : ContractCall :=
  Eval vm_compute in
    hd noCall (simulatedCalls (fst (withdraw40 (start converter)))).

(** A burn of 40 from a balance of 70. *)
Definition burn40 : M string :=
  Engine.privateBurn crypto host 40 encryptedBalance 70 auditorKey None.
Definition burn40Call : ContractCall :=
  Eval vm_compute in
    hd noCall (simulatedCalls (fst (burn40 (start standalone)))).


End Scenario.

(* ================================================================== *)
(** * Part I, continued: the rest of the modelled code *)
(* ================================================================== *)

From Stdlib Require Import Permutation.

(** ** Chunk arrays *)

Module CodecMore.

(** A value that fits a chunk of 250 bits. *)
Definition isChunk (c : Z) : Prop := 0 <= c < 2 ^ 250.

(** The chunk arrays that [splitIntoBigIntChunks] writes: [[0]] for zero,
    and otherwise chunks of 250 bits the last of which is not zero. *)
Definition canonical (chunks : list Z) : Prop :=
  Forall isChunk chunks
  /\ (chunks = [0] \/ (chunks <> [] /\ last chunks 0 <> 0)).

End CodecMore.

(** ** The rest of [src/EERC.ts] *)

Module EngineMore.

(** [convertTokenDecimals(amount, fromDecimals, toDecimals)].  The decimals
    are integers, so that nothing in the [try] block throws. *)
Definition convertTokenDecimals (amount fromDecimals toDecimals : Z) : Z :=
  if fromDecimals =? toDecimals then amount
  else
    let diff := fromDecimals - toDecimals in
    if diff >? 0 then
      let scalingFactor := 10 ^ diff in
      Z.quot amount scalingFactor
    else
      let scalingFactor := 10 ^ Z.abs diff in
      amount * scalingFactor.

(** The errors that laying out an encrypted message can end with. *)
Definition layoutError (e : Error) : Prop :=
  e = SyntaxError \/ e = TypeError \/ e = SizeExceedsPaddingSize
  \/ exists reason, e = Rejected reason.

(** The calls that carry a proof to the chain. *)
Definition isSubmission (ev : Event) : bool :=
  match ev with
  | FullProve _ _ | SimulateContract _ | WriteContract _ => true
  | _ => false
  end.

Definition submissions (t : list Event) : list Event :=
  filter isSubmission t.

(** One proof for [op], then one simulation, then one write, or a beginning
    of these. *)
Definition inOrder (op : Operation) (l : list Event) : Prop :=
  l = []
  \/ (exists input, l = [FullProve op input])
  \/ (exists input call, l = [FullProve op input; SimulateContract call])
  \/ (exists input call request,
        l = [FullProve op input; SimulateContract call;
             WriteContract request]).

(** The history [t] ends with a transaction [hash] for the contract function
    [functionName] at [address]: the prover answered with a proof for [op],
    the call that was simulated carries this proof and comes from the
    instance's account, the request that was written is the one the
    simulation returned, and [hash] is the wallet's answer to it. *)
Definition submitted (H : Host) (s : EERC) (op : Operation)
    (functionName address : string) (t : list Event) (hash : string) : Prop :=
  exists t1 t2 input proof call request,
    t = t1 ++ FullProve op input :: t2
           ++ [SimulateContract call; WriteContract request]
    /\ submissions t2 = []
    /\ fullProve H t1 op input (wasm (Engine.circuitURL s op))
                 (zkey (Engine.circuitURL s op)) = Answer proof
    /\ In (AProof proof) (call_args call)
    /\ call_functionName call = functionName
    /\ call_address call = address
    /\ call_account call = walletAddress s
    /\ simulateContract H (t1 ++ FullProve op input :: t2) call
       = Answer request
    /\ writeContract H (t1 ++ FullProve op input :: t2
                           ++ [SimulateContract call]) request
       = Answer hash.

(** [new EERC(client, wallet, contractAddress, registrarAddress, isConverter,
    circuitURLs, decryptionKey?)]. *)
Definition construct (C : Crypto) (wallet : option string)
    (contractAddress registrarAddress : string) (isConverter : bool)
    (circuitURLs : CircuitURLs) (decryptionKey : option string) : EERC :=
  let key := match decryptionKey with
             | Some k => if truthyStr k then k else EmptyString
             | None => EmptyString
             end in
  {| walletAddress := wallet;
     contractAddress := contractAddress;
     registrarAddress := registrarAddress;
     isConverter := isConverter;
     circuitURLs := circuitURLs;
     decryptionKey := key;
     publicKey := if truthyStr key
                  then generatePublicKey C (formatKeyForCurve C key)
                  else [] |}.

(** [get isDecryptionKeySet()]. *)
Definition isDecryptionKeySet (s : EERC) : bool := truthyStr (decryptionKey s).

(** The public key is the one of the decryption key, or neither is set. *)
Definition keysPaired (C : Crypto) (s : EERC) : Prop :=
  publicKey s = generatePublicKey C (formatKeyForCurve C (decryptionKey s))
  \/ (isDecryptionKeySet s = false /\ publicKey s = []).

(** One of the two asset paths of an operation's circuit is empty. *)
Definition assetMissing (s : EERC) (op : Operation) : Prop :=
  truthyStr (wasm (Engine.circuitURL s op)) = false
  \/ truthyStr (zkey (Engine.circuitURL s op)) = false.

End EngineMore.




(** ** The encrypted message as a hex string ([src/crypto/metadata]) *)

Module MetadataMore.
Import Platform Metadata.

(** A value that fits 32 bytes. *)
Definition isWord (v : Z) : Prop := 0 <= v < 2 ^ 256.

Fixpoint zeros (k : nat) : string :=
  match k with
  | O => EmptyString
  | S k' => String "0"%char (zeros k')
  end.

(** The 64 digits of [pad(toHex(v), { size: 32 })], for a [v] that fits 32
    bytes. *)
Definition wordHex (v : Z) : string :=
  (zeros (64 - String.length (toString16 v)) ++ toString16 v)%string.

Fixpoint joinStrings (l : list string) : string :=
  match l with
  | [] => EmptyString
  | x :: r => (x ++ joinStrings r)%string
  end.

(** [concat(componentsToConcat)]: the string that [encryptMetadata] returns
    for the words it laid out. *)
Definition concatHex (words : list Z) : string :=
  ("0x" ++ joinStrings (map wordHex words))%string.

(** [s.slice(i, j)] for [0 <= i <= j]. *)
Definition sliceStr (i j : nat) (s : string) : string :=
  String.substring i (j - i) s.

(** [s.slice(i)]. *)
Definition sliceFrom (i : nat) (s : string) : string :=
  String.substring i (String.length s - i) s.

(** The loop [for (let i = 0; i < ciphertextHex.length; i += 64)] of
    [decryptMetadata], from index [i] on; [None] is the [SyntaxError] of
    [BigInt].  Every turn moves [i] forward, so that the length of the
    string is fuel enough. *)
Fixpoint ciphertextFrom (fuel i : nat) (ciphertextHex : string)
  : option (list Z) :=
  match fuel with
  | O => Some []
  | S f =>
      if (i <? String.length ciphertextHex)%nat then
        match BigIntOfHex (sliceStr i (i + 64) ciphertextHex) with
        | Some chunk =>
            match ciphertextFrom f (i + 64) ciphertextHex with
            | Some rest => Some (chunk :: rest)
            | None => None
            end
        | None => None
        end
      else Some []
  end.

(** [decryptMetadata(poseidon, privateKey, encryptedMessage)], on a message
    of hexadecimal digits; [Number(length)] is exact for the lengths below
    2^53 that a message can have. *)
Definition decryptMetadata (C : Crypto) (privateKey : Z)
    (encryptedMessage : string) : result ustring :=
  let hexData :=
    if String.prefix "0x" encryptedMessage then sliceFrom 2 encryptedMessage
    else encryptedMessage in
  match BigIntOfHex (sliceStr 0 64 hexData),
        BigIntOfHex (sliceStr 64 128 hexData),
        BigIntOfHex (sliceStr 128 192 hexData),
        BigIntOfHex (sliceStr 192 256 hexData) with
  | Some length, Some nonce, Some authKey0, Some authKey1 =>
      let ciphertextHex := sliceFrom 256 hexData in
      match ciphertextFrom (String.length ciphertextHex) 0 ciphertextHex with
      | Some ciphertext =>
          let decryptedFieldElements :=
            processPoseidonDecryption C privateKey [authKey0; authKey1]
                                      ciphertext (Some nonce)
                                      (Z.to_nat length) in
          Ok (int2str decryptedFieldElements)
      | None => Err SyntaxError
      end
  | _, _, _, _ => Err SyntaxError
  end.

End MetadataMore.

(** ** Reading the chain ([src/EERC.ts]) *)

Module EngineReads.
Import Platform MetadataMore.

(** An [AuditorChanged] log; the block number is [null] while the log is
    pending. *)
Record AuditorLog := {
  oldAuditor : string;
  newAuditor : string;
  blockNumber : option Z
}.

(** The [metadata] of a [PrivateMessage] log. *)
Record MessageLog := {
  encryptedMsg : string;
  messageType : string;
  messageFrom : string;
  messageTo : string
}.

(** What [decryptMessage] uses of a transaction. *)
Record Transaction := { tx_blockNumber : option Z }.

(** The reads of the public client: the current block, the [AuditorChanged]
    and the [PrivateMessage] logs of a contract between two blocks, and a
    transaction by its hash. *)
Record Chain := {
  getBlockNumber : answer Z;
  getAuditorLogs : string -> Z -> Z -> answer (list AuditorLog);
  getTransaction : string -> answer Transaction;
  getMessageLogs : string -> option Z -> option Z -> answer (list MessageLog)
}.

(** [a.toLowerCase() === this.wallet.account?.address.toLowerCase()]. *)
Definition sameAddress (a : string) (user : option string) : bool :=
  match user with
  | Some u => String.eqb (toLowerCase a) (toLowerCase u)
  | None => false
  end.

Definition notNull (currentStart : option Z) : bool :=
  match currentStart with Some _ => true | None => false end.

(** The loop [for (const log of filteredLogs)] of [hasBeenAuditor] and the
    two returns after it. *)
Fixpoint auditorLoop (user : option string) (filteredLogs : list AuditorLog)
    (currentStart : option Z) : bool :=
  match filteredLogs with
  | [] => if notNull currentStart then true else false
  | log :: rest =>
      if sameAddress (newAuditor log) user
      then auditorLoop user rest (blockNumber log)
      else if sameAddress (oldAuditor log) user && notNull currentStart
           then true
           else auditorLoop user rest currentStart
  end.

(** The first block of the window that ends at [currentBlock]. *)
Definition fromBlock (currentBlock : Z) : Z :=
  let BOUND := 1000 in
  if currentBlock >? BOUND then currentBlock - BOUND else 0.

(** [hasBeenAuditor()]. *)
Definition hasBeenAuditor (s : EERC) (chain : Chain) : result bool :=
  match getBlockNumber chain with
  | Reject reason => Err (Rejected reason)
  | Answer currentBlock =>
      match getAuditorLogs chain (contractAddress s) (fromBlock currentBlock)
                           currentBlock with
      | Reject reason => Err (Rejected reason)
      | Answer logs =>
          let user := walletAddress s in
          let filteredLogs :=
            filter (fun log => sameAddress (oldAuditor log) user
                               || sameAddress (newAuditor log) user) logs in
          Ok (auditorLoop user filteredLogs None)
      end
  end.

(** The errors of [decryptMessage]: its own two, and what the client or
    [decryptMetadata] throws. *)
Inductive ReadError :=
| NoPrivateMessage      (* "No private message found for this transaction" *)
| NoEncryptedMessage    (* "No encrypted message found in the transaction logs" *)
| Thrown (e : Error).

Record DecryptedMetadata := {
  decryptedMessage : ustring;
  dm_messageType : string;
  dm_messageFrom : string;
  dm_messageTo : string
}.

(** [decryptMessage(transactionHash)]. *)
Definition decryptMessage (C : Crypto) (s : EERC) (chain : Chain)
    (transactionHash : string) : ReadError + DecryptedMetadata :=
  match getTransaction chain transactionHash with
  | Reject reason => inl (Thrown (Rejected reason))
  | Answer tx =>
      match getMessageLogs chain (contractAddress s) (tx_blockNumber tx)
                           (tx_blockNumber tx) with
      | Reject reason => inl (Thrown (Rejected reason))
      | Answer [] => inl NoPrivateMessage
      | Answer (log :: _) =>
          if negb (truthyStr (encryptedMsg log)) then inl NoEncryptedMessage
          else
            let privateKey := formatKeyForCurve C (decryptionKey s) in
            match decryptMetadata C privateKey (encryptedMsg log) with
            | Err e => inl (Thrown e)
            | Ok decrypted =>
                inr {| decryptedMessage := decrypted;
                       dm_messageType := messageType log;
                       dm_messageFrom := messageFrom log;
                       dm_messageTo := messageTo log |}
            end
      end
  end.

End EngineReads.

(** ** The hooks ([src/hooks]) *)

Module Hooks.

(** What a hook callback throws before it reaches the engine. *)
Inductive HookError :=
| NotInitialized       (* "EERC not initialized" *)
| AuditorKeyNotSet     (* "Auditor public key is not set" *)
| HookInvalidAmount    (* "Invalid amount" *)
| TokenAddressNotSet   (* "Token address is not set" *)
| DecimalsNotSet.      (* "Decimals not set" *)

(** [balanceState], without its display string. *)
Record BalanceState := { decrypted : Z; encrypted : list Z }.

(** What the callbacks of [useEncryptedBalance] close over; [eerc] tells
    whether the instance is defined. *)
Record HookState := {
  eerc : bool;
  balanceState : BalanceState;
  auditorPublicKey : list Z;
  tokenAddress : option string;
  decimals : option Z
}.

(** [!auditorPublicKey.length || auditorPublicKey.some((key) => key === 0n)]. *)
Definition auditorKeyMissing (auditorPublicKey : list Z) : bool :=
  Nat.eqb (List.length auditorPublicKey) 0
  || existsb (fun key => key =? 0) auditorPublicKey.

(** [!tokenAddress]. *)
Definition tokenAddressMissing (tokenAddress : option string) : bool :=
  match tokenAddress with
  | Some a => negb (truthyStr a)
  | None => true
  end.

(** [!decimals], on a bigint that may be undefined. *)
Definition decimalsMissing (decimals : option Z) : bool :=
  match decimals with
  | Some d => d =? 0
  | None => true
  end.

Section WithEngine.
Context (C : Crypto) (H : Host).

(** [privateMint(recipient, amount, message?)] of [useEncryptedBalance]:
    an error thrown at once, or the engine's promise. *)
Definition privateMint (st : HookState) (recipient : string) (amount : Z)
    (message : option Platform.ustring) : HookError + M string :=
  if negb (eerc st) then inl NotInitialized
  else if auditorKeyMissing (auditorPublicKey st) then inl AuditorKeyNotSet
  else inr (Engine.privateMint C H recipient amount (auditorPublicKey st)
                               message).

(** [privateBurn(amount, message?)]. *)
Definition privateBurn (st : HookState) (amount : Z)
    (message : option Platform.ustring) : HookError + M string :=
  if negb (eerc st) || Nat.eqb (List.length (encrypted (balanceState st))) 0
  then inl NotInitialized
  else if auditorKeyMissing (auditorPublicKey st) then inl AuditorKeyNotSet
  else if (decrypted (balanceState st) <? amount) || (amount <=? 0)
  then inl HookInvalidAmount
  else inr (Engine.privateBurn C H amount (encrypted (balanceState st))
                               (decrypted (balanceState st))
                               (auditorPublicKey st) message).

(** [privateTransfer(to, amount, message?)]. *)
Definition privateTransfer (st : HookState) (to : string) (amount : Z)
    (message : option Platform.ustring)
  : HookError + M (string * list Z * list Z) :=
  if negb (eerc st) || Nat.eqb (List.length (encrypted (balanceState st))) 0
  then inl NotInitialized
  else if auditorKeyMissing (auditorPublicKey st) then inl AuditorKeyNotSet
  else if (decrypted (balanceState st) <? amount) || (amount <=? 0)
  then inl HookInvalidAmount
  else inr (Engine.transfer C H to amount (encrypted (balanceState st))
                            (decrypted (balanceState st))
                            (auditorPublicKey st) (tokenAddress st) message).

(** [withdraw(amount, message?)]. *)
Definition withdraw (st : HookState) (amount : Z)
    (message : option Platform.ustring) : HookError + M string :=
  if negb (eerc st) then inl NotInitialized
  else
    match tokenAddress st with
    | Some a =>
        if negb (truthyStr a) then inl TokenAddressNotSet
        else if auditorKeyMissing (auditorPublicKey st)
        then inl AuditorKeyNotSet
        else inr (Engine.withdraw C H amount (encrypted (balanceState st))
                                  (decrypted (balanceState st))
                                  (auditorPublicKey st) a message)
    | None => inl TokenAddressNotSet
    end.

End WithEngine.

(** [isRegistered] of [useEERC]: [!(data[0] === 0n && data[1] === 0n)]. *)
Definition isRegistered (data : list Z) : bool :=
  negb (isZeroAt data 0 && isZeroAt data 1).

(** The answer of [isAddressRegistered] of [useEERC] on the key that was
    fetched: [!(data[0] === 0n || data[1] === 0n)]. *)
Definition isAddressRegistered (data : list Z) : bool :=
  negb (isZeroAt data 0 || isZeroAt data 1).

(** [isAuditorKeySet] of [useEERC]. *)
Definition isAuditorKeySet (auditorPublicKey : list Z) : bool :=
  (0 <? List.length auditorPublicKey)%nat
  && negb (isZeroAt auditorPublicKey 0)
  && negb (isZeroAt auditorPublicKey 1).

End Hooks.

(** ** Deposits ([src/EERC.ts]) *)

Module EngineDeposit.
Import EngineMore.

(** What [deposit] throws: its own two errors, and the errors of the
    engine. *)
Inductive DepositError :=
| MissingWallet           (* "Missing wallet!" *)
| InsufficientApproval    (* "Insufficient approval amount!" *)
| Engine (e : Error).

Inductive DepositAbi :=
| DEPOSIT_WITH_MESSAGE_ABI
| Shared (abi : Abi).

Record DepositCall := {
  dep_abi : DepositAbi;
  dep_address : string;
  dep_functionName : string;
  dep_args : list Arg;
  dep_account : option string
}.

(** The calls of a deposit: those the other operations make as well, the two
    reads of the ERC-20 token, and the simulation and the write of the
    deposit. *)
Inductive DepositEvent :=
| Core (ev : Event)
| Allowance (token owner spender : string)
| Decimals (token : string)
| SimulateDeposit (call : DepositCall)
| WriteDeposit (request : DepositCall).

(** The ERC-20 reads and the client and wallet calls of a deposit; like the
    oracles of [Host], each sees the history so far. *)
Record DepositHost := {
  allowance : list DepositEvent -> string -> string -> string -> answer Z;
  erc20Decimals : list DepositEvent -> string -> answer Z;
  simulateDeposit : list DepositEvent -> DepositCall -> answer DepositCall;
  writeDeposit : list DepositEvent -> DepositCall -> answer string
}.

Record DepositWorld := { dself : EERC; dtrace : list DepositEvent }.

(** The calls of the history that [Host] knows. *)
Definition coreEvents (t : list DepositEvent) : list Event :=
  flat_map (fun ev => match ev with Core e => [e] | _ => [] end) t.

Definition D (A : Type) : Type :=
  DepositWorld -> DepositWorld * (DepositError + A).

Definition dret {A} (a : A) : D A := fun w => (w, inr a).
Definition dthrow {A} (e : DepositError) : D A := fun w => (w, inl e).
Definition dbind {A B} (m : D A) (k : A -> D B) : D B :=
  fun w =>
    match m w with
    | (w', inr a) => k a w'
    | (w', inl e) => (w', inl e)
    end.
Definition dthis : D EERC := fun w => (w, inr (dself w)).

(** An awaited call to the ERC-20 token, the client or the wallet. *)
Definition dask {A} (ev : DepositEvent)
    (oracle : list DepositEvent -> answer A) : D A :=
  fun w =>
    ({| dself := dself w; dtrace := dtrace w ++ [ev] |},
     match oracle (dtrace w) with
     | Answer a => inr a
     | Reject reason => inl (Engine (Rejected reason))
     end).

(** A computation of the engine, run inside a deposit: it sees the calls
    that [Host] knows, and the calls it makes are added to the history. *)
Definition liftM {A} (m : M A) : D A :=
  fun w =>
    let known := coreEvents (dtrace w) in
    let '(w', r) := m {| self := dself w; trace := known |} in
    ({| dself := self w';
        dtrace := dtrace w ++ map Core (skipn (List.length known) (trace w')) |},
     match r with
     | Ok a => inr a
     | Err e => inl (Engine e)
     end).

Section WithHost.
Context (C : Crypto) (H : Host) (X : DepositHost).

(** [fetchUserApprove(userAddress, tokenAddress)]. *)
Definition fetchUserApprove (userAddress tokenAddress : string) : D Z :=
  dbind dthis (fun s =>
  dask (Allowance tokenAddress userAddress (contractAddress s))
       (fun t => allowance X t tokenAddress userAddress (contractAddress s))).

(** [deposit(amount, tokenAddress, eERCDecimals, message?)]. *)
Definition deposit (amount : Z) (tokenAddress : string) (eERCDecimals : Z)
    (message : option Platform.ustring) : D string :=
  dbind dthis (fun s =>
  if negb (isConverter s) then dthrow (Engine NotAllowedForStandAlone)
  else
    match Engine.accountAddress s with
    | None => dthrow MissingWallet
    | Some address =>
        dbind (fetchUserApprove address tokenAddress) (fun approveAmount =>
        if approveAmount <? amount then dthrow InsufficientApproval
        else
          dbind (liftM (Engine.encryptedMessageFor H (publicKey s) message))
                (fun encryptedMessage =>
          dbind (dask (Decimals tokenAddress)
                      (fun t => erc20Decimals X t tokenAddress))
                (fun decimals =>
          let parsedAmount :=
            convertTokenDecimals amount decimals eERCDecimals in
          dbind (liftM (ask (PoseidonEncryption [parsedAmount] (publicKey s))
                            (fun t => processPoseidonEncryption H t
                                        [parsedAmount] (publicKey s))))
                (fun pct =>
          let call :=
            {| dep_abi := if Engine.hasMessage message
                          then DEPOSIT_WITH_MESSAGE_ABI
                          else Shared ENCRYPTED_ERC_ABI;
               dep_address := contractAddress s;
               dep_functionName := "deposit";
               dep_args := if Engine.hasMessage message
                           then [ANum amount; AAddress tokenAddress;
                                 AArr (Engine.pctFields pct);
                                 ABytes encryptedMessage]
                           else [ANum amount; AAddress tokenAddress;
                                 AArr (Engine.pctFields pct)];
               dep_account := walletAddress s |} in
          dbind (dask (SimulateDeposit call)
                      (fun t => simulateDeposit X t call))
                (fun request =>
          dask (WriteDeposit request)
               (fun t => writeDeposit X t request))))))
    end).

End WithHost.

(** The history [after] is [before] followed by a deposit that went through
    to the transaction [hash]: the allowance that was read covers the
    amount; the balance PCT encrypts, for the instance's own key, the amount
    converted from the decimals that the token reported to the decimals of
    the encrypted token; the call that was simulated is [deposit] on the
    contract, from the instance's account, with the amount as it was given,
    the token and this PCT; the request that was written is the one the
    simulation returned. *)
Definition deposited (H : Host) (X : DepositHost) (s : EERC) (amount : Z)
    (tokenAddress : string) (eERCDecimals : Z)
    (before after : list DepositEvent) (hash : string) : Prop :=
  exists address approved messageEvents decimals pct call request,
    Engine.accountAddress s = Some address
    /\ after
       = before
         ++ Allowance tokenAddress address (contractAddress s)
            :: map Core messageEvents
         ++ [Decimals tokenAddress;
             Core (PoseidonEncryption
                     [convertTokenDecimals amount decimals eERCDecimals]
                     (publicKey s));
             SimulateDeposit call; WriteDeposit request]
    /\ allowance X before tokenAddress address (contractAddress s)
       = Answer approved
    /\ amount <= approved
    /\ (forall ev, In ev messageEvents ->
          exists inputs, ev = PoseidonEncryption inputs (publicKey s))
    /\ (exists t, erc20Decimals X t tokenAddress = Answer decimals)
    /\ (exists t,
          processPoseidonEncryption H t
            [convertTokenDecimals amount decimals eERCDecimals] (publicKey s)
          = Answer pct)
    /\ dep_functionName call = "deposit"%string
    /\ dep_address call = contractAddress s
    /\ dep_account call = walletAddress s
    /\ (exists message,
          dep_args call
          = [ANum amount; AAddress tokenAddress; AArr (Engine.pctFields pct)]
            ++ message)
    /\ (exists t, simulateDeposit X t call = Answer request)
    /\ (exists t, writeDeposit X t request = Answer hash).

(** A host that answers every call of a deposit, with an allowance of at
    least [amount]. *)
Definition answersDeposit (H : Host) (X : DepositHost) (amount : Z) : Prop :=
  (forall t token owner spender,
     exists approved,
       allowance X t token owner spender = Answer approved
       /\ amount <= approved)
  /\ (forall t token, exists decimals, erc20Decimals X t token = Answer decimals)
  /\ (forall t inputs pk,
        exists out, processPoseidonEncryption H t inputs pk = Answer out)
  /\ (forall t call, exists request, simulateDeposit X t call = Answer request)
  /\ (forall t request, exists hash, writeDeposit X t request = Answer hash).

End EngineDeposit.

(** ** The message on a call *)

Module EngineMessages.

(** What a simulated call shows of the optional message.  With a message
    that is not empty, the ABI is the one with a message and the last
    argument is the message as [encryptMetadata] laid it out for [key];
    otherwise the ABI is the contract's and no argument holds bytes. *)
Definition carriesMessage (H : Host) (key : list Z)
    (message : option Platform.ustring) (abi : Abi) (call : ContractCall)
  : Prop :=
  if Engine.hasMessage message
  then call_abi call = abi
       /\ exists words w0,
            snd (Engine.encryptedMessageFor H key message w0) = Ok words
            /\ last (call_args call) (ANum 0) = ABytes words
  else call_abi call = ENCRYPTED_ERC_ABI
       /\ forall words, ~ In (ABytes words) (call_args call).

(** A host that answers every call of a mint, with PCT ciphertexts of four
    fields. *)
Definition answersMint (H : Host) : Prop :=
  (forall t registrar user,
     exists pk, getUserPublicKey H t registrar user = Answer pk)
  /\ (forall t pk m, exists out, encryptMessage H t pk m = Answer out)
  /\ (forall t inputs pk,
        exists out,
          processPoseidonEncryption H t inputs pk = Answer out
          /\ List.length (cipher out) = 4%nat)
  /\ (forall t, exists chainId, getChainId H t = Answer chainId)
  /\ (forall t op input wasm zkey,
        exists proof, fullProve H t op input wasm zkey = Answer proof)
  /\ (forall t call, exists request, simulateContract H t call = Answer request)
  /\ (forall t request, exists hash, writeContract H t request = Answer hash).

End EngineMessages.

(** ** What was sent with a transaction *)

Module EngineSent.

(** The history [after] is [before] followed by an operation that went
    through to the transaction [hash]: during the operation the host was
    asked to encrypt [newBalance] alone for the instance's own key; the call
    that was then simulated is the contract function [functionName] with, as
    argument [index], the seven-field form of the answer; the request that
    was written is the one the simulation returned, and [hash] is the
    wallet's answer to it. *)
Definition sentBalancePCT (H : Host) (s : EERC) (functionName : string)
    (index : nat) (newBalance : Z) (before after : list Event)
    (hash : string) : Prop :=
  exists t o t2 call request,
    (exists pre, t = before ++ pre)
    /\ processPoseidonEncryption H t [newBalance] (publicKey s) = Answer o
    /\ (exists post,
          t2 = t ++ PoseidonEncryption [newBalance] (publicKey s) :: post)
    /\ call_functionName call = functionName
    /\ call_address call = contractAddress s
    /\ nth_error (call_args call) index
       = Some (AArr (cipher o ++ authKey o ++ [nonce o]))
    /\ simulateContract H t2 call = Answer request
    /\ writeContract H (t2 ++ [SimulateContract call]) request = Answer hash
    /\ after = t2 ++ [SimulateContract call; WriteContract request].

End EngineSent.

(** ** More scenarios *)

Module MoreScenario.
Import Scenario EngineMore MetadataMore EngineReads Hooks EngineDeposit.

(** Bob's instance, built by the constructor without a key. *)
Definition bobs : EERC :=
  construct crypto (Some bob) (contractAddress standalone)
            (registrarAddress standalone) false urls None.

(** Alice's instance, built by the constructor from her key. *)
Definition alices : EERC :=
  construct crypto (Some alice) (contractAddress standalone)
            (registrarAddress standalone) false urls (Some "abc"%string).

(** Asset paths with no proving key for transfers. *)
Definition urlsWithoutTransferKey : CircuitURLs :=
  {| url_register := url_register urls;
     url_transfer := {| wasm := "circuit.wasm"; zkey := "" |};
     url_mint := url_mint urls;
     url_withdraw := url_withdraw urls;
     url_burn := url_burn urls |}.

Definition withoutTransferKey : EERC :=
  construct crypto (Some alice) (contractAddress standalone)
            (registrarAddress standalone) false urlsWithoutTransferKey
            (Some "abc"%string).

(** The chain at block 5000: alice was appointed auditor in block 4500, and
    the contract logged one private message, from bob to alice, in block
    4321. *)
Definition auditorHistory : list AuditorLog :=
  [ {| oldAuditor := "0x0000000000000000000000000000000000000000";
       newAuditor := "0x00000000000000000000000000000000000a11ce";
       blockNumber := Some 4500 |} ].

Definition hiAlice : MessageLog :=
  {| encryptedMsg := concatHex [1; 101; 1; 0; 26732; 3; 3; 3];
     messageType := "transfer";
     messageFrom := bob;
     messageTo := alice |}.

Definition chain : Chain := {|
  getBlockNumber := Answer 5000;
  getAuditorLogs := fun _ fromBlock toBlock =>
    Answer (if (fromBlock <=? 4500) && (4500 <=? toBlock)
            then auditorHistory else []);
  getTransaction := fun _ => Answer {| tx_blockNumber := Some 4321 |};
  getMessageLogs := fun _ _ _ => Answer [hiAlice]
|}.

(** The state of [useEncryptedBalance] for alice: a balance of 100, an
    auditor key without zero coordinate. *)
Definition hookState : HookState := {|
  eerc := true;
  balanceState := {| decrypted := 100; encrypted := encryptedBalance |};
  auditorPublicKey := [7; 5];
  tokenAddress := Some token;
  decimals := Some 2
|}.

(** The same state before anything was deposited. *)
Definition emptyHookState : HookState := {|
  eerc := true;
  balanceState := {| decrypted := 0; encrypted := encryptedBalance |};
  auditorPublicKey := [7; 5];
  tokenAddress := Some token;
  decimals := Some 2
|}.

(** A token of 18 decimals that allows the contract 1000 units. *)
Definition depositHost : DepositHost := {|
  allowance := fun _ _ _ _ => Answer 1000;
  erc20Decimals := fun _ _ => Answer 18;
  simulateDeposit := fun _ call => Answer call;
  writeDeposit := fun _ _ => Answer "0xfeed"%string
|}.

Definition depositStart (s : EERC) : DepositWorld :=
  {| dself := s; dtrace := [] |}.

(** A deposit of 500 units of the token into an encrypted token of 2
    decimals. *)
Definition deposit500 : D string :=
  deposit host depositHost 500 token 2 None.

(** A host on which bob replaces his key after the first read of it. *)
Definition hostWithNewKey : Host := {|
  isAddress := isAddress host;
  signMessage := signMessage host;
  getUserPublicKey := fun t _ _ =>
    Answer (if existsb (fun ev => match ev with
                                  | GetUserPublicKey _ _ => true
                                  | _ => false
                                  end) t
            then [12; 5] else [11; 5]);
  tokenIds := tokenIds host;
  getChainId := getChainId host;
  encryptMessage := encryptMessage host;
  processPoseidonEncryption := processPoseidonEncryption host;
  fullProve := fullProve host;
  simulateContract := simulateContract host;
  writeContract := writeContract host
|}.

(** A transfer of 30 to bob with the message "hi". *)
Definition transfer30hi : M (string * list Z * list Z) :=
  Engine.transfer crypto hostWithNewKey bob 30 encryptedBalance 100 [7; 5]
                  None (Some [104; 105]).

(** Carol's address, without upper-case letters. *)
Definition carol : string := "0x0000000000000000000000000000000000000c0c".

Definition isLowerHex (c : ascii) : bool :=
  let n := nat_of_ascii c in
  ((48 <=? n) && (n <=? 57) || (97 <=? n) && (n <=? 102))%nat.

(** viem's [isAddress] on the addresses without upper-case letters: "0x" and
    forty hexadecimal digits.  Addresses with upper-case letters, which viem
    checks against their checksum, are refused. *)
Definition isLowerAddress (a : string) : bool :=
  String.prefix "0x" a
  && Nat.eqb (String.length a) 42
  && forallb isLowerHex (list_ascii_of_string (String.substring 2 40 a)).

(** The host of the scenarios with this address check; carol is registered
    with key [(11, 5)], nobody else is. *)
Definition checkedHost : Host := {|
  isAddress := isLowerAddress;
  signMessage := signMessage host;
  getUserPublicKey := fun _ _ user =>
    Answer (if String.eqb user carol then [11; 5] else [0; 0]);
  tokenIds := tokenIds host;
  getChainId := getChainId host;
  encryptMessage := encryptMessage host;
  processPoseidonEncryption := processPoseidonEncryption host;
  fullProve := fullProve host;
  simulateContract := simulateContract host;
  writeContract := writeContract host
|}.


(** Erin's address and the address of a token, without upper-case letters. *)
Definition erin : string := "0x0000000000000000000000000000000000000e41".
Definition asset : string := "0x00000000000000000000000000000000000000aa".

(** Erin's instance in a stand-alone deployment, key already derived. *)
Definition erins : EERC := {|
  walletAddress := Some erin;
  contractAddress := "0x00000000000000000000000000000000000000c0";
  registrarAddress := "0x00000000000000000000000000000000000000d0";
  isConverter := false;
  circuitURLs := urls;
  decryptionKey := "abc";
  publicKey := [3; 0]
|}.

(** The same instance in a converter deployment. *)
Definition erinsConverter : EERC := {|
  walletAddress := Some erin;
  contractAddress := "0x00000000000000000000000000000000000000c0";
  registrarAddress := "0x00000000000000000000000000000000000000d0";
  isConverter := true;
  circuitURLs := urls;
  decryptionKey := "abc";
  publicKey := [3; 0]
|}.

(** Erin's instance before any key was derived. *)
Definition erinsFresh : EERC := {|
  walletAddress := Some erin;
  contractAddress := "0x00000000000000000000000000000000000000c0";
  registrarAddress := "0x00000000000000000000000000000000000000d0";
  isConverter := false;
  circuitURLs := urls;
  decryptionKey := "";
  publicKey := []
|}.

(** The checked host with a prover that always fails. *)
Definition checkedHostWithoutProver : Host := {|
  isAddress := isAddress checkedHost;
  signMessage := signMessage checkedHost;
  getUserPublicKey := getUserPublicKey checkedHost;
  tokenIds := tokenIds checkedHost;
  getChainId := getChainId checkedHost;
  encryptMessage := encryptMessage checkedHost;
  processPoseidonEncryption := processPoseidonEncryption checkedHost;
  fullProve := fun _ _ _ _ _ => Reject "prover failed";
  simulateContract := simulateContract checkedHost;
  writeContract := writeContract checkedHost
|}.


(** A mint of 100 to carol. *)
Definition mintToCarol : M string :=
  Engine.privateMint crypto checkedHost carol 100 [7; 5] None.
Definition mintToCarolInput : Witness :=
  Eval vm_compute in hd [] (provedInputs (fst (mintToCarol (start erins)))).

(** A transfer of 30 to carol from a balance of 100. *)
Definition transferToCarol : M (string * list Z * list Z) :=
  Engine.transfer crypto checkedHost carol 30 encryptedBalance 100 [7; 5]
                  None None.
Definition transferToCarolCall : ContractCall :=
  Eval vm_compute in
    hd noCall (simulatedCalls (fst (transferToCarol (start erins)))).

(** A withdrawal of 40 from a balance of 70. *)
Definition withdrawAsset : M string :=
  Engine.withdraw crypto checkedHost 40 encryptedBalance 70 [7; 5] asset None.
Definition withdrawAssetCall : ContractCall :=
  Eval vm_compute in
    hd noCall (simulatedCalls (fst (withdrawAsset (start erinsConverter)))).

(** A burn of 40 from a balance of 70. *)
Definition burnOfErin : M string :=
  Engine.privateBurn crypto checkedHost 40 encryptedBalance 70 [7; 5] None.
Definition burnOfErinCall : ContractCall :=
  Eval vm_compute in
    hd noCall (simulatedCalls (fst (burnOfErin (start erins)))).


End MoreScenario.
(* ================================================================== *)
(** * Part II: properties *)
(* ================================================================== *)

(** ** Balance reconstruction *)

Section BalanceReconstruction.
Context (C : Crypto) (self : EERC).





End BalanceReconstruction.

(** Scenario 5 of §8: PCTs of 70, 10 and 20 against an EGCT of 100 give 100;
    with one more in the first cipher field of [balancePCT], the sentinel. *)
Example reconstruct_scenario5 :
  Engine.calculateTotalBalance Scenario.crypto Scenario.standalone
    Scenario.egct100 Scenario.amountPCTs30 (Some Scenario.balancePCT70)
  = Ok 100.
Proof. reflexivity. Qed.

Example reconstruct_scenario5_tampered :
  Engine.calculateTotalBalance Scenario.crypto Scenario.standalone
    Scenario.egct100 Scenario.amountPCTs30
    (Some (hd 0 Scenario.balancePCT70 + 1 :: tl Scenario.balancePCT70))
  = Ok (-1).
Proof. reflexivity. Qed.

(** An all-zero [balancePCT] is not decrypted. *)
Example reconstruct_zero_balancePCT :
  Engine.calculateTotalBalance Scenario.crypto Scenario.standalone
    Scenario.egct100 [] (Some [0; 0; 0; 0; 0; 0; 0])
  = Ok 0.
Proof. reflexivity. Qed.


(** ** Amounts *)

(** With a balance other than zero, [validateAmount] accepts exactly the
    amounts from 1 to the balance. *)
Lemma validateAmount_nonzero_balance (v bal : Z) :
  bal <> 0 ->
  (validateAmount_accepts v bal = true <-> 0 < v <= bal).
Proof.
  intros Hb. unfold validateAmount_accepts, Engine.validateAmount.
  destruct (Z.leb_spec v 0), (Z.eqb_spec bal 0), (Z.gtb_spec v bal);
    cbn [negb andb isOk]; split; intros; try discriminate; try lia;
    reflexivity.
Qed.

(** Scenario 4 of §8: from a balance of 70, 70 passes and 71 does not. *)
Example validateAmount_at_balance :
  Engine.validateAmount 70 (Some 70) = Ok tt
  /\ Engine.validateAmount 71 (Some 70) = Err InsufficientBalance
  /\ Engine.validateAmount 0 (Some 70) = Err InvalidAmount.
Proof. repeat split. Qed.

(** C3 fails on the code: with a balance of zero, the balance test of
    [validateAmount] is skipped -- [0n] is falsy -- so an amount of 1 is
    accepted, and [withdraw], [transfer] and [privateBurn] go through with
    it. *)
Theorem validateAmount_skips_zero_balance :
  Engine.validateAmount 1 (Some 0) = Ok tt
  /\ isOk (snd (Engine.withdraw Scenario.crypto Scenario.host 1
                  Scenario.encryptedBalance 0 Scenario.auditorKey
                  Scenario.token None (Scenario.start Scenario.converter)))
     = true
  /\ isOk (snd (Engine.transfer Scenario.crypto Scenario.host Scenario.bob 1
                  Scenario.encryptedBalance 0 Scenario.auditorKey None None
                  (Scenario.start Scenario.standalone)))
     = true
  /\ isOk (snd (Engine.privateBurn Scenario.crypto Scenario.host 1
                  Scenario.encryptedBalance 0 Scenario.auditorKey None
                  (Scenario.start Scenario.standalone)))
     = true.
Proof. repeat split. Qed.

(** ** The message codec *)

Module CodecFacts.
Import Platform Metadata CodecAux.

Ltac zdiv := Z.to_euclidean_division_equations; lia.

(** *** Some runs *)

Example str2int_helloAuditor :
  str2int helloAuditor = Some ([2328112736155783540539083484510140402132556162], 1).
Proof. reflexivity. Qed.

(** Forty bytes need two chunks of 250 bits. *)
Example str2int_two_chunks :
  option_map snd (str2int (repeat 0x1F642 10)) = Some 2
  /\ option_map (fun r => int2str (fst r)) (str2int (repeat 0x1F642 10))
     = Some (repeat 0x1F642 10).
Proof. split; reflexivity. Qed.

(** Leading and trailing U+0000 are lost as well. *)
Example int2str_str2int_outer_nul :
  option_map (fun r => int2str (fst r)) (str2int [0; 97; 0]) = Some [97].
Proof. reflexivity. Qed.

(** Bytes that are not UTF-8 decode to U+FFFD, one per maximal ill-formed
    part. *)
Example utf8Decode_ill_formed :
  utf8Decode [0xE0; 0x80; 0x41; 0xF4; 0x90; 0xC3]
  = [0xFFFD; 0xFFFD; 0x41; 0xFFFD; 0xFFFD; 0xFFFD].
Proof. reflexivity. Qed.

(** *** Hexadecimal *)

Lemma hexValue_hexDigit (d : Z) :
  0 <= d < 16 -> hexValue (hexDigit d) = Some d.
Proof.
  intros Hd.
  assert (Hcases : d = 0 \/ d = 1 \/ d = 2 \/ d = 3 \/ d = 4 \/ d = 5 \/ d = 6
                   \/ d = 7 \/ d = 8 \/ d = 9 \/ d = 10 \/ d = 11 \/ d = 12
                   \/ d = 13 \/ d = 14 \/ d = 15) by lia.
  repeat (destruct Hcases as [->|Hcases]; [reflexivity|]).
  now subst.
Qed.

Lemma parseHexFrom_bufToHex (bs : list Z) :
  Forall isByte bs ->
  forall acc, parseHexFrom acc (bufToHex bs) = Some (valueFrom acc bs).
Proof.
  induction 1 as [|b r Hb _ IH]; intros acc; [reflexivity|].
  unfold isByte in Hb. cbn [bufToHex parseHexFrom].
  rewrite !hexValue_hexDigit by zdiv.
  rewrite IH. unfold valueFrom. cbn [fold_left]. do 2 f_equal. zdiv.
Qed.

Lemma bufFromHex_bufToHex (bs : list Z) :
  Forall isByte bs -> bufFromHex (bufToHex bs) = bs.
Proof.
  induction 1 as [|b r Hb _ IH]; [reflexivity|].
  unfold isByte in Hb. cbn [bufToHex bufFromHex].
  rewrite !hexValue_hexDigit by zdiv.
  rewrite IH. f_equal. zdiv.
Qed.

Lemma length_bufToHex (bs : list Z) :
  String.length (bufToHex bs) = (2 * List.length bs)%nat.
Proof. induction bs as [|b r IH]; [reflexivity|]. cbn [bufToHex String.length List.length]. lia. Qed.

(** Fuel beyond the size of [n] changes nothing. *)
Lemma hexDigitsOnto_fuel (f1 : nat) :
  forall f2 n acc,
    n < 2 ^ Z.of_nat f1 -> n < 2 ^ Z.of_nat f2 ->
    hexDigitsOnto f1 n acc = hexDigitsOnto f2 n acc.
Proof.
  induction f1 as [|f1 IH]; intros f2 n acc H1 H2.
  - change (2 ^ Z.of_nat 0) with 1 in H1.
    destruct f2; cbn [hexDigitsOnto]; [reflexivity|].
    destruct (n <=? 0) eqn:Hn; [reflexivity|lia].
  - destruct f2 as [|f2].
    + change (2 ^ Z.of_nat 0) with 1 in H2.
      cbn [hexDigitsOnto]. destruct (n <=? 0) eqn:Hn; [reflexivity|lia].
    + cbn [hexDigitsOnto]. destruct (n <=? 0) eqn:Hn; [reflexivity|].
      rewrite Nat2Z.inj_succ, Z.pow_succ_r in H1, H2 by lia.
      apply IH; zdiv.
Qed.

Lemma hexDigitsOnto_S (f : nat) (n : Z) (acc : string) :
  hexDigitsOnto (S f) n acc
  = if n <=? 0 then acc
    else hexDigitsOnto f (n / 16) (String (hexDigit (n mod 16)) acc).
Proof. reflexivity. Qed.

Lemma hexOf_enough (n : Z) (f : nat) (acc : string) :
  n < 2 ^ Z.of_nat f -> hexOf n acc = hexDigitsOnto f n acc.
Proof.
  intros Hf. unfold hexOf. apply hexDigitsOnto_fuel; [|exact Hf].
  destruct (Z.le_gt_cases n 0) as [Hn|Hn].
  - assert (0 < 2 ^ Z.of_nat (S (Z.to_nat (Z.log2 n)))) by (apply Z.pow_pos_nonneg; lia).
    lia.
  - rewrite Nat2Z.inj_succ, Z2Nat.id by apply Z.log2_nonneg.
    apply Z.log2_spec. exact Hn.
Qed.

Lemma hexOf_digit (n d : Z) (acc : string) :
  0 <= n -> 0 <= d < 16 -> 0 < n * 16 + d ->
  hexOf (n * 16 + d) acc = hexOf n (String (hexDigit d) acc).
Proof.
  intros Hn Hd Hpos.
  set (m := n * 16 + d) in *.
  assert (Hm : m < 2 ^ Z.of_nat (S (S (Z.to_nat (Z.log2 m))))).
  { rewrite Nat2Z.inj_succ, Z.pow_succ_r by lia.
    rewrite Nat2Z.inj_succ, Z2Nat.id by apply Z.log2_nonneg.
    pose proof (Z.log2_spec m Hpos). lia. }
  rewrite (hexOf_enough m _ acc Hm), hexDigitsOnto_S.
  destruct (m <=? 0) eqn:Hle; [lia|].
  replace (m / 16) with n by (subst m; zdiv).
  replace (m mod 16) with d by (subst m; zdiv).
  symmetry. apply hexOf_enough.
  rewrite Nat2Z.inj_succ, Z.pow_succ_r in Hm by lia. subst m. lia.
Qed.

Lemma hexOf_zero (acc : string) : hexOf 0 acc = acc.
Proof. reflexivity. Qed.

Lemma hexOf_byte (n b : Z) (acc : string) :
  0 < n -> isByte b ->
  hexOf (n * 256 + b) acc
  = hexOf n (String (hexDigit (b / 16)) (String (hexDigit (b mod 16)) acc)).
Proof.
  intros Hn Hb. unfold isByte in Hb.
  replace (n * 256 + b) with ((n * 16 + b / 16) * 16 + b mod 16) by zdiv.
  rewrite hexOf_digit by zdiv.
  apply hexOf_digit; zdiv.
Qed.

Lemma valueFrom_pos (bs : list Z) :
  Forall isByte bs -> forall n, 0 < n -> 0 < valueFrom n bs.
Proof.
  induction 1 as [|b r Hb _ IH]; intros n Hn; [exact Hn|].
  unfold isByte in Hb. unfold valueFrom. cbn [fold_left]. apply IH. lia.
Qed.

Lemma hexOf_valueFrom (bs : list Z) :
  Forall isByte bs ->
  forall n acc, 0 < n ->
    hexOf (valueFrom n bs) acc = hexOf n (bufToHex bs ++ acc).
Proof.
  induction 1 as [|b r Hb _ IH]; intros n acc Hn; [reflexivity|].
  unfold valueFrom. cbn [fold_left]. fold (valueFrom (n * 256 + b) r).
  rewrite IH by (unfold isByte in Hb; lia).
  now rewrite hexOf_byte.
Qed.

Lemma append_empty (s : string) : (s ++ "")%string = s.
Proof. induction s as [|c r IH]; [reflexivity|]. cbn. now rewrite IH. Qed.

Lemma evenPad_even (c1 c2 : ascii) (bs : list Z) :
  evenPad (String c1 (String c2 (bufToHex bs))) = String c1 (String c2 (bufToHex bs)).
Proof.
  unfold evenPad. cbn [String.length]. rewrite length_bufToHex.
  replace (S (S (2 * List.length bs)))%nat with (0 + (S (List.length bs)) * 2)%nat by lia.
  now rewrite Nat.Div0.mod_add.
Qed.

Lemma evenPad_odd (c : ascii) (bs : list Z) :
  evenPad (String c (bufToHex bs)) = String "0"%char (String c (bufToHex bs)).
Proof.
  unfold evenPad. cbn [String.length]. rewrite length_bufToHex.
  replace (S (2 * List.length bs))%nat with (1 + (List.length bs) * 2)%nat by lia.
  now rewrite Nat.Div0.mod_add.
Qed.

(** The padded hexadecimal spelling of the integer of a byte sequence that
    starts with a non-zero byte is the hexadecimal dump of the sequence. *)
Lemma evenPad_hexOf_bytes (b : Z) (r : list Z) :
  isByte b -> b <> 0 -> Forall isByte r ->
  evenPad (hexOf (valueFrom 0 (b :: r)) "") = bufToHex (b :: r).
Proof.
  intros Hb Hb0 Hr. unfold isByte in Hb.
  unfold valueFrom. cbn [fold_left]. fold (valueFrom (0 * 256 + b) r).
  replace (0 * 256 + b) with b by lia.
  rewrite hexOf_valueFrom, append_empty by (trivial; lia).
  cbn [bufToHex].
  destruct (Z.eq_dec (b / 16) 0) as [Hhi|Hhi].
  - replace b with (0 * 16 + b) at 1 by lia.
    rewrite hexOf_digit, hexOf_zero by zdiv.
    rewrite evenPad_odd, Hhi.
    now replace (b mod 16) with b by zdiv.
  - replace b with ((0 * 16 + b / 16) * 16 + b mod 16) at 1 by zdiv.
    rewrite !hexOf_digit, hexOf_zero by zdiv.
    apply evenPad_even.
Qed.

Lemma valueFrom_dropLeadingZeros (bs : list Z) :
  valueFrom 0 (dropLeadingZeros bs) = valueFrom 0 bs.
Proof.
  induction bs as [|b r IH]; [reflexivity|].
  destruct b; try reflexivity. cbn [dropLeadingZeros]. exact IH.
Qed.

Lemma Forall_dropLeadingZeros (P : Z -> Prop) (bs : list Z) :
  Forall P bs -> Forall P (dropLeadingZeros bs).
Proof.
  induction 1 as [|b r Hb Hr IH]; [constructor|].
  destruct b; cbn [dropLeadingZeros]; auto.
Qed.

Lemma dropLeadingZeros_head (bs : list Z) :
  dropLeadingZeros bs = []
  \/ exists b r, dropLeadingZeros bs = b :: r /\ b <> 0.
Proof.
  induction bs as [|b r IH]; [now left|].
  destruct b; cbn [dropLeadingZeros]; [exact IH| |]; right; eexists _, _; split; eauto; lia.
Qed.

Lemma toString16_pos (n : Z) : 0 < n -> toString16 n = hexOf n "".
Proof.
  intros Hn. unfold toString16, hexOf.
  destruct (n =? 0) eqn:H0; [lia|]. destruct (n <? 0) eqn:Hneg; [lia|]. reflexivity.
Qed.

(** From the bytes to their integer and back through the hexadecimal
    spelling: the leading zero bytes are lost, nothing else. *)
Lemma bytes_of_integer (bs : list Z) :
  Forall isByte bs -> valueFrom 0 bs <> 0 ->
  bufFromHex (evenPad (toString16 (valueFrom 0 bs))) = dropLeadingZeros bs.
Proof.
  intros Hbs Hv.
  pose proof (Forall_dropLeadingZeros _ _ Hbs) as Hd.
  rewrite <- valueFrom_dropLeadingZeros in Hv |- *.
  destruct (dropLeadingZeros_head bs) as [Hnil|(b & r & Heq & Hb0)].
  - rewrite Hnil in Hv. now contradiction Hv.
  - rewrite Heq in *. inversion Hd as [|? ? Hb Hr]; subst.
    rewrite toString16_pos.
    + rewrite evenPad_hexOf_bytes by assumption.
      now apply bufFromHex_bufToHex.
    + unfold valueFrom. cbn [fold_left]. apply valueFrom_pos; [assumption|].
      unfold isByte in Hb. lia.
Qed.

Lemma valueFrom_zero (bs : list Z) :
  Forall isByte bs -> valueFrom 0 bs = 0 -> dropLeadingZeros bs = [].
Proof.
  intros Hbs Hv.
  pose proof (Forall_dropLeadingZeros _ _ Hbs) as Hd.
  rewrite <- valueFrom_dropLeadingZeros in Hv.
  destruct (dropLeadingZeros_head bs) as [Hnil|(b & r & Heq & Hb0)]; [assumption|].
  rewrite Heq in *. inversion Hd as [|? ? Hb Hr]; subst.
  unfold isByte in Hb.
  assert (0 < valueFrom (0 * 256 + b) r) by (apply valueFrom_pos; [assumption|lia]).
  unfold valueFrom in *. cbn [fold_left] in Hv. lia.
Qed.

(** *** Chunks of 250 bits *)

Lemma splitLoop_spec (fuel : nat) :
  forall remaining chunks,
    0 <= remaining < 2 ^ Z.of_nat fuel ->
    exists cs,
      splitLoop fuel (2 ^ 250) remaining chunks = Some (chunks ++ cs)
      /\ fold_left chunkStep (rev cs) 0 = remaining
      /\ (0 < remaining -> cs <> []).
Proof.
  induction fuel as [|fuel IH]; intros remaining chunks Hr.
  - change (2 ^ Z.of_nat 0) with 1 in Hr. assert (remaining = 0) as -> by lia.
    exists []. cbn. rewrite app_nil_r. repeat split. lia.
  - cbn [splitLoop]. destruct (remaining >? 0) eqn:Hpos.
    + rewrite Nat2Z.inj_succ, Z.pow_succ_r in Hr by lia.
      assert (H250 : 2 <= 2 ^ 250) by (change 2 with (2 ^ 1) at 1; apply Z.pow_le_mono_r; lia).
      rewrite Z.quot_div_nonneg, Z.rem_mod_nonneg by lia.
      destruct (IH (remaining / 2 ^ 250) (chunks ++ [remaining mod 2 ^ 250]))
        as (cs & Hrun & Hval & _).
      { split; [apply Z.div_pos; lia|].
        apply Z.le_lt_trans with (remaining / 2); [|zdiv].
        apply Z.div_le_compat_l; lia. }
      exists (remaining mod 2 ^ 250 :: cs). split; [|split].
      * rewrite Hrun, <- app_assoc. reflexivity.
      * cbn [rev]. rewrite fold_left_app. cbn [fold_left]. rewrite Hval.
        unfold chunkStep. pose proof (Z.div_mod remaining (2 ^ 250)). lia.
      * discriminate.
    + assert (remaining = 0) as -> by lia.
      exists []. cbn. rewrite app_nil_r. repeat split. lia.
Qed.

(** The loop of [splitIntoBigIntChunks] always ends within the fuel it is
    given. *)
Lemma splitIntoBigIntChunks_terminates (n : Z) :
  splitLoop (S (Z.to_nat (Z.log2 n))) (2 ^ 250) n [] <> None.
Proof.
  destruct (Z.le_gt_cases n 0) as [Hn|Hn].
  - cbn [splitLoop]. destruct (Z.gtb_spec n 0); [lia|discriminate].
  - destruct (splitLoop_spec (S (Z.to_nat (Z.log2 n))) n []) as (cs & Hrun & _).
    + split; [lia|]. rewrite Nat2Z.inj_succ, Z2Nat.id by apply Z.log2_nonneg.
      now apply Z.log2_spec.
    + rewrite Hrun. discriminate.
Qed.

Lemma combine_as_fold (chunks : list Z) :
  combineFromBigIntChunks chunks = fold_left chunkStep (rev chunks) 0.
Proof. reflexivity. Qed.

(** The loop of [splitIntoBigIntChunks] ends within its fuel, and combining
    the chunks gives the integer back. *)
Lemma combine_split (n : Z) :
  0 <= n ->
  combineFromBigIntChunks (splitIntoBigIntChunks n) = n
  /\ splitIntoBigIntChunks n <> [].
Proof.
  intros Hn. unfold splitIntoBigIntChunks.
  destruct (n =? 0) eqn:H0.
  - apply Z.eqb_eq in H0. subst. split; [reflexivity|discriminate].
  - assert (Hpos : 0 < n) by lia.
    destruct (splitLoop_spec (S (Z.to_nat (Z.log2 n))) n []) as (cs & Hrun & Hval & Hne).
    { split; [lia|]. rewrite Nat2Z.inj_succ, Z2Nat.id by apply Z.log2_nonneg.
      now apply Z.log2_spec. }
    rewrite Hrun. cbn [app]. split; [now rewrite combine_as_fold|auto].
Qed.

(** [int2str] in one equation: the early return on [[0]] is an instance of
    the return on a zero total. *)
Lemma int2str_unfold (input : list Z) :
  int2str input
  = if combineFromBigIntChunks input =? 0 then []
    else removeNul (utf8Decode
           (bufFromHex (evenPad (toString16 (combineFromBigIntChunks input))))).
Proof.
  unfold int2str, evenPad.
  destruct input as [|c [|c' r]]; try reflexivity; destruct c; reflexivity.
Qed.

(** *** UTF-8 *)

Ltac tests :=
  repeat match goal with
         | |- context [?a <=? ?b] => destruct (Z.leb_spec a b); try lia
         | |- context [?a <? ?b] => destruct (Z.ltb_spec a b); try lia
         | |- context [?a =? ?b] => destruct (Z.eqb_spec a b); try lia
         end;
  cbn [andb orb negb].

Lemma leadByte_1 (b : Z) :
  0 <= b <= 0x7F -> leadByte b = (decoderStart, [b]).
Proof. intros Hb. unfold leadByte. now tests. Qed.

Lemma leadByte_2 (b : Z) :
  0xC2 <= b <= 0xDF ->
  leadByte b = ({| codePoint := b mod 32; bytesNeeded := 1;
                   lowerBoundary := 0x80; upperBoundary := 0xBF |}, []).
Proof. intros Hb. unfold leadByte. now tests. Qed.

Lemma leadByte_3 (b : Z) :
  0xE0 <= b <= 0xEF ->
  leadByte b = ({| codePoint := b mod 16; bytesNeeded := 2;
                   lowerBoundary := if b =? 0xE0 then 0xA0 else 0x80;
                   upperBoundary := if b =? 0xED then 0x9F else 0xBF |}, []).
Proof.
  intros Hb. unfold leadByte.
  destruct (Z.leb_spec 0 b); [|lia]. destruct (Z.leb_spec b 0x7F); [lia|].
  destruct (Z.leb_spec 0xC2 b); [|lia]. destruct (Z.leb_spec b 0xDF); [lia|].
  destruct (Z.leb_spec 0xE0 b); [|lia]. destruct (Z.leb_spec b 0xEF); [|lia].
  reflexivity.
Qed.

Lemma leadByte_4 (b : Z) :
  0xF0 <= b <= 0xF4 ->
  leadByte b = ({| codePoint := b mod 8; bytesNeeded := 3;
                   lowerBoundary := if b =? 0xF0 then 0x90 else 0x80;
                   upperBoundary := if b =? 0xF4 then 0x8F else 0xBF |}, []).
Proof.
  intros Hb. unfold leadByte.
  destruct (Z.leb_spec 0 b); [|lia]. destruct (Z.leb_spec b 0x7F); [lia|].
  destruct (Z.leb_spec 0xC2 b); [|lia]. destruct (Z.leb_spec b 0xDF); [lia|].
  destruct (Z.leb_spec 0xE0 b); [|lia]. destruct (Z.leb_spec b 0xEF); [lia|].
  destruct (Z.leb_spec 0xF0 b); [|lia]. destruct (Z.leb_spec b 0xF4); [|lia].
  reflexivity.
Qed.

Lemma continuation_more (cp lo hi b : Z) (n : nat) :
  lo <= b <= hi ->
  decodeByte {| codePoint := cp; bytesNeeded := S (S n);
                lowerBoundary := lo; upperBoundary := hi |} b
  = ({| codePoint := cp * 64 + b mod 64; bytesNeeded := S n;
        lowerBoundary := 0x80; upperBoundary := 0xBF |}, []).
Proof.
  intros Hb. unfold decodeByte. cbn [bytesNeeded lowerBoundary upperBoundary codePoint].
  destruct (Z.leb_spec lo b); [|lia]. destruct (Z.leb_spec b hi); [|lia]. reflexivity.
Qed.

Lemma continuation_last (cp lo hi b : Z) :
  lo <= b <= hi ->
  decodeByte {| codePoint := cp; bytesNeeded := 1;
                lowerBoundary := lo; upperBoundary := hi |} b
  = (decoderStart, [cp * 64 + b mod 64]).
Proof.
  intros Hb. unfold decodeByte. cbn [bytesNeeded lowerBoundary upperBoundary codePoint].
  destruct (Z.leb_spec lo b); [|lia]. destruct (Z.leb_spec b hi); [|lia]. reflexivity.
Qed.

Lemma decodeFrom_cons (st : DecoderState) (b : Z) (r : list Z) :
  decodeFrom st (b :: r)
  = (snd (decodeByte st b) ++ decodeFrom (fst (decodeByte st b)) r)%list.
Proof. cbn [decodeFrom]. now destruct (decodeByte st b). Qed.

Lemma isScalar_range (c : Z) :
  isScalar c = true -> 0 <= c <= 0x10FFFF /\ (c < 0xD800 \/ 0xDFFF < c).
Proof.
  unfold isScalar, isSurrogate. intros Hc.
  apply andb_true_iff in Hc as [Hc Hs]. apply andb_true_iff in Hc as [H0 H1].
  apply negb_true_iff, andb_false_iff in Hs. lia.
Qed.

(** The decoder reads back the code point that the encoder wrote. *)
Lemma decode_encode_codePoint (c : Z) (r : list Z) :
  isScalar c = true ->
  decodeFrom decoderStart (utf8EncodeCodePoint c ++ r)
  = c :: decodeFrom decoderStart r.
Proof.
  intros Hc. apply isScalar_range in Hc as [Hr Hs].
  unfold utf8EncodeCodePoint, isSurrogate.
  destruct (Z.ltb_spec c 0x80).
  { cbn [app]. rewrite decodeFrom_cons, leadByte_1 by lia. reflexivity. }
  destruct (Z.ltb_spec c 0x800).
  { cbn [app]. rewrite decodeFrom_cons.
    change (decodeByte decoderStart ?b) with (leadByte b).
    rewrite leadByte_2 by zdiv. cbn [fst snd app].
    rewrite decodeFrom_cons, continuation_last by zdiv. cbn [fst snd app].
    f_equal. zdiv. }
  destruct (Z.leb_spec 0xD800 c); destruct (Z.leb_spec c 0xDFFF); cbn [andb]; try lia.
  all: destruct (Z.ltb_spec c 0x10000); try lia.
  all: cbn [app]; rewrite decodeFrom_cons;
       change (decodeByte decoderStart ?b) with (leadByte b).
  all: try (rewrite leadByte_3 by zdiv; cbn [fst snd app];
            rewrite decodeFrom_cons, continuation_more
              by (tests; zdiv);
            cbn [fst snd app];
            rewrite decodeFrom_cons, continuation_last by zdiv;
            cbn [fst snd app]; f_equal; zdiv).
  rewrite leadByte_4 by zdiv. cbn [fst snd app].
  rewrite decodeFrom_cons, continuation_more by (tests; zdiv).
  cbn [fst snd app].
  rewrite decodeFrom_cons, continuation_more by zdiv.
  cbn [fst snd app].
  rewrite decodeFrom_cons, continuation_last by zdiv.
  cbn [fst snd app]. f_equal. zdiv.
Qed.

Lemma utf8Decode_utf8Encode (s : ustring) :
  wellFormed s -> utf8Decode (utf8Encode s) = s.
Proof.
  unfold utf8Decode, utf8Encode.
  induction 1 as [|c r Hc _ IH]; [reflexivity|].
  cbn [flat_map]. rewrite decode_encode_codePoint by assumption.
  now rewrite IH.
Qed.

Lemma encodeCodePoint_bytes (c : Z) :
  isScalar c = true -> Forall isByte (utf8EncodeCodePoint c).
Proof.
  intros Hc. apply isScalar_range in Hc as [Hr Hs].
  unfold utf8EncodeCodePoint, isSurrogate, isByte.
  destruct (Z.ltb_spec c 0x80); [repeat constructor; lia|].
  destruct (Z.ltb_spec c 0x800); [repeat constructor; zdiv|].
  destruct (Z.leb_spec 0xD800 c); destruct (Z.leb_spec c 0xDFFF); cbn [andb]; try lia.
  all: destruct (Z.ltb_spec c 0x10000); try lia; repeat constructor; zdiv.
Qed.

Lemma utf8Encode_bytes (s : ustring) :
  wellFormed s -> Forall isByte (utf8Encode s).
Proof.
  unfold utf8Encode. induction 1 as [|c r Hc _ IH]; [constructor|].
  cbn [flat_map]. apply Forall_app. split; [now apply encodeCodePoint_bytes|exact IH].
Qed.

(** Only U+0000 is written with a leading zero byte. *)
Lemma encodeCodePoint_head (c : Z) :
  isScalar c = true -> c <> 0 ->
  exists b r, utf8EncodeCodePoint c = b :: r /\ b <> 0.
Proof.
  intros Hc H0. apply isScalar_range in Hc as [Hr Hs].
  unfold utf8EncodeCodePoint, isSurrogate.
  destruct (Z.ltb_spec c 0x80); [eexists _, _; split; eauto|].
  destruct (Z.ltb_spec c 0x800); [eexists _, _; split; eauto; zdiv|].
  destruct (Z.leb_spec 0xD800 c); destruct (Z.leb_spec c 0xDFFF); cbn [andb]; try lia.
  all: destruct (Z.ltb_spec c 0x10000); try lia; eexists _, _; split; eauto; zdiv.
Qed.

Lemma dropLeadingZeros_utf8Encode (s : ustring) :
  wellFormed s ->
  dropLeadingZeros (utf8Encode s) = utf8Encode (dropLeadingZeros s).
Proof.
  unfold utf8Encode. induction 1 as [|c r Hc _ IH]; [reflexivity|].
  destruct (Z.eq_dec c 0) as [->|Hne].
  - cbn [flat_map dropLeadingZeros]. exact IH.
  - destruct (encodeCodePoint_head c Hc Hne) as (b & t & Hb & Hb0).
    replace (dropLeadingZeros (c :: r)) with (c :: r) by (destruct c; auto; lia).
    cbn [flat_map]. rewrite Hb. cbn [app].
    destruct b; auto; lia.
Qed.

Lemma removeNul_dropLeadingZeros (s : ustring) :
  removeNul (dropLeadingZeros s) = removeNul s.
Proof.
  induction s as [|c r IH]; [reflexivity|].
  destruct c; try reflexivity. cbn [dropLeadingZeros]. rewrite IH. reflexivity.
Qed.

Lemma wellFormed_dropLeadingZeros (s : ustring) :
  wellFormed s -> wellFormed (dropLeadingZeros s).
Proof. apply Forall_dropLeadingZeros. Qed.

Lemma utf8Encode_nil (s : ustring) :
  wellFormed s -> utf8Encode s = [] -> s = [].
Proof.
  intros Hs He. destruct s as [|c r]; [reflexivity|]. exfalso.
  inversion Hs as [|? ? Hc _]; subst.
  unfold utf8Encode in He. cbn [flat_map] in He.
  apply app_eq_nil in He as [He _].
  apply isScalar_range in Hc as [Hr Hsur].
  unfold utf8EncodeCodePoint in He.
  destruct (c <? 0x80); [discriminate|]. destruct (c <? 0x800); [discriminate|].
  destruct (isSurrogate c); [discriminate|]. destruct (c <? 0x10000); discriminate.
Qed.

Lemma bufToHex_nil (bs : list Z) : bufToHex bs = EmptyString -> bs = [].
Proof. destruct bs; [reflexivity|discriminate]. Qed.

(** What [str2int] returns: the chunks of the integer that the UTF-8 bytes
    spell, and their number. *)
Lemma str2int_chunks (s : ustring) :
  wellFormed s ->
  str2int s
  = Some (splitIntoBigIntChunks (Spec.encodedInteger s),
          Z.of_nat (List.length (splitIntoBigIntChunks (Spec.encodedInteger s)))).
Proof.
  intros Hs. unfold str2int. destruct s as [|c r]; [reflexivity|].
  set (s := c :: r) in *.
  destruct (String.eqb (bufToHex (utf8Encode s)) "") eqn:Hempty.
  { apply String.eqb_eq, bufToHex_nil, utf8Encode_nil in Hempty; [discriminate|assumption]. }
  unfold BigIntOfHex.
  destruct (bufToHex (utf8Encode s)) eqn:Hhex; [discriminate|].
  rewrite <- Hhex, parseHexFrom_bufToHex by now apply utf8Encode_bytes.
  reflexivity.
Qed.

Lemma encodedInteger_nonneg (s : ustring) :
  wellFormed s -> 0 <= Spec.encodedInteger s.
Proof.
  intros Hs. apply utf8Encode_bytes in Hs. unfold Spec.encodedInteger.
  change (fold_left _ ?bs 0) with (valueFrom 0 bs).
  assert (Hgen : forall bs, Forall isByte bs -> forall n, 0 <= n -> 0 <= valueFrom n bs).
  { induction 1 as [|b t Hb _ IH]; intros n Hn; [exact Hn|].
    unfold valueFrom. cbn [fold_left]. apply IH. unfold isByte in Hb. lia. }
  now apply Hgen.
Qed.

(** Decoding what [str2int] encoded gives the string without its U+0000
    characters. *)
Lemma int2str_str2int (s : ustring) :
  wellFormed s ->
  int2str (splitIntoBigIntChunks (Spec.encodedInteger s)) = removeNul s.
Proof.
  intros Hs. rewrite int2str_unfold.
  destruct (combine_split _ (encodedInteger_nonneg s Hs)) as [-> _].
  pose proof (utf8Encode_bytes s Hs) as Hbytes.
  unfold Spec.encodedInteger.
  change (fold_left _ ?bs 0) with (valueFrom 0 bs).
  destruct (Z.eqb_spec (valueFrom 0 (utf8Encode s)) 0) as [Hz|Hnz].
  - apply valueFrom_zero in Hz; [|assumption].
    rewrite dropLeadingZeros_utf8Encode in Hz by assumption.
    apply utf8Encode_nil in Hz; [|now apply wellFormed_dropLeadingZeros].
    now rewrite <- removeNul_dropLeadingZeros, Hz.
  - rewrite bytes_of_integer, dropLeadingZeros_utf8Encode by assumption.
    rewrite utf8Decode_utf8Encode by now apply wellFormed_dropLeadingZeros.
    apply removeNul_dropLeadingZeros.
Qed.

Lemma removeNul_id (s : ustring) :
  ~ In 0 s -> removeNul s = s.
Proof.
  induction s as [|c r IH]; intros Hno; [reflexivity|].
  cbn [removeNul filter]. destruct (Z.eqb_spec c 0) as [->|Hc].
  - exfalso. apply Hno. now left.
  - cbn [negb]. fold (removeNul r). rewrite IH; [reflexivity|].
    intros Hin. apply Hno. now right.
Qed.

(** C2 (as amended).  For every well-formed string [s] whose encoded integer
    is below the field prime, [str2int s] returns a chunk array together with
    its length, and [int2str] of that array is [s] with every U+0000 removed,
    wherever it stands; it is [s] itself when [s] holds no U+0000.  The empty
    string is encoded as the one-chunk array [[0]] and decoded back to the
    empty string. *)
Theorem int2str_str2int_removes_nul (s : ustring) :
  wellFormed s -> Spec.encodedInteger s < SNARK_FIELD_SIZE ->
  exists chunks,
    str2int s = Some (chunks, Z.of_nat (List.length chunks))
    /\ combineFromBigIntChunks chunks = Spec.encodedInteger s
    /\ int2str chunks = removeNul s
    /\ (~ In 0 s -> int2str chunks = s)
    /\ (s = [] -> chunks = [0] /\ int2str chunks = []).
Proof.
  intros Hs _.
  exists (splitIntoBigIntChunks (Spec.encodedInteger s)).
  split; [now apply str2int_chunks|].
  split; [apply combine_split, encodedInteger_nonneg, Hs|].
  split; [now apply int2str_str2int|].
  split.
  - intros Hno. rewrite int2str_str2int by assumption. now apply removeNul_id.
  - intros ->. split; reflexivity.
Qed.

Lemma int2str_str2int_removes_nul_witness :
  exists chunks,
    str2int helloAuditor = Some (chunks, Z.of_nat (List.length chunks))
    /\ combineFromBigIntChunks chunks = Spec.encodedInteger helloAuditor
    /\ int2str chunks = removeNul helloAuditor
    /\ (~ In 0 helloAuditor -> int2str chunks = helloAuditor)
    /\ (helloAuditor = [] -> chunks = [0] /\ int2str chunks = []).
Proof.
  apply (int2str_str2int_removes_nul helloAuditor).
  - repeat constructor.
  - reflexivity.
Defined.

(** C2 as stated fails: a U+0000 inside the string is removed as well, so
    the result differs from the string by more than trailing padding. *)
Lemma int2str_str2int_interior_nul :
  wellFormed [97; 0; 98]
  /\ Spec.encodedInteger [97; 0; 98] < SNARK_FIELD_SIZE
  /\ str2int [97; 0; 98] = Some ([6357090], 1)
  /\ int2str [6357090] = [97; 98]
  /\ Spec.stripTrailingNul [97; 0; 98] = [97; 0; 98]
  /\ int2str [6357090] <> Spec.stripTrailingNul [97; 0; 98].
Proof.
  split; [repeat constructor|].
  split; [reflexivity|].
  split; [reflexivity|].
  split; [reflexivity|].
  split; [reflexivity|].
  discriminate.
Qed.

End CodecFacts.


(** ** The identity of the curve *)

Module BabyJubFacts.
Import BabyJubSpec.

Lemma one_mod_p : 1 mod p = 1.
Proof. apply Z.mod_small. unfold p, SNARK_FIELD_SIZE. lia. Qed.

Lemma powmod_1 (e : positive) : powmod 1 e = 1.
Proof.
  induction e as [e IH|e IH|]; cbn [powmod]; rewrite ?IH;
    change (1 * 1 * 1) with 1; change (1 * 1) with 1; apply one_mod_p.
Qed.

Lemma inv_1 : inv 1 = 1.
Proof. apply powmod_1. Qed.

(** [(0, 1)] is the neutral element of the addition law. *)
Lemma zero_one_isIdentity : isIdentity (0, 1).
Proof.
  intros x y Hx Hy. unfold add.
  replace (d * 0 * x * 1 * y) with 0 by ring.
  replace (d * x * 0 * y * 1) with 0 by ring.
  rewrite Z.mod_0_l by (unfold p, SNARK_FIELD_SIZE; lia).
  change (1 + 0) with 1. change (1 - 0) with 1. rewrite inv_1.
  replace ((0 * y + 1 * x) * 1) with x by ring.
  replace ((1 * y - a * 0 * x) * 1) with y by ring.
  replace ((x * 1 + y * 0) * 1) with x by ring.
  replace ((y * 1 - a * x * 0) * 1) with y by ring.
  rewrite !Z.mod_small by assumption. split; reflexivity.
Qed.

End BabyJubFacts.

(** ** The operation engine *)

Module EngineFacts.
Import Engine.

(** Unfolding the monad. *)
Ltac monad :=
  unfold bind, ask, ret, throw, tryCatch, liftResult, this,
         setDecryptionKey, setPublicKey in *;
  cbn [self trace fst snd walletAddress contractAddress registrarAddress
       isConverter circuitURLs decryptionKey publicKey] in *.

(** A case split on the innermost value that [x] examines. *)
Ltac split_on x :=
  lazymatch x with
  | context [if ?b then _ else _] => split_on b
  | context [match ?y with Answer _ => _ | Reject _ => _ end] => split_on y
  | context [match ?y with Ok _ => _ | Err _ => _ end] => split_on y
  | context [match ?y with Some _ => _ | None => _ end] => split_on y
  | _ => destruct x eqn:?
  end.

(** One case split on the first answer, result or test that the goal
    examines. *)
Ltac branch :=
  match goal with
  | |- context [match ?x with Answer _ => _ | Reject _ => _ end] => split_on x
  | |- context [match ?x with Ok _ => _ | Err _ => _ end] => split_on x
  | |- context [match ?x with Some _ => _ | None => _ end] => split_on x
  | |- context [if ?b then _ else _] => split_on b
  end;
  cbn [self trace fst snd negb] in *.

Ltac paths := repeat branch.

(** Equations between constructed values, resolved. *)
Ltac same_values :=
  repeat match goal with
         | Heq : Some _ = Some _ |- _ => injection Heq as Heq; subst
         | Heq : Ok _ = Ok _ |- _ => injection Heq as Heq; subst
         | Heq : Answer _ = Answer _ |- _ => injection Heq as Heq; subst
         | Heq : (_, _) = (_, _) |- _ => injection Heq as ? ?; subst
         end.

(** Which of the events of a trace that grew by appending a given event
    is. *)
Ltac events Hin :=
  repeat match type of Hin with
         | In _ (_ ++ _) => apply in_app_or in Hin; destruct Hin as [Hin|Hin]
         | In _ (_ :: _) => destruct Hin as [Hin|Hin]
         | In _ [] => destruct Hin
         end.

Section WithHost.
Context (C : Crypto) (H : Host).

Lemma accountAddress_Some (s : EERC) (a : string) :
  accountAddress s = Some a -> walletAddress s = Some a.
Proof.
  unfold accountAddress. destruct (walletAddress s) as [a'|]; [|discriminate].
  destruct (truthyStr a'); [|discriminate]. congruence.
Qed.

(** *** Public keys *)

Lemma fetchPublicKey_burn (w : World) :
  fetchPublicKey H BURN_USER_address w = (w, Ok BURN_USER_publicKey).
Proof. reflexivity. Qed.

Lemma fetchPublicKey_other (to : string) (w : World) :
  to <> BURN_USER_address ->
  fetchPublicKey H to w
  = ({| self := self w;
        trace := trace w ++ [GetUserPublicKey (registrarAddress (self w)) to] |},
     match getUserPublicKey H (trace w) (registrarAddress (self w)) to with
     | Answer pk => Ok pk
     | Reject reason => Err (Rejected reason)
     end).
Proof.
  intros Hne. unfold fetchPublicKey.
  apply String.eqb_neq in Hne. rewrite Hne. reflexivity.
Qed.

(** *** The checks of [generateTransferProof] *)

(** The key that the checks look for starts with two zeros. *)
Lemma isZeroPair_spec (pk : list Z) :
  isZeroPair pk = true <-> exists rest, pk = 0 :: 0 :: rest.
Proof.
  unfold isZeroPair, isZeroAt. split.
  - destruct pk as [|x [|y rest]]; cbn; try discriminate.
    + now rewrite andb_false_r.
    + intros Hb. apply andb_true_iff in Hb as [Hx Hy].
      apply Z.eqb_eq in Hx, Hy. subst. now exists rest.
  - intros [rest ->]. reflexivity.
Qed.



Lemma gtp_burn_user_passes (amount : Z) (eb : list Z) (bal : Z)
    (aud : list Z) (w : World) :
  snd (generateTransferProof C H BURN_USER_address amount eb bal aud w)
  <> Err (Rethrown ReceiverNotRegistered).
Proof.
  unfold generateTransferProof, validateAddress, validateAmount, generateProof,
    fetchPublicKey.
  rewrite String.eqb_refl. monad.
  change (isZeroAt BURN_USER_publicKey 0 && isZeroAt BURN_USER_publicKey 1)
    with false.
  paths; discriminate.
Qed.

(** *** Optional messages *)

(** Encrypting the optional message leaves the instance alone and asks the
    host for at most one Poseidon encryption. *)
Lemma encryptedMessageFor_effect (pk : list Z)
    (message : option Platform.ustring) (w : World) :
  exists evs,
    trace (fst (encryptedMessageFor H pk message w)) = trace w ++ evs
    /\ self (fst (encryptedMessageFor H pk message w)) = self w
    /\ forall ev, In ev evs -> exists inputs, ev = PoseidonEncryption inputs pk.
Proof.
  unfold encryptedMessageFor, encryptMetadata.
  destruct message as [[|c r]|];
    try (exists []; cbn; rewrite app_nil_r; now repeat split).
  destruct (Metadata.str2int (c :: r)) as [[elements len]|].
  - exists [PoseidonEncryption elements pk]. monad.
    destruct (processPoseidonEncryption H (trace w) elements pk);
      cbn [fst snd self trace]; repeat split.
    all: intros ev [<-|[]]; now eexists.
  - exists []. cbn. rewrite app_nil_r. now repeat split.
Qed.

(** The same, as a case split on a call met in a goal. *)
Ltac message_call :=
  match goal with
  | |- context [encryptedMessageFor ?H' ?pk ?m ?w0] =>
      let evs := fresh "evs" in
      let Htr := fresh "Htr" in
      let Hself := fresh "Hself" in
      let Hevs := fresh "Hevs" in
      let s1 := fresh "s" in
      let t1 := fresh "t" in
      let r1 := fresh "r" in
      destruct (encryptedMessageFor_effect pk m w0)
        as (evs & Htr & Hself & Hevs);
      destruct (encryptedMessageFor H' pk m w0) as [[s1 t1] r1];
      cbn [fst snd self trace] in Htr, Hself; subst s1 t1
  end.

Ltac run := repeat (first [message_call | branch]).

Lemma nullifierOf_Ok (chainId : Z) (l : list Z) (n : Z) :
  nullifierOf C chainId l = Ok n ->
  exists a0 a1 a2 a3,
    l = [a0; a1; a2; a3] /\ n = poseidon5 C chainId a0 a1 a2 a3.
Proof.
  unfold nullifierOf.
  destruct l as [|a0 [|a1 [|a2 [|a3 [|a4 r]]]]]; try discriminate.
  intros [= <-]. now eexists _, _, _, _.
Qed.

(** An event that is among those of an optional message is no other kind of
    event. *)
Ltac not_message Hin :=
  match goal with
  | Hevs : forall ev, In ev ?evs -> _ |- _ =>
      match type of Hin with
      | In _ evs => destruct (Hevs _ Hin) as [? ?]; discriminate
      end
  end.

(** *** Minting *)

(** Whenever [privateMint] calls the prover, it is for the MINT circuit, and
    the [NullifierHash] of the input is [poseidon5] of the chain id that the
    client reported and the four fields of the auditor's PCT ciphertext of
    the mint amount, which the same input carries as [AuditorPCT]. *)
Lemma privateMint_prover_calls (recipient : string) (mintAmount : Z)
    (auditorPublicKey : list Z) (message : option Platform.ustring)
    (w : World) (op : Operation) (input : Witness) :
  In (FullProve op input)
     (trace (fst (privateMint C H recipient mintAmount auditorPublicKey
                              message w))) ->
  In (FullProve op input) (trace w)
  \/ (op = MINT
      /\ exists t t' chainId auditor a0 a1 a2 a3,
           getChainId H t = Answer chainId
           /\ processPoseidonEncryption H t' [mintAmount] auditorPublicKey
              = Answer auditor
           /\ cipher auditor = [a0; a1; a2; a3]
           /\ field "ValueToMint" input = Some (VNum mintAmount)
           /\ field "ChainID" input = Some (VNum chainId)
           /\ field "AuditorPCT" input = Some (VArr [a0; a1; a2; a3])
           /\ field "NullifierHash" input
              = Some (VNum (poseidon5 C chainId a0 a1 a2 a3))).
Proof.
  unfold privateMint, validateAddress, generateProof, fetchPublicKey, mintInput.
  monad. run; intros Hin; events Hin;
    try (left; exact Hin); try discriminate Hin.
  all: try not_message Hin.
  all: injection Hin as <- <-; right; split; [reflexivity|].
  all: match goal with
       | Hn : nullifierOf _ _ _ = Ok _ |- _ =>
           let Hc := fresh "Hcipher" in
           apply nullifierOf_Ok in Hn as (? & ? & ? & ? & Hc & ->);
           eexists _, _, _, _, _, _, _, _;
           repeat split; eauto; cbn [field String.eqb Ascii.eqb Bool.eqb];
           rewrite ?Hc; reflexivity
       end.
Qed.

(** *** The balance PCT of the sending operations *)

Lemma transfer_balancePCT (to : string) (amount : Z) (eb : list Z) (bal : Z)
    (aud : list Z) (tokenAddress : option string)
    (message : option Platform.ustring) (w : World) (call : ContractCall) :
  In (SimulateContract call)
     (trace (fst (transfer C H to amount eb bal aud tokenAddress message w))) ->
  In (SimulateContract call) (trace w)
  \/ exists t o,
       processPoseidonEncryption H t [bal - amount] (publicKey (self w))
       = Answer o
       /\ call_functionName call = "transfer"%string
       /\ nth_error (call_args call) 3
          = Some (AArr (cipher o ++ authKey o ++ [nonce o])).
Proof.
  unfold transfer, generateTransferProof, validateAddress, generateProof,
    fetchPublicKey, fetchTokenId, pctFields.
  monad. run; intros Hin; events Hin;
    try (left; exact Hin); try discriminate Hin; try not_message Hin.
  all: injection Hin as <-; right; eexists _, _; split; [eassumption|].
  all: split; reflexivity.
Qed.

Lemma withdraw_balancePCT (amount : Z) (eb : list Z) (bal : Z)
    (aud : list Z) (tokenAddress : string)
    (message : option Platform.ustring) (w : World) (call : ContractCall) :
  In (SimulateContract call)
     (trace (fst (withdraw C H amount eb bal aud tokenAddress message w))) ->
  In (SimulateContract call) (trace w)
  \/ exists t o,
       processPoseidonEncryption H t [bal - amount] (publicKey (self w))
       = Answer o
       /\ call_functionName call = "withdraw"%string
       /\ nth_error (call_args call) 2
          = Some (AArr (cipher o ++ authKey o ++ [nonce o])).
Proof.
  unfold withdraw, generateProof, fetchTokenId, pctFields.
  monad. run; intros Hin; events Hin;
    try (left; exact Hin); try discriminate Hin; try not_message Hin.
  all: injection Hin as <-; right; eexists _, _; split; [eassumption|].
  all: split; reflexivity.
Qed.

Lemma privateBurn_balancePCT (amount : Z) (eb : list Z) (bal : Z)
    (aud : list Z) (message : option Platform.ustring) (w : World)
    (call : ContractCall) :
  In (SimulateContract call)
     (trace (fst (privateBurn C H amount eb bal aud message w))) ->
  In (SimulateContract call) (trace w)
  \/ exists t o,
       processPoseidonEncryption H t [bal - amount] (publicKey (self w))
       = Answer o
       /\ call_functionName call = "privateBurn"%string
       /\ nth_error (call_args call) 1
          = Some (AArr (cipher o ++ authKey o ++ [nonce o])).
Proof.
  unfold privateBurn, generateProof, pctFields.
  monad. run; intros Hin; events Hin;
    try (left; exact Hin); try discriminate Hin; try not_message Hin.
  all: injection Hin as <-; right; eexists _, _; split; [eassumption|].
  all: split; reflexivity.
Qed.

(** *** The keys that a transfer needs *)




(** *** The instance state *)

Lemma privateMint_keeps_state (recipient : string) (mintAmount : Z)
    (aud : list Z) (message : option Platform.ustring) (w : World) :
  self (fst (privateMint C H recipient mintAmount aud message w)) = self w.
Proof.
  unfold privateMint, validateAddress, generateProof, fetchPublicKey.
  monad. run; reflexivity.
Qed.

Lemma transfer_keeps_state (to : string) (amount : Z) (eb : list Z) (bal : Z)
    (aud : list Z) (tokenAddress : option string)
    (message : option Platform.ustring) (w : World) :
  self (fst (transfer C H to amount eb bal aud tokenAddress message w)) = self w.
Proof.
  unfold transfer, generateTransferProof, validateAddress, generateProof,
    fetchPublicKey, fetchTokenId.
  monad. run; reflexivity.
Qed.

Lemma withdraw_keeps_state (amount : Z) (eb : list Z) (bal : Z)
    (aud : list Z) (tokenAddress : string)
    (message : option Platform.ustring) (w : World) :
  self (fst (withdraw C H amount eb bal aud tokenAddress message w)) = self w.
Proof.
  unfold withdraw, generateProof, fetchTokenId.
  monad. run; reflexivity.
Qed.

Lemma privateBurn_keeps_state (amount : Z) (eb : list Z) (bal : Z)
    (aud : list Z) (message : option Platform.ustring) (w : World) :
  self (fst (privateBurn C H amount eb bal aud message w)) = self w.
Proof.
  unfold privateBurn, generateProof.
  monad. run; reflexivity.
Qed.

(** [generateDecryptionKey] either fails -- no wallet address, or a rejected
    signature request -- and leaves the instance as it was, or returns the
    key derived from the signature and installs it. *)
Lemma generateDecryptionKey_state (w : World) :
  (isOk (snd (generateDecryptionKey C H w)) = false
   /\ self (fst (generateDecryptionKey C H w)) = self w)
  \/ exists address t signature,
       walletAddress (self w) = Some address
       /\ signMessage H t (MESSAGES_REGISTER address) address = Answer signature
       /\ snd (generateDecryptionKey C H w)
          = Ok (getPrivateKeyFromSignature C signature)
       /\ self (fst (generateDecryptionKey C H w))
          = withKey C (self w) (getPrivateKeyFromSignature C signature).
Proof.
  unfold generateDecryptionKey. monad. run; cbn [isOk]; auto.
  right. eexists _, _, _. repeat split; eauto using accountAddress_Some.
Qed.

(** [register] leaves the instance as it was when it stops no later than the
    signature request; past it, the key derived from the signature stays
    installed, whether the rest succeeds or throws. *)
Lemma register_state (w : World) :
  (isOk (snd (register C H w)) = false
   /\ self (fst (register C H w)) = self w)
  \/ exists address t signature,
       walletAddress (self w) = Some address
       /\ signMessage H t (MESSAGES_REGISTER address) address = Answer signature
       /\ self (fst (register C H w))
          = withKey C (self w) (getPrivateKeyFromSignature C signature).
Proof.
  unfold register, generateDecryptionKey, generateProof, fetchPublicKey.
  monad. run; cbn [isOk]; auto.
  all: right; eexists _, _, _; repeat split;
    eauto using accountAddress_Some.
Qed.

(** When [register] throws for want of a wallet, of a contract address or of
    a decryption key, the instance is as it was. *)
Lemma register_early_failure (w : World) (e : Error) :
  snd (register C H w) = Err e ->
  rootCause e = MissingClientWalletOrContract
  \/ rootCause e = FailedToGenerateDecryptionKey ->
  self (fst (register C H w)) = self w.
Proof.
  unfold register, generateDecryptionKey, generateProof, fetchPublicKey.
  monad. run; intros [= <-]; cbn [rootCause]; intros [Hc|Hc];
    try discriminate Hc; reflexivity.
Qed.

(** *** The signed message *)

Lemma codes_append (a b : string) :
  codes (a ++ b) = (codes a ++ codes b)%list.
Proof.
  unfold codes. induction a as [|c r IH]; [reflexivity|].
  cbn [String.append list_ascii_of_string map app]. now rewrite IH.
Qed.

Lemma nat_of_lowerAscii (c : ascii) :
  nat_of_ascii (lowerAscii c) = lowerCode (nat_of_ascii c).
Proof.
  unfold lowerAscii, lowerCode.
  destruct ((65 <=? nat_of_ascii c)%nat && (nat_of_ascii c <=? 90)%nat) eqn:Hup;
    [|reflexivity].
  apply andb_true_iff in Hup as [_ Hle]. apply Nat.leb_le in Hle.
  apply nat_ascii_embedding. lia.
Qed.

Lemma codes_toLowerCase (s : string) :
  codes (toLowerCase s) = map lowerCode (codes s).
Proof.
  unfold codes. induction s as [|c r IH]; [reflexivity|].
  cbn [toLowerCase list_ascii_of_string map].
  now rewrite nat_of_lowerAscii, IH.
Qed.

Lemma codes_MESSAGES_REGISTER (user : string) :
  codes (MESSAGES_REGISTER user)
  = (registerPrefix ++ map lowerCode (codes user))%list.
Proof.
  unfold MESSAGES_REGISTER.
  rewrite !codes_append, codes_toLowerCase, !app_assoc. reflexivity.
Qed.

(** C8. With a wallet address set -- a string of ASCII characters, as a
    0x address is -- [generateDecryptionKey] asks the wallet for exactly one
    signature, and the message it submits is, character code by character
    code, "eERC", a line feed, "Registering user with", a line feed,
    " Address:" and then the address with its upper-case letters lowered:
    nothing before, between or after. *)
Theorem generateDecryptionKey_signs_registration_message
    (w : World) (address : string) :
  walletAddress (self w) = Some address ->
  address <> EmptyString ->
  Forall (fun n => (n < 128)%nat) (codes address) ->
  exists message,
    trace (fst (generateDecryptionKey C H w))
    = trace w ++ [SignMessage message address]
    /\ message = MESSAGES_REGISTER address
    /\ codes message = (registerPrefix ++ map lowerCode (codes address))%list.
Proof.
  intros Hwallet Hne _.
  exists (MESSAGES_REGISTER address).
  split; [|split; [reflexivity|apply codes_MESSAGES_REGISTER]].
  unfold generateDecryptionKey, accountAddress, truthyStr. monad.
  rewrite Hwallet. apply String.eqb_neq in Hne. rewrite Hne. cbn [negb].
  now destruct (signMessage H (trace w) (MESSAGES_REGISTER address) address).
Qed.

(** *** Registration *)


(** *** The burn user *)

(** C10. [fetchPublicKey] answers [(0, 1)] for the burn user's address
    without a call to the host, and for any other address relays the
    registrar's [getUserPublicKey], asked once.  [(0, 1)] is not the all-zero
    pair, so [generateTransferProof] never throws "Receiver is not
    registered!" for the burn user -- although [(0, 1)] is the identity of the
    curve's addition law. *)
Theorem fetchPublicKey_burn_user (w : World) :
  fetchPublicKey H BURN_USER_address w = (w, Ok [0; 1])
  /\ (forall to,
        to <> BURN_USER_address ->
        fetchPublicKey H to w
        = ({| self := self w;
              trace := trace w
                       ++ [GetUserPublicKey (registrarAddress (self w)) to] |},
           match getUserPublicKey H (trace w) (registrarAddress (self w)) to with
           | Answer pk => Ok pk
           | Reject reason => Err (Rejected reason)
           end))
  /\ isZeroPair [0; 1] = false
  /\ (forall amount eb bal aud,
        snd (generateTransferProof C H BURN_USER_address amount eb bal aud w)
        <> Err (Rethrown ReceiverNotRegistered))
  /\ BabyJubSpec.isIdentity (0, 1).
Proof.
  split; [apply fetchPublicKey_burn|].
  split; [intros to; apply fetchPublicKey_other|].
  split; [reflexivity|].
  split; [intros; apply gtp_burn_user_passes|].
  apply BabyJubFacts.zero_one_isIdentity.
Qed.

End WithHost.

(** *** The statements on the concrete session *)

Import Scenario.

(** Membership in a trace that is known in full. *)
Ltac in_trace := vm_compute; repeat first [left; reflexivity | right].

Lemma generateDecryptionKey_signs_registration_message_witness :
  exists message,
    trace (fst (generateDecryptionKey crypto host (start fresh)))
    = [SignMessage message alice]
    /\ message = MESSAGES_REGISTER alice
    /\ codes message = (registerPrefix ++ map lowerCode (codes alice))%list.
Proof.
  apply (generateDecryptionKey_signs_registration_message crypto host
           (start fresh) alice).
  - reflexivity.
  - discriminate.
  - repeat constructor.
Defined.

Lemma fetchPublicKey_burn_user_witness :
  fetchPublicKey host bob (start standalone)
  = ({| self := standalone;
        trace := [GetUserPublicKey (registrarAddress standalone) bob] |},
     Ok [11; 0]).
Proof.
  pose proof (fetchPublicKey_burn_user crypto host (start standalone))
    as (_ & Hother & _).
  rewrite (Hother bob); [reflexivity|discriminate].
Defined.

End EngineFacts.

(* ================================================================== *)
(** * Part II, continued: properties of the rest of the code *)
(* ================================================================== *)

(** ** Chunk arrays *)

Module CodecMoreFacts.
Import Platform Metadata CodecAux CodecMore.

Ltac zdiv := Z.to_euclidean_division_equations; lia.

Lemma two_le_chunkSize : 2 <= 2 ^ 250.
Proof. change 2 with (2 ^ 1) at 1. apply Z.pow_le_mono_r; lia. Qed.

Lemma combine_cons (c : Z) (r : list Z) :
  combineFromBigIntChunks (c :: r) = c + 2 ^ 250 * combineFromBigIntChunks r.
Proof.
  unfold combineFromBigIntChunks. cbn [rev]. rewrite fold_left_app.
  cbn [fold_left]. lia.
Qed.

Lemma combine_nil : combineFromBigIntChunks [] = 0.
Proof. reflexivity. Qed.

(** Chunks whose last one is not zero spell an integer of that many chunks,
    no fewer and no more. *)
Lemma combine_bounds (cs : list Z) :
  Forall isChunk cs -> cs <> [] -> last cs 0 <> 0 ->
  2 ^ (250 * Z.of_nat (List.length cs - 1)) <= combineFromBigIntChunks cs
  < 2 ^ (250 * Z.of_nat (List.length cs)).
Proof.
  induction 1 as [|c r Hc Hr IH]; intros Hne Hlast; [contradiction|].
  unfold isChunk in Hc. rewrite combine_cons.
  destruct r as [|c' r'].
  - cbn [last] in Hlast. rewrite combine_nil. cbn [List.length Nat.sub].
    change (250 * Z.of_nat 0) with 0. change (250 * Z.of_nat 1) with 250.
    change (2 ^ 0) with 1. lia.
  - assert (Hlast' : last (c' :: r') 0 <> 0) by exact Hlast.
    destruct (IH ltac:(discriminate) Hlast') as [Hlo Hhi].
    set (v := combineFromBigIntChunks (c' :: r')) in *.
    cbn [List.length Nat.sub] in *.
    rewrite Nat.sub_0_r in Hlo.
    set (k := List.length r') in *.
    replace (250 * Z.of_nat (S k)) with (250 + 250 * Z.of_nat k) in * by lia.
    replace (250 * Z.of_nat (S (S k))) with (250 + (250 + 250 * Z.of_nat k)) by lia.
    rewrite !Z.pow_add_r in * by lia.
    set (B := 2 ^ 250) in *. set (P := 2 ^ (250 * Z.of_nat k)) in *.
    assert (0 < B) by (subst B; apply Z.pow_pos_nonneg; lia).
    assert (0 < P) by (subst P; apply Z.pow_pos_nonneg; lia).
    nia.
Qed.

(** The loop of [splitIntoBigIntChunks], run on what the chunks spell, writes
    the chunks. *)
Lemma splitLoop_exact (cs : list Z) :
  Forall isChunk cs -> cs <> [] -> last cs 0 <> 0 ->
  forall fuel acc,
    combineFromBigIntChunks cs < 2 ^ Z.of_nat fuel ->
    splitLoop fuel (2 ^ 250) (combineFromBigIntChunks cs) acc = Some (acc ++ cs).
Proof.
  induction 1 as [|c r Hc Hr IH]; intros Hne Hlast fuel acc Hfuel;
    [contradiction|].
  pose proof two_le_chunkSize as HB.
  pose proof (combine_bounds (c :: r) (Forall_cons _ Hc Hr) Hne Hlast) as [Hlo _].
  assert (Hpos : 0 < combineFromBigIntChunks (c :: r)).
  { eapply Z.lt_le_trans; [|exact Hlo]. apply Z.pow_pos_nonneg; lia. }
  unfold isChunk in Hc. rewrite combine_cons in *.
  set (v := combineFromBigIntChunks r) in *.
  assert (Hv : 0 <= v).
  { destruct r as [|c' r']; [subst v; rewrite combine_nil; lia|].
    pose proof (combine_bounds (c' :: r') Hr ltac:(discriminate) Hlast) as [Hlo' _].
    assert (0 < 2 ^ (250 * Z.of_nat (List.length (c' :: r') - 1)))
      by (apply Z.pow_pos_nonneg; lia).
    subst v. lia. }
  destruct fuel as [|fuel].
  { change (2 ^ Z.of_nat 0) with 1 in Hfuel. lia. }
  cbn [splitLoop]. destruct (Z.gtb_spec (c + 2 ^ 250 * v) 0); [|lia].
  rewrite Z.quot_div_nonneg, Z.rem_mod_nonneg by lia.
  replace ((c + 2 ^ 250 * v) / 2 ^ 250) with v by (apply Z.div_unique with c; lia).
  replace ((c + 2 ^ 250 * v) mod 2 ^ 250) with c by (apply Z.mod_unique with v; lia).
  destruct r as [|c' r'].
  - subst v. rewrite combine_nil.
    destruct fuel; cbn [splitLoop]; reflexivity.
  - subst v. rewrite IH; [now rewrite <- app_assoc|discriminate|exact Hlast|].
    rewrite Nat2Z.inj_succ, Z.pow_succ_r in Hfuel by lia.
    set (v := combineFromBigIntChunks (c' :: r')) in *. nia.
Qed.

(** What the loop of [splitIntoBigIntChunks] writes for a positive integer:
    chunks of 250 bits, the last not zero, that spell the integer. *)
Lemma splitLoop_canonical (fuel : nat) :
  forall n acc,
    0 < n < 2 ^ Z.of_nat fuel ->
    exists cs,
      splitLoop fuel (2 ^ 250) n acc = Some (acc ++ cs)
      /\ Forall isChunk cs /\ cs <> [] /\ last cs 0 <> 0
      /\ combineFromBigIntChunks cs = n.
Proof.
  pose proof two_le_chunkSize as HB.
  induction fuel as [|fuel IH]; intros n acc Hn.
  { change (2 ^ Z.of_nat 0) with 1 in Hn. lia. }
  cbn [splitLoop]. destruct (Z.gtb_spec n 0); [|lia].
  rewrite Z.quot_div_nonneg, Z.rem_mod_nonneg by lia.
  rewrite Nat2Z.inj_succ, Z.pow_succ_r in Hn by lia.
  assert (Hmod : isChunk (n mod 2 ^ 250)) by (unfold isChunk; zdiv).
  destruct (Z.eq_dec (n / 2 ^ 250) 0) as [Hz|Hnz].
  - exists [n mod 2 ^ 250]. rewrite Hz.
    assert (Hsmall : n mod 2 ^ 250 = n) by zdiv.
    repeat split.
    + destruct fuel; reflexivity.
    + now constructor.
    + discriminate.
    + cbn [last]. lia.
    + rewrite combine_cons, combine_nil. lia.
  - destruct (IH (n / 2 ^ 250) (acc ++ [n mod 2 ^ 250]))
      as (cs & Hrun & Hcs & Hne & Hlast & Hval).
    { split; [zdiv|]. apply Z.le_lt_trans with (n / 2); [|zdiv].
      apply Z.div_le_compat_l; lia. }
    exists (n mod 2 ^ 250 :: cs). repeat split.
    + now rewrite Hrun, <- app_assoc.
    + now constructor.
    + discriminate.
    + destruct cs; [contradiction|exact Hlast].
    + rewrite combine_cons, Hval. pose proof (Z.div_mod n (2 ^ 250)). lia.
Qed.

Lemma log2_fuel (n : Z) : 0 < n -> n < 2 ^ Z.of_nat (S (Z.to_nat (Z.log2 n))).
Proof.
  intros Hn. rewrite Nat2Z.inj_succ, Z2Nat.id by apply Z.log2_nonneg.
  now apply Z.log2_spec.
Qed.

(** X1. For every non-negative integer, [splitIntoBigIntChunks] writes a
    canonical chunk array -- at least one chunk, every chunk below 2^250 and so
    below the field prime, the last one zero only for the integer zero -- and
    [combineFromBigIntChunks] reads the integer back from it. *)
Theorem combine_after_split (n : Z) :
  0 <= n ->
  canonical (splitIntoBigIntChunks n)
  /\ Forall (fun c => 0 <= c < SNARK_FIELD_SIZE) (splitIntoBigIntChunks n)
  /\ combineFromBigIntChunks (splitIntoBigIntChunks n) = n.
Proof.
  intros Hn.
  assert (Hcanon : canonical (splitIntoBigIntChunks n)
                   /\ combineFromBigIntChunks (splitIntoBigIntChunks n) = n).
  { unfold splitIntoBigIntChunks. destruct (Z.eqb_spec n 0) as [->|Hne].
    - split; [|reflexivity]. split; [|now left].
      constructor; [|constructor]. unfold isChunk.
      pose proof two_le_chunkSize. lia.
    - destruct (splitLoop_canonical (S (Z.to_nat (Z.log2 n))) n [])
        as (cs & Hrun & Hcs & Hnil & Hlast & Hval).
      { split; [lia|apply log2_fuel; lia]. }
      rewrite Hrun. cbn [app]. split; [|exact Hval].
      split; [exact Hcs|right; now split]. }
  destruct Hcanon as [Hcanon Hval]. split; [exact Hcanon|]. split; [|exact Hval].
  destruct Hcanon as [Hall _]. eapply Forall_impl; [|exact Hall].
  intros c [H0 H1]. split; [exact H0|].
  eapply Z.lt_trans; [exact H1|]. reflexivity.
Qed.

Lemma combine_after_split_witness :
  canonical (splitIntoBigIntChunks (2 ^ 300 + 5))
  /\ Forall (fun c => 0 <= c < SNARK_FIELD_SIZE)
            (splitIntoBigIntChunks (2 ^ 300 + 5))
  /\ combineFromBigIntChunks (splitIntoBigIntChunks (2 ^ 300 + 5))
     = 2 ^ 300 + 5.
Proof. apply (combine_after_split (2 ^ 300 + 5)). discriminate. Defined.

(** X2. On a canonical chunk array, splitting what
    [combineFromBigIntChunks] reads gives the array back: the two functions
    are inverse to each other between the non-negative integers and the
    canonical arrays. *)
Theorem split_after_combine (chunks : list Z) :
  canonical chunks ->
  splitIntoBigIntChunks (combineFromBigIntChunks chunks) = chunks.
Proof.
  intros [Hall [->|[Hne Hlast]]]; [reflexivity|].
  pose proof (combine_bounds chunks Hall Hne Hlast) as [Hlo _].
  assert (Hpos : 0 < combineFromBigIntChunks chunks).
  { eapply Z.lt_le_trans; [|exact Hlo]. apply Z.pow_pos_nonneg; lia. }
  unfold splitIntoBigIntChunks.
  destruct (Z.eqb_spec (combineFromBigIntChunks chunks) 0); [lia|].
  rewrite splitLoop_exact; auto. now apply log2_fuel.
Qed.

Lemma split_after_combine_witness :
  splitIntoBigIntChunks (combineFromBigIntChunks [7; 0; 3]) = [7; 0; 3].
Proof.
  apply (split_after_combine [7; 0; 3]). split.
  - repeat constructor; discriminate.
  - right. split; discriminate.
Defined.

(** A zero chunk at the end changes nothing for [int2str]. *)
Lemma combine_app_zero (chunks : list Z) :
  combineFromBigIntChunks (chunks ++ [0]) = combineFromBigIntChunks chunks.
Proof.
  induction chunks as [|c r IH]; [reflexivity|].
  cbn [app]. now rewrite !combine_cons, IH.
Qed.

Lemma combine_app_zeros (chunks : list Z) (k : nat) :
  combineFromBigIntChunks (chunks ++ repeat 0 k) = combineFromBigIntChunks chunks.
Proof.
  induction k as [|k IH]; [now rewrite app_nil_r|].
  replace (repeat 0 (S k)) with (repeat 0 k ++ [0])
    by (rewrite <- repeat_cons; reflexivity).
  now rewrite app_assoc, combine_app_zero.
Qed.

(** X3. Zero chunks at the end of a chunk array are ignored by [int2str]:
    a decryption padded with zeros decodes to the same string. *)
Theorem int2str_zero_padding (chunks : list Z) (k : nat) :
  int2str (chunks ++ repeat 0 k) = int2str chunks.
Proof.
  now rewrite !CodecFacts.int2str_unfold, combine_app_zeros.
Qed.

(** X4. [str2int] tells apart any two well-formed strings that hold no
    U+0000: different strings get different chunks. *)
Theorem str2int_injective (s1 s2 : ustring) :
  wellFormed s1 -> wellFormed s2 -> ~ In 0 s1 -> ~ In 0 s2 ->
  s1 <> s2 -> str2int s1 <> str2int s2.
Proof.
  intros Hw1 Hw2 Hn1 Hn2 Hne Heq. apply Hne.
  rewrite (CodecFacts.str2int_chunks s1 Hw1),
          (CodecFacts.str2int_chunks s2 Hw2) in Heq.
  injection Heq as Hchunks _.
  rewrite <- (CodecFacts.removeNul_id s1 Hn1), <- (CodecFacts.removeNul_id s2 Hn2).
  rewrite <- (CodecFacts.int2str_str2int s1 Hw1),
          <- (CodecFacts.int2str_str2int s2 Hw2).
  now rewrite Hchunks.
Qed.

Lemma str2int_injective_witness :
  str2int [104; 105] <> str2int [104; 111].
Proof.
  apply (str2int_injective [104; 105] [104; 111]);
    try (repeat constructor);
    try (intros Hin; repeat (destruct Hin as [Hin|Hin]; [discriminate Hin|]);
         exact Hin);
    discriminate.
Defined.

Lemma valueFrom_upper (bs : list Z) :
  Forall isByte bs ->
  forall n, 0 <= n ->
    valueFrom n bs < (n + 1) * 2 ^ (8 * Z.of_nat (List.length bs)).
Proof.
  induction 1 as [|b r Hb _ IH]; intros n Hn.
  - cbn. lia.
  - unfold isByte in Hb. unfold valueFrom. cbn [fold_left List.length].
    fold (valueFrom (n * 256 + b) r).
    specialize (IH (n * 256 + b) ltac:(lia)).
    replace (8 * Z.of_nat (S (List.length r)))
      with (8 + 8 * Z.of_nat (List.length r)) by lia.
    rewrite Z.pow_add_r by lia. change (2 ^ 8) with 256.
    assert (0 < 2 ^ (8 * Z.of_nat (List.length r)))
      by (apply Z.pow_pos_nonneg; lia).
    nia.
Qed.

(** X5. The chunks that [str2int] returns for a well-formed string: their
    number is the second component, there is at least one, each is below
    2^250, and a string of [b] UTF-8 bytes takes at most [8 b / 250 + 1] of
    them. *)
Theorem str2int_chunk_count (s : ustring) :
  wellFormed s ->
  exists chunks,
    str2int s = Some (chunks, Z.of_nat (List.length chunks))
    /\ (1 <= List.length chunks)%nat
    /\ Forall isChunk chunks
    /\ 250 * Z.of_nat (List.length chunks)
       <= 8 * Z.of_nat (List.length (utf8Encode s)) + 250.
Proof.
  intros Hs.
  exists (splitIntoBigIntChunks (Spec.encodedInteger s)).
  split; [now apply CodecFacts.str2int_chunks|].
  pose proof (CodecFacts.encodedInteger_nonneg s Hs) as Hnn.
  destruct (combine_after_split _ Hnn) as ([Hall Hshape] & _ & Hval).
  set (cs := splitIntoBigIntChunks (Spec.encodedInteger s)) in *.
  destruct Hshape as [Hzero|[Hne Hlast]].
  - rewrite Hzero. split; [cbn; lia|]. split; [now rewrite <- Hzero|].
    cbn [List.length]. lia.
  - split; [destruct cs; [contradiction|cbn; lia]|]. split; [exact Hall|].
    pose proof (combine_bounds cs Hall Hne Hlast) as [Hlo _].
    rewrite Hval in Hlo.
    pose proof (valueFrom_upper (utf8Encode s)
                  (CodecFacts.utf8Encode_bytes s Hs) 0 ltac:(lia)) as Hup.
    change (valueFrom 0 (utf8Encode s)) with (Spec.encodedInteger s) in Hup.
    rewrite Z.mul_1_l in Hup.
    assert (Hlt : 2 ^ (250 * Z.of_nat (List.length cs - 1))
                  < 2 ^ (8 * Z.of_nat (List.length (utf8Encode s)))) by lia.
    apply Z.pow_lt_mono_r_iff in Hlt; [|lia|lia].
    destruct cs; [contradiction|]. cbn [List.length Nat.sub] in *.
    rewrite Nat.sub_0_r in Hlt. lia.
Qed.

Lemma str2int_chunk_count_witness :
  exists chunks,
    str2int helloAuditor = Some (chunks, Z.of_nat (List.length chunks))
    /\ (1 <= List.length chunks)%nat
    /\ Forall isChunk chunks
    /\ 250 * Z.of_nat (List.length chunks)
       <= 8 * Z.of_nat (List.length (utf8Encode helloAuditor)) + 250.
Proof. apply (str2int_chunk_count helloAuditor). repeat constructor. Defined.

End CodecMoreFacts.

(** ** Token decimals *)

Module DecimalsFacts.
Import EngineMore.

Lemma pow10_pos (k : Z) : 0 <= k -> 0 < 10 ^ k.
Proof. intros Hk. apply Z.pow_pos_nonneg; lia. Qed.

Lemma convert_up (amount lo hi : Z) :
  lo < hi -> convertTokenDecimals amount lo hi = amount * 10 ^ (hi - lo).
Proof.
  intros Hlt. unfold convertTokenDecimals.
  destruct (Z.eqb_spec lo hi); [lia|]. destruct (Z.gtb_spec (lo - hi) 0); [lia|].
  f_equal. f_equal. lia.
Qed.

Lemma convert_down (amount lo hi : Z) :
  lo < hi -> convertTokenDecimals amount hi lo = Z.quot amount (10 ^ (hi - lo)).
Proof.
  intros Hlt. unfold convertTokenDecimals.
  destruct (Z.eqb_spec hi lo); [lia|]. destruct (Z.gtb_spec (hi - lo) 0); [|lia].
  reflexivity.
Qed.

(** X6. Scaling an amount up to more decimals and back down gives the
    amount back, whatever its sign. *)
Theorem convertTokenDecimals_up_down (amount lo hi : Z) :
  lo <= hi ->
  convertTokenDecimals (convertTokenDecimals amount lo hi) hi lo = amount.
Proof.
  intros Hle. destruct (Z.eq_dec lo hi) as [->|Hne].
  - unfold convertTokenDecimals. now rewrite Z.eqb_refl.
  - rewrite (convert_up amount lo hi), (convert_down _ lo hi) by lia.
    apply Z.quot_mul. pose proof (pow10_pos (hi - lo) ltac:(lia)). lia.
Qed.

Lemma convertTokenDecimals_up_down_witness :
  convertTokenDecimals (convertTokenDecimals 1234 2 18) 18 2 = 1234.
Proof. apply (convertTokenDecimals_up_down 1234 2 18). lia. Defined.

(** X7. Scaling a non-negative amount down to fewer decimals truncates:
    scaled back up, the result is at most the amount and misses it by less
    than one unit of the coarser scale; an amount below that unit becomes
    zero. *)
Theorem convertTokenDecimals_down_truncates (amount lo hi : Z) :
  0 <= amount -> lo <= hi ->
  let down := convertTokenDecimals amount hi lo in
  let back := convertTokenDecimals down lo hi in
  0 <= down
  /\ back <= amount < back + 10 ^ (hi - lo)
  /\ (amount < 10 ^ (hi - lo) -> down = 0).
Proof.
  intros Ha Hle down back. subst down back.
  destruct (Z.eq_dec lo hi) as [->|Hne].
  - unfold convertTokenDecimals. rewrite Z.eqb_refl, Z.sub_diag.
    change (10 ^ 0) with 1. lia.
  - rewrite (convert_down amount lo hi), (convert_up _ lo hi) by lia.
    pose proof (pow10_pos (hi - lo) ltac:(lia)) as Hpos.
    rewrite Z.quot_div_nonneg by lia.
    set (u := 10 ^ (hi - lo)) in *.
    pose proof (Z.div_mod amount u ltac:(lia)).
    pose proof (Z.mod_pos_bound amount u Hpos).
    assert (0 <= amount / u) by (apply Z.div_pos; lia).
    repeat split; try nia; intros Hsmall; apply Z.div_small; lia.
Qed.

Lemma convertTokenDecimals_down_truncates_witness :
  convertTokenDecimals (convertTokenDecimals 1999 18 16) 16 18 <= 1999
  /\ convertTokenDecimals 99 18 16 = 0.
Proof.
  split.
  - apply (convertTokenDecimals_down_truncates 1999 16 18); lia.
  - apply (convertTokenDecimals_down_truncates 99 16 18); lia.
Defined.

End DecimalsFacts.

(** ** The order of the amount PCTs *)

Section BalanceOrder.
Context (C : Crypto) (self : EERC).

(** What the accumulation loop of [calculateTotalBalance] ends with: the
    sum, once every decryption gave a field; a [TypeError] otherwise. *)
Lemma addAssign_loop (l : list AmountPCT) :
  forall acc,
    fold_left (fun acc a => Engine.addAssign acc (Engine.decryptPCT C self (pct a)))
              l acc
    = match acc with
      | Err e => Err e
      | Ok t =>
          if forallb (fun a => match Engine.decryptPCT C self (pct a) with
                               | Some _ => true | None => false end) l
          then Ok (t + fold_right Z.add 0
                         (map (fun a => match Engine.decryptPCT C self (pct a) with
                                        | Some v => v | None => 0 end) l))
          else Err TypeError
      end.
Proof.
  induction l as [|a l IH]; intros acc; cbn [fold_left forallb map fold_right].
  - destruct acc; [f_equal; lia|reflexivity].
  - rewrite IH. destruct acc as [t|e]; cbn [Engine.addAssign]; [|reflexivity].
    destruct (Engine.decryptPCT C self (pct a)) as [v|]; cbn [andb].
    + destruct (forallb _ l); [f_equal; lia|reflexivity].
    + reflexivity.
Qed.

(** X8. The result of [calculateTotalBalance] does not depend on the order
    of the amount PCTs. *)
Theorem calculateTotalBalance_order (eGCT : EGCT) (l l' : list AmountPCT)
    (balancePCT : option (list Z)) :
  Permutation.Permutation l l' ->
  Engine.calculateTotalBalance C self eGCT l balancePCT
  = Engine.calculateTotalBalance C self eGCT l' balancePCT.
Proof.
  intros Hperm. unfold Engine.calculateTotalBalance.
  rewrite !addAssign_loop.
  set (ok := fun a => match Engine.decryptPCT C self (pct a) with
                      | Some _ => true | None => false end).
  set (val := fun a => match Engine.decryptPCT C self (pct a) with
                       | Some v => v | None => 0 end).
  assert (Hall : forallb ok l = forallb ok l').
  { induction Hperm; cbn [forallb]; try congruence.
    now rewrite !andb_assoc, (andb_comm (ok y)). }
  assert (Hsum : fold_right Z.add 0 (map val l) = fold_right Z.add 0 (map val l')).
  { clear Hall. induction Hperm as [|x k k' _ IH|x y k|k k' k'' _ IH1 _ IH2].
    - reflexivity.
    - cbn [map fold_right]. now rewrite IH.
    - cbn [map fold_right]. generalize (fold_right Z.add 0 (map val k)).
      intros z. lia.
    - now rewrite IH1. }
  now rewrite Hall, Hsum.
Qed.

End BalanceOrder.

Lemma calculateTotalBalance_order_witness :
  Engine.calculateTotalBalance Scenario.crypto Scenario.standalone
    Scenario.egct100 Scenario.amountPCTs30 (Some Scenario.balancePCT70)
  = Engine.calculateTotalBalance Scenario.crypto Scenario.standalone
      Scenario.egct100 (rev Scenario.amountPCTs30) (Some Scenario.balancePCT70).
Proof.
  apply (calculateTotalBalance_order Scenario.crypto Scenario.standalone).
  apply Permutation.Permutation_rev.
Defined.

(** ** More on the operation engine *)

Module EngineMoreFacts.
Import Engine EngineFacts EngineMore.

Lemma mapResult_pad32_error (l : list (option Z)) (e : Error) :
  mapResult pad32 l = Err e -> e = TypeError \/ e = SizeExceedsPaddingSize.
Proof.
  induction l as [|x r IH]; cbn [mapResult]; [discriminate|].
  unfold pad32 at 1. destruct x as [v|].
  - destruct ((0 <=? v) && (v <? 2 ^ 256)).
    + destruct (mapResult pad32 r); [discriminate|]. intros [= <-]. now apply IH.
    + intros [= <-]. now right.
  - intros [= <-]. now left.
Qed.

Lemma encryptedMessageFor_error (H : Host) (pk : list Z)
    (message : option Platform.ustring) (w : World) (e : Error) :
  snd (encryptedMessageFor H pk message w) = Err e -> layoutError e.
Proof.
  unfold encryptedMessageFor, encryptMetadata, layoutError.
  destruct message as [[|c r]|]; try discriminate.
  destruct (Metadata.str2int (c :: r)) as [[elements len]|].
  - monad. destruct (processPoseidonEncryption H (trace w) elements pk).
    + cbn [snd]. unfold liftResult. cbn [snd]. intros He.
      apply mapResult_pad32_error in He. tauto.
    + cbn [snd]. intros [= <-]. right. right. right. now eexists.
  - cbn. intros [= <-]. now left.
Qed.

(** A call to [encryptedMessageFor] met in a goal, replaced by its effect. *)
Ltac message_step :=
  match goal with
  | |- context [encryptedMessageFor ?H' ?pk ?m ?w0] =>
      let evs := fresh "evs" in
      let Htr := fresh "Htr" in
      let Hself := fresh "Hself" in
      let Hevs := fresh "Hevs" in
      let Herr := fresh "Herr" in
      let s1 := fresh "s" in
      let t1 := fresh "t" in
      let r1 := fresh "r" in
      destruct (encryptedMessageFor_effect H' pk m w0)
        as (evs & Htr & Hself & Hevs);
      pose proof (encryptedMessageFor_error H' pk m w0) as Herr;
      destruct (encryptedMessageFor H' pk m w0) as [[s1 t1] r1];
      cbn [fst snd self trace] in Htr, Hself, Herr; subst s1 t1
  end.

(** An error of the message layout is no error of the engine's own checks. *)
Ltac layout_error :=
  match goal with
  | Herr : forall e, Err ?x = Err e -> layoutError e |- _ =>
      let Hl := fresh "Hl" in
      pose proof (Herr _ eq_refl) as Hl;
      destruct Hl as [Hl|[Hl|[Hl|[? Hl]]]]; subst; try discriminate
  end.

Lemma nullifierOf_error (C : Crypto) (chainId : Z) (l : list Z) (e : Error) :
  nullifierOf C chainId l = Err e -> e = PoseidonInputCount.
Proof.
  unfold nullifierOf.
  destruct l as [|a0 [|a1 [|a2 [|a3 [|a4 r]]]]]; congruence.
Qed.

Ltac nullifier_error :=
  match goal with
  | Hn : nullifierOf _ _ _ = Err _ |- _ =>
      apply nullifierOf_error in Hn; subst; try discriminate
  end.

Ltac steps := repeat (first [message_step | branch]).

(** Negated tests, read as tests. *)
Ltac bools :=
  repeat match goal with
         | Hb : negb _ = true |- _ => apply negb_true_iff in Hb
         | Hb : negb _ = false |- _ => apply negb_false_iff in Hb
         end.

Ltac no_message Hin :=
  match goal with
  | Hevs : forall ev, In ev ?evs -> _ |- _ =>
      match type of Hin with
      | In _ evs => destruct (Hevs _ Hin) as [? ?]; discriminate
      end
  end.

Section WithHost.
Context (C : Crypto) (H : Host).

(** *** Modes *)

Lemma privateMint_mode (recipient : string) (mintAmount : Z)
    (aud : list Z) (message : option Platform.ustring) (w : World) :
  snd (privateMint C H recipient mintAmount aud message w)
  = Err NotAllowedForConverter
  <-> isConverter (self w) = true.
Proof.
  unfold privateMint, validateAddress, validateAmount, generateProof,
    fetchPublicKey.
  monad. steps; split; intros Hx; try discriminate Hx; try reflexivity;
    try congruence; first [layout_error | nullifier_error].
Qed.

Lemma privateBurn_mode (amount : Z) (eb : list Z) (bal : Z) (aud : list Z)
    (message : option Platform.ustring) (w : World) :
  snd (privateBurn C H amount eb bal aud message w)
  = Err NotAllowedForConverter
  <-> isConverter (self w) = true.
Proof.
  unfold privateBurn, validateAmount, generateProof.
  monad. steps; split; intros Hx; try discriminate Hx; try reflexivity;
    try congruence; try layout_error.
Qed.

Lemma withdraw_mode (amount : Z) (eb : list Z) (bal : Z) (aud : list Z)
    (tokenAddress : string) (message : option Platform.ustring) (w : World) :
  snd (withdraw C H amount eb bal aud tokenAddress message w)
  = Err NotAllowedForStandAlone
  <-> isConverter (self w) = false.
Proof.
  unfold withdraw, validateAmount, generateProof, fetchTokenId.
  monad. steps; bools; split; intros Hx; try discriminate Hx;
    try reflexivity; try congruence; try layout_error.
Qed.

Lemma transfer_any_mode (to : string) (amount : Z) (eb : list Z) (bal : Z)
    (aud : list Z) (tokenAddress : option string)
    (message : option Platform.ustring) (w : World) (e : Error) :
  snd (transfer C H to amount eb bal aud tokenAddress message w) = Err e ->
  rootCause e <> NotAllowedForConverter
  /\ rootCause e <> NotAllowedForStandAlone.
Proof.
  unfold transfer, generateTransferProof, validateAddress, validateAmount,
    generateProof, fetchPublicKey, fetchTokenId.
  monad. steps; intros [= <-]; cbn [rootCause]; try (split; discriminate);
    layout_error; cbn [rootCause]; split; discriminate.
Qed.

(** X9. The mode gates: [privateMint] and [privateBurn] throw "Not allowed
    for converter!" exactly when the instance is in converter mode, [withdraw]
    throws "Not allowed for stand alone!" exactly when it is not, and in each
    case nothing has been asked of the host; [transfer] is refused in neither
    mode. *)
Theorem mode_gates (w : World) :
  (forall recipient mintAmount aud message,
     (snd (privateMint C H recipient mintAmount aud message w)
      = Err NotAllowedForConverter
      <-> isConverter (self w) = true)
     /\ (isConverter (self w) = true ->
         fst (privateMint C H recipient mintAmount aud message w) = w))
  /\ (forall amount eb bal aud message,
        (snd (privateBurn C H amount eb bal aud message w)
         = Err NotAllowedForConverter
         <-> isConverter (self w) = true)
        /\ (isConverter (self w) = true ->
            fst (privateBurn C H amount eb bal aud message w) = w))
  /\ (forall amount eb bal aud tokenAddress message,
        (snd (withdraw C H amount eb bal aud tokenAddress message w)
         = Err NotAllowedForStandAlone
         <-> isConverter (self w) = false)
        /\ (isConverter (self w) = false ->
            fst (withdraw C H amount eb bal aud tokenAddress message w) = w))
  /\ (forall to amount eb bal aud tokenAddress message e,
        snd (transfer C H to amount eb bal aud tokenAddress message w) = Err e ->
        rootCause e <> NotAllowedForConverter
        /\ rootCause e <> NotAllowedForStandAlone).
Proof.
  split; [|split; [|split]].
  - intros. split; [apply privateMint_mode|].
    intros Hc. unfold privateMint. monad. now rewrite Hc.
  - intros. split; [apply privateBurn_mode|].
    intros Hc. unfold privateBurn. monad. now rewrite Hc.
  - intros. split; [apply withdraw_mode|].
    intros Hc. unfold withdraw. monad. now rewrite Hc.
  - intros. eapply transfer_any_mode. eassumption.
Qed.

(** *** Validation *)

(** The errors of the address and amount checks. *)
Ltac validation_goal :=
  intros [= <-]; cbn [rootCause]; intros [Hc|[Hc|Hc]];
  try discriminate Hc;
  try (layout_error; cbn [rootCause] in Hc; discriminate Hc);
  try (nullifier_error; cbn [rootCause] in Hc; discriminate Hc);
  bools; try (split; [reflexivity|]; auto).

Lemma transfer_validation (to : string) (amount : Z) (eb : list Z) (bal : Z)
    (aud : list Z) (tokenAddress : option string)
    (message : option Platform.ustring) (w : World) (e : Error) :
  snd (transfer C H to amount eb bal aud tokenAddress message w) = Err e ->
  rootCause e = InvalidAddress \/ rootCause e = InvalidAmount
  \/ rootCause e = InsufficientBalance ->
  fst (transfer C H to amount eb bal aud tokenAddress message w) = w
  /\ ((e = InvalidAddress /\ isAddress H to = false)
      \/ (isAddress H to = true /\ validateAmount amount (Some bal) = Err e)).
Proof.
  unfold transfer, generateTransferProof, validateAddress, validateAmount,
    generateProof, fetchPublicKey, fetchTokenId.
  monad. steps; validation_goal.
Qed.

Lemma withdraw_validation (amount : Z) (eb : list Z) (bal : Z) (aud : list Z)
    (tokenAddress : string) (message : option Platform.ustring) (w : World)
    (e : Error) :
  snd (withdraw C H amount eb bal aud tokenAddress message w) = Err e ->
  rootCause e = InvalidAddress \/ rootCause e = InvalidAmount
  \/ rootCause e = InsufficientBalance ->
  fst (withdraw C H amount eb bal aud tokenAddress message w) = w
  /\ isConverter (self w) = true
  /\ validateAmount amount (Some bal) = Err e.
Proof.
  unfold withdraw, validateAmount, generateProof, fetchTokenId.
  monad. steps; validation_goal.
Qed.

Lemma privateBurn_validation (amount : Z) (eb : list Z) (bal : Z)
    (aud : list Z) (message : option Platform.ustring) (w : World)
    (e : Error) :
  snd (privateBurn C H amount eb bal aud message w) = Err e ->
  rootCause e = InvalidAddress \/ rootCause e = InvalidAmount
  \/ rootCause e = InsufficientBalance ->
  fst (privateBurn C H amount eb bal aud message w) = w
  /\ isConverter (self w) = false
  /\ validateAmount amount (Some bal) = Err e.
Proof.
  unfold privateBurn, validateAmount, generateProof.
  monad. steps; validation_goal.
Qed.

Lemma privateMint_validation (recipient : string) (mintAmount : Z)
    (aud : list Z) (message : option Platform.ustring) (w : World)
    (e : Error) :
  snd (privateMint C H recipient mintAmount aud message w) = Err e ->
  rootCause e = InvalidAddress \/ rootCause e = InvalidAmount
  \/ rootCause e = InsufficientBalance ->
  fst (privateMint C H recipient mintAmount aud message w) = w
  /\ isConverter (self w) = false
  /\ ((e = InvalidAddress /\ isAddress H recipient = false)
      \/ (isAddress H recipient = true
          /\ e = InvalidAmount /\ mintAmount <= 0)).
Proof.
  unfold privateMint, validateAddress, validateAmount, generateProof,
    fetchPublicKey.
  monad. steps; validation_goal.
  all: split; [reflexivity|]; right; repeat split; auto; now apply Z.leb_le.
Qed.

(** X10. Validation comes first.  Whenever [transfer], [withdraw],
    [privateBurn] or [privateMint] throws "Invalid address!", "Invalid
    amount!" or "Insufficient balance!", it is the operation's own opening
    check that threw -- never the second pass inside [generateTransferProof]
    -- and nothing has been asked of the host or written to the instance.
    [privateMint] checks no balance: it never throws "Insufficient
    balance!". *)
Theorem validation_comes_first (w : World) (e : Error) :
  rootCause e = InvalidAddress \/ rootCause e = InvalidAmount
  \/ rootCause e = InsufficientBalance ->
  (forall to amount eb bal aud tokenAddress message,
     snd (transfer C H to amount eb bal aud tokenAddress message w) = Err e ->
     fst (transfer C H to amount eb bal aud tokenAddress message w) = w
     /\ ((e = InvalidAddress /\ isAddress H to = false)
         \/ (isAddress H to = true
             /\ validateAmount amount (Some bal) = Err e)))
  /\ (forall amount eb bal aud tokenAddress message,
        snd (withdraw C H amount eb bal aud tokenAddress message w) = Err e ->
        fst (withdraw C H amount eb bal aud tokenAddress message w) = w
        /\ isConverter (self w) = true
        /\ validateAmount amount (Some bal) = Err e)
  /\ (forall amount eb bal aud message,
        snd (privateBurn C H amount eb bal aud message w) = Err e ->
        fst (privateBurn C H amount eb bal aud message w) = w
        /\ isConverter (self w) = false
        /\ validateAmount amount (Some bal) = Err e)
  /\ (forall recipient mintAmount aud message,
        snd (privateMint C H recipient mintAmount aud message w) = Err e ->
        fst (privateMint C H recipient mintAmount aud message w) = w
        /\ isConverter (self w) = false
        /\ ((e = InvalidAddress /\ isAddress H recipient = false)
            \/ (isAddress H recipient = true
                /\ e = InvalidAmount /\ mintAmount <= 0))).
Proof.
  intros Hroot. split; [|split; [|split]]; intros.
  - now apply transfer_validation.
  - now apply withdraw_validation.
  - now apply privateBurn_validation.
  - now apply privateMint_validation.
Qed.

(** *** From the proof to the transaction *)

Lemma submissions_app (a b : list Event) :
  submissions (a ++ b) = submissions a ++ submissions b.
Proof. apply filter_app. Qed.

(** The events of an optional message are no submissions. *)
Lemma submissions_message (evs : list Event) (pk : list Z) :
  (forall ev, In ev evs -> exists inputs, ev = PoseidonEncryption inputs pk) ->
  submissions evs = [].
Proof.
  induction evs as [|ev r IH]; intros Hevs; [reflexivity|].
  destruct (Hevs ev (or_introl eq_refl)) as [inputs ->].
  cbn. apply IH. intros ev Hin. apply Hevs. now right.
Qed.

Lemma submitted_after (s : EERC) (op : Operation) (t1 t2 : list Event)
    (input : Witness) (proof : eERC_Proof) (call request : ContractCall)
    (hash : string) :
  submissions t2 = [] ->
  fullProve H t1 op input (wasm (circuitURL s op)) (zkey (circuitURL s op))
  = Answer proof ->
  In (AProof proof) (call_args call) ->
  call_account call = walletAddress s ->
  simulateContract H ((t1 ++ [FullProve op input]) ++ t2) call
  = Answer request ->
  writeContract H (((t1 ++ [FullProve op input]) ++ t2)
                     ++ [SimulateContract call]) request
  = Answer hash ->
  submitted H s op (call_functionName call) (call_address call)
            ((((t1 ++ [FullProve op input]) ++ t2)
                ++ [SimulateContract call]) ++ [WriteContract request])
            hash.
Proof.
  intros Ht2 Hp Hin Hacc Hsim Hw.
  exists t1, t2, input, proof, call, request.
  repeat rewrite <- app_assoc in *. cbn [app] in *.
  repeat split; assumption.
Qed.

Lemma submitted_direct (s : EERC) (op : Operation) (t1 : list Event)
    (input : Witness) (proof : eERC_Proof) (call request : ContractCall)
    (hash : string) :
  fullProve H t1 op input (wasm (circuitURL s op)) (zkey (circuitURL s op))
  = Answer proof ->
  In (AProof proof) (call_args call) ->
  call_account call = walletAddress s ->
  simulateContract H (t1 ++ [FullProve op input]) call = Answer request ->
  writeContract H ((t1 ++ [FullProve op input])
                     ++ [SimulateContract call]) request
  = Answer hash ->
  submitted H s op (call_functionName call) (call_address call)
            (((t1 ++ [FullProve op input])
                ++ [SimulateContract call]) ++ [WriteContract request])
            hash.
Proof.
  intros Hp Hin Hacc Hsim Hw.
  pose proof (submitted_after s op t1 [] input proof call request hash) as Ha.
  rewrite !app_nil_r in Ha. now apply Ha.
Qed.

(** The proof is among the arguments, with or without a message. *)
Ltac proof_argument :=
  cbn [call_args]; match goal with
  | |- context [hasMessage ?m] => destruct (hasMessage m)
  | _ => idtac
  end; cbn [In]; tauto.

Ltac submitted_goal :=
  first [ eapply submitted_direct | eapply submitted_after ];
  first [ eassumption | reflexivity | proof_argument ].

Lemma withdraw_submitted (amount : Z) (eb : list Z) (bal : Z) (aud : list Z)
    (tokenAddress : string) (message : option Platform.ustring) (w : World)
    (hash : string) :
  snd (withdraw C H amount eb bal aud tokenAddress message w) = Ok hash ->
  submitted H (self w) WITHDRAW "withdraw" (contractAddress (self w))
    (trace (fst (withdraw C H amount eb bal aud tokenAddress message w))) hash.
Proof.
  unfold withdraw, generateProof, fetchTokenId.
  monad. steps; intros Hok; try discriminate Hok.
  all: injection Hok as <-.

  all: submitted_goal.
Qed.

Lemma transfer_submitted (to : string) (amount : Z) (eb : list Z) (bal : Z)
    (aud : list Z) (tokenAddress : option string)
    (message : option Platform.ustring) (w : World) (hash : string)
    (rpct spct : list Z) :
  snd (transfer C H to amount eb bal aud tokenAddress message w)
  = Ok (hash, rpct, spct) ->
  submitted H (self w) TRANSFER "transfer" (contractAddress (self w))
    (trace (fst (transfer C H to amount eb bal aud tokenAddress message w)))
    hash.
Proof.
  unfold transfer, generateTransferProof, validateAddress, generateProof,
    fetchPublicKey, fetchTokenId.
  monad. steps; intros Hok; try discriminate Hok.
  all: injection Hok as <- <- <-.
  all: submitted_goal.
Qed.

Lemma privateBurn_submitted (amount : Z) (eb : list Z) (bal : Z)
    (aud : list Z) (message : option Platform.ustring) (w : World)
    (hash : string) :
  snd (privateBurn C H amount eb bal aud message w) = Ok hash ->
  submitted H (self w) BURN "privateBurn" (contractAddress (self w))
    (trace (fst (privateBurn C H amount eb bal aud message w))) hash.
Proof.
  unfold privateBurn, generateProof.
  monad. steps; intros Hok; try discriminate Hok.
  all: injection Hok as <-.
  all: submitted_goal.
Qed.

Lemma privateMint_submitted (recipient : string) (mintAmount : Z)
    (aud : list Z) (message : option Platform.ustring) (w : World)
    (hash : string) :
  snd (privateMint C H recipient mintAmount aud message w) = Ok hash ->
  submitted H (self w) MINT "privateMint" (contractAddress (self w))
    (trace (fst (privateMint C H recipient mintAmount aud message w))) hash.
Proof.
  unfold privateMint, validateAddress, generateProof, fetchPublicKey.
  monad. steps; intros Hok; try discriminate Hok.
  all: injection Hok as <-.
  all: submitted_goal.
Qed.

(** X11. From the proof to the transaction.  When [transfer], [withdraw],
    [privateBurn] or [privateMint] returns a transaction hash, the history
    ends with the prover's answer for the operation's own circuit, then the
    simulation of a call to the contract function of the same name that
    carries this very proof and comes from the instance's account, then the
    write of the request that the simulation returned; the hash is the
    wallet's answer to that write.  Between the proof and the simulation
    nothing else is submitted. *)
Theorem hash_comes_from_proved_call (w : World) (hash : string) :
  (forall to amount eb bal aud tokenAddress message rpct spct,
     snd (transfer C H to amount eb bal aud tokenAddress message w)
     = Ok (hash, rpct, spct) ->
     submitted H (self w) TRANSFER "transfer" (contractAddress (self w))
       (trace (fst (transfer C H to amount eb bal aud tokenAddress message w)))
       hash)
  /\ (forall amount eb bal aud tokenAddress message,
        snd (withdraw C H amount eb bal aud tokenAddress message w) = Ok hash ->
        submitted H (self w) WITHDRAW "withdraw" (contractAddress (self w))
          (trace (fst (withdraw C H amount eb bal aud tokenAddress message w)))
          hash)
  /\ (forall amount eb bal aud message,
        snd (privateBurn C H amount eb bal aud message w) = Ok hash ->
        submitted H (self w) BURN "privateBurn" (contractAddress (self w))
          (trace (fst (privateBurn C H amount eb bal aud message w))) hash)
  /\ (forall recipient mintAmount aud message,
        snd (privateMint C H recipient mintAmount aud message w) = Ok hash ->
        submitted H (self w) MINT "privateMint" (contractAddress (self w))
          (trace (fst (privateMint C H recipient mintAmount aud message w)))
          hash).
Proof.
  split; [|split; [|split]]; intros.
  - eapply transfer_submitted; eassumption.
  - now apply withdraw_submitted.
  - now apply privateBurn_submitted.
  - now apply privateMint_submitted.
Qed.

(** *** At most one proof, one simulation, one write *)

(** The events that a path added to the history. *)
Ltac added_events :=
  first [ exists []; split; [symmetry; apply app_nil_r|]
        | eexists; split; [repeat rewrite <- app_assoc; reflexivity|] ].

Ltac count_submissions :=
  repeat rewrite submissions_app;
  repeat match goal with
         | Hevs : forall ev, In ev ?evs -> _ |- context [submissions ?evs] =>
             rewrite (submissions_message evs _ Hevs)
         end;
  cbn [submissions filter isSubmission app].

Ltac in_order := added_events; count_submissions; unfold inOrder; eauto 10.

Lemma transfer_inOrder (to : string) (amount : Z) (eb : list Z) (bal : Z)
    (aud : list Z) (tokenAddress : option string)
    (message : option Platform.ustring) (w : World) :
  exists added,
    trace (fst (transfer C H to amount eb bal aud tokenAddress message w))
    = trace w ++ added
    /\ inOrder TRANSFER (submissions added).
Proof.
  unfold transfer, generateTransferProof, validateAddress, generateProof,
    fetchPublicKey, fetchTokenId.
  monad. steps; in_order.
Qed.

Lemma withdraw_inOrder (amount : Z) (eb : list Z) (bal : Z) (aud : list Z)
    (tokenAddress : string) (message : option Platform.ustring) (w : World) :
  exists added,
    trace (fst (withdraw C H amount eb bal aud tokenAddress message w))
    = trace w ++ added
    /\ inOrder WITHDRAW (submissions added).
Proof.
  unfold withdraw, generateProof, fetchTokenId.
  monad. steps; in_order.
Qed.

Lemma privateBurn_inOrder (amount : Z) (eb : list Z) (bal : Z)
    (aud : list Z) (message : option Platform.ustring) (w : World) :
  exists added,
    trace (fst (privateBurn C H amount eb bal aud message w))
    = trace w ++ added
    /\ inOrder BURN (submissions added).
Proof.
  unfold privateBurn, generateProof.
  monad. steps; in_order.
Qed.

Lemma privateMint_inOrder (recipient : string) (mintAmount : Z)
    (aud : list Z) (message : option Platform.ustring) (w : World) :
  exists added,
    trace (fst (privateMint C H recipient mintAmount aud message w))
    = trace w ++ added
    /\ inOrder MINT (submissions added).
Proof.
  unfold privateMint, validateAddress, generateProof, fetchPublicKey.
  monad. steps; in_order.
Qed.

Lemma register_inOrder (w : World) :
  exists added,
    trace (fst (register C H w)) = trace w ++ added
    /\ inOrder REGISTER (submissions added).
Proof.
  unfold register, generateDecryptionKey, generateProof, fetchPublicKey.
  monad. steps; in_order.
Qed.

Lemma generateDecryptionKey_inOrder (w : World) :
  exists added,
    trace (fst (generateDecryptionKey C H w)) = trace w ++ added
    /\ submissions added = [].
Proof.
  unfold generateDecryptionKey.
  monad. steps; added_events; reflexivity.
Qed.

(** X12. Whatever its outcome, an operation only adds to the history, and
    what it adds holds at most one call of the prover, for the operation's
    own circuit, at most one simulation and at most one write, in this
    order: nothing is simulated without a proof, nothing is written that was
    not simulated, and nothing is retried.  [generateDecryptionKey] submits
    nothing. *)
Theorem one_proof_one_simulation_one_write (w : World) :
  (forall to amount eb bal aud tokenAddress message,
     exists added,
       trace (fst (transfer C H to amount eb bal aud tokenAddress message w))
       = trace w ++ added
       /\ inOrder TRANSFER (submissions added))
  /\ (forall amount eb bal aud tokenAddress message,
        exists added,
          trace (fst (withdraw C H amount eb bal aud tokenAddress message w))
          = trace w ++ added
          /\ inOrder WITHDRAW (submissions added))
  /\ (forall amount eb bal aud message,
        exists added,
          trace (fst (privateBurn C H amount eb bal aud message w))
          = trace w ++ added
          /\ inOrder BURN (submissions added))
  /\ (forall recipient mintAmount aud message,
        exists added,
          trace (fst (privateMint C H recipient mintAmount aud message w))
          = trace w ++ added
          /\ inOrder MINT (submissions added))
  /\ (exists added,
        trace (fst (register C H w)) = trace w ++ added
        /\ inOrder REGISTER (submissions added))
  /\ (exists added,
        trace (fst (generateDecryptionKey C H w)) = trace w ++ added
        /\ submissions added = []).
Proof.
  repeat split; intros;
    auto using transfer_inOrder, withdraw_inOrder, privateBurn_inOrder,
      privateMint_inOrder, register_inOrder, generateDecryptionKey_inOrder.
Qed.

(** *** Missing circuit assets *)

(** A path on which both assets were found, although one is missing. *)
Ltac asset_found Hurl :=
  match goal with
  | Hb : negb (truthyStr ?a) || negb (truthyStr ?b) = false |- _ =>
      exfalso; apply orb_false_elim in Hb; destruct Hb as [Hb1 Hb2];
      apply negb_false_iff in Hb1; apply negb_false_iff in Hb2;
      unfold assetMissing in Hurl; cbn [circuitURL circuitURLs] in *;
      destruct Hurl; congruence
  end.

Ltac not_proved Hurl :=
  first [ asset_found Hurl
        | split; [reflexivity|];
          added_events; count_submissions; reflexivity ].

Lemma transfer_asset_missing (to : string) (amount : Z) (eb : list Z)
    (bal : Z) (aud : list Z) (tokenAddress : option string)
    (message : option Platform.ustring) (w : World) :
  assetMissing (self w) TRANSFER ->
  isOk (snd (transfer C H to amount eb bal aud tokenAddress message w)) = false
  /\ exists added,
       trace (fst (transfer C H to amount eb bal aud tokenAddress message w))
       = trace w ++ added
       /\ submissions added = [].
Proof.
  intros Hurl.
  unfold transfer, generateTransferProof, validateAddress, generateProof,
    fetchPublicKey, fetchTokenId.
  monad. steps; not_proved Hurl.
Qed.

Lemma withdraw_asset_missing (amount : Z) (eb : list Z) (bal : Z)
    (aud : list Z) (tokenAddress : string)
    (message : option Platform.ustring) (w : World) :
  assetMissing (self w) WITHDRAW ->
  isOk (snd (withdraw C H amount eb bal aud tokenAddress message w)) = false
  /\ exists added,
       trace (fst (withdraw C H amount eb bal aud tokenAddress message w))
       = trace w ++ added
       /\ submissions added = [].
Proof.
  intros Hurl. unfold withdraw, generateProof, fetchTokenId.
  monad. steps; not_proved Hurl.
Qed.

Lemma privateBurn_asset_missing (amount : Z) (eb : list Z) (bal : Z)
    (aud : list Z) (message : option Platform.ustring) (w : World) :
  assetMissing (self w) BURN ->
  isOk (snd (privateBurn C H amount eb bal aud message w)) = false
  /\ exists added,
       trace (fst (privateBurn C H amount eb bal aud message w))
       = trace w ++ added
       /\ submissions added = [].
Proof.
  intros Hurl. unfold privateBurn, generateProof.
  monad. steps; not_proved Hurl.
Qed.

Lemma privateMint_asset_missing (recipient : string) (mintAmount : Z)
    (aud : list Z) (message : option Platform.ustring) (w : World) :
  assetMissing (self w) MINT ->
  isOk (snd (privateMint C H recipient mintAmount aud message w)) = false
  /\ exists added,
       trace (fst (privateMint C H recipient mintAmount aud message w))
       = trace w ++ added
       /\ submissions added = [].
Proof.
  intros Hurl. unfold privateMint, validateAddress, generateProof,
    fetchPublicKey.
  monad. steps; not_proved Hurl.
Qed.

Lemma register_asset_missing (w : World) :
  assetMissing (self w) REGISTER ->
  (forall key hash,
     snd (register C H w) = Ok (key, hash) -> hash = EmptyString)
  /\ exists added,
       trace (fst (register C H w)) = trace w ++ added
       /\ submissions added = [].
Proof.
  intros Hurl.
  unfold register, generateDecryptionKey, generateProof, fetchPublicKey.
  monad. steps; try asset_found Hurl.
  all: split; [intros key hash Hok; first [discriminate Hok | now injection Hok as <- <-]|].
  all: added_events; count_submissions; reflexivity.
Qed.

(** X13. Missing circuit assets.  When the WASM or the ZKey path of an
    operation's circuit is empty, the operation never succeeds and the
    prover is never called, nothing is simulated and nothing is written;
    [register] can then only return through its early exit, with an empty
    transaction hash. *)
Theorem missing_asset_stops_before_prover (w : World) :
  (assetMissing (self w) TRANSFER ->
   forall to amount eb bal aud tokenAddress message,
     isOk (snd (transfer C H to amount eb bal aud tokenAddress message w))
     = false
     /\ exists added,
          trace (fst (transfer C H to amount eb bal aud tokenAddress message w))
          = trace w ++ added
          /\ submissions added = [])
  /\ (assetMissing (self w) WITHDRAW ->
      forall amount eb bal aud tokenAddress message,
        isOk (snd (withdraw C H amount eb bal aud tokenAddress message w))
        = false
        /\ exists added,
             trace (fst (withdraw C H amount eb bal aud tokenAddress message w))
             = trace w ++ added
             /\ submissions added = [])
  /\ (assetMissing (self w) BURN ->
      forall amount eb bal aud message,
        isOk (snd (privateBurn C H amount eb bal aud message w)) = false
        /\ exists added,
             trace (fst (privateBurn C H amount eb bal aud message w))
             = trace w ++ added
             /\ submissions added = [])
  /\ (assetMissing (self w) MINT ->
      forall recipient mintAmount aud message,
        isOk (snd (privateMint C H recipient mintAmount aud message w)) = false
        /\ exists added,
             trace (fst (privateMint C H recipient mintAmount aud message w))
             = trace w ++ added
             /\ submissions added = [])
  /\ (assetMissing (self w) REGISTER ->
      (forall key hash,
         snd (register C H w) = Ok (key, hash) -> hash = EmptyString)
      /\ exists added,
           trace (fst (register C H w)) = trace w ++ added
           /\ submissions added = []).
Proof.
  split; [|split; [|split; [|split]]]; intros Hurl; intros.
  - now apply transfer_asset_missing.
  - now apply withdraw_asset_missing.
  - now apply privateBurn_asset_missing.
  - now apply privateMint_asset_missing.
  - now apply register_asset_missing.
Qed.

(** *** Registration *)

Lemma register_result (w : World) (key hash : string) :
  snd (register C H w) = Ok (key, hash) ->
  snd (generateDecryptionKey C H w) = Ok key
  /\ self (fst (register C H w)) = withKey C (self w) key
  /\ exists address pk,
       walletAddress (self w) = Some address
       /\ snd (fetchPublicKey H address (fst (generateDecryptionKey C H w)))
          = Ok pk
       /\ if negb (isZeroAt pk 0) && negb (isZeroAt pk 1)
          then hash = EmptyString
               /\ trace (fst (register C H w))
                  = trace (fst (fetchPublicKey H address
                                  (fst (generateDecryptionKey C H w))))
          else submitted H (self w) REGISTER "register"
                 (registrarAddress (self w)) (trace (fst (register C H w)))
                 hash.
Proof.
  unfold register, generateDecryptionKey, generateProof, fetchPublicKey.
  monad. steps; intros Hok; try discriminate Hok.
  all: injection Hok as <- <-.
  all: same_values;
    repeat match goal with
           | H1 : ?x = Answer _, H2 : ?x = Answer _ |- _ =>
               rewrite H1 in H2; injection H2 as <-
           end;
    try congruence.
  all: split; [reflexivity|]; split; [reflexivity|].
  all: match goal with
       | Ha : accountAddress _ = Some ?a |- _ =>
           exists a; eexists; split; [now apply accountAddress_Some|]
       end.
  all: match goal with
       | Hb : String.eqb _ BURN_USER_address = _ |- _ => rewrite Hb
       end; monad.
  all: repeat match goal with
              | Hg : getUserPublicKey _ _ _ _ = _ |- _ => rewrite Hg
              end; monad.
  all: split; [reflexivity|].
  all: match goal with
       | Hb : negb (isZeroAt BURN_USER_publicKey 0) && _ = false |- _ =>
           discriminate Hb
       | Hb : negb (isZeroAt _ 0) && _ = _ |- _ => rewrite Hb
       end.
  all: first [ split; reflexivity | submitted_goal ].
Qed.

(** X14. The two ways in which [register] succeeds.  It returns the key that
    [generateDecryptionKey] derived and leaves it installed, together with
    its public key.  When both coordinates of the key that the registrar
    holds for the account are non-zero, the account counts as registered:
    the transaction hash is empty and nothing is asked of the host after the
    key was fetched.  Otherwise the hash is that of a [register] transaction
    on the registrar, made from a proof of the REGISTER circuit. *)
Theorem register_outcomes (w : World) (key hash : string) :
  snd (register C H w) = Ok (key, hash) ->
  snd (generateDecryptionKey C H w) = Ok key
  /\ self (fst (register C H w)) = withKey C (self w) key
  /\ exists address pk,
       walletAddress (self w) = Some address
       /\ snd (fetchPublicKey H address (fst (generateDecryptionKey C H w)))
          = Ok pk
       /\ if negb (isZeroAt pk 0) && negb (isZeroAt pk 1)
          then hash = EmptyString
               /\ trace (fst (register C H w))
                  = trace (fst (fetchPublicKey H address
                                  (fst (generateDecryptionKey C H w))))
          else submitted H (self w) REGISTER "register"
                 (registrarAddress (self w)) (trace (fst (register C H w)))
                 hash.
Proof. apply register_result. Qed.


(** X15. A key with exactly one zero coordinate is read in two ways.  For
    [register] the account that holds it is not registered yet: a
    registration that succeeds went through proof and transaction.  For
    [generateTransferProof] the same account is a registered receiver: it is
    never refused as "Receiver is not registered!". *)
Theorem half_zero_key_read_two_ways (pk : list Z) (user : string)
    (w : World) :
  isZeroAt pk 0 <> isZeroAt pk 1 ->
  (forall t registrar, getUserPublicKey H t registrar user = Answer pk) ->
  String.eqb user BURN_USER_address = false ->
  (walletAddress (self w) = Some user ->
   forall key hash,
     snd (register C H w) = Ok (key, hash) ->
     submitted H (self w) REGISTER "register" (registrarAddress (self w))
       (trace (fst (register C H w))) hash)
  /\ (forall amount eb bal aud e,
        snd (generateTransferProof C H user amount eb bal aud w) = Err e ->
        rootCause e <> ReceiverNotRegistered).
Proof.
  intros Hne Hget Hburn. split.
  - intros Hwallet key hash Hok.
    destruct (register_result w key hash Hok)
      as (_ & _ & address & pk' & Ha & Hfetch & Hcases).
    rewrite Hwallet in Ha. injection Ha as <-.
    unfold fetchPublicKey in Hfetch, Hcases. rewrite Hburn in Hfetch, Hcases.
    monad. rewrite Hget in Hfetch. injection Hfetch as <-.
    destruct (isZeroAt pk 0), (isZeroAt pk 1); try congruence; exact Hcases.
  - intros amount eb bal aud e.
    unfold generateTransferProof, validateAddress, validateAmount,
      generateProof, fetchPublicKey.
    rewrite Hburn. monad.
    steps; intros [= <-]; cbn [rootCause]; try discriminate.
    match goal with
    | Hg : getUserPublicKey _ _ _ _ = Answer _ |- _ =>
        rewrite Hget in Hg; injection Hg as <-
    end.
    destruct (isZeroAt pk 0), (isZeroAt pk 1); cbn in *; congruence.
Qed.

(** *** The key pair of the instance *)

Lemma withKey_paired (s : EERC) (key : string) : keysPaired C (withKey C s key).
Proof. now left. Qed.

(** X16. The public key of an instance is always the one of its decryption
    key, unless neither is set: the constructor establishes this, whether it
    is given a key, an empty key or none, and every operation keeps it,
    whatever its outcome. *)
Theorem keys_stay_paired :
  (forall wallet contract registrar converter urls key,
     keysPaired C (construct C wallet contract registrar converter urls key))
  /\ (forall w,
        keysPaired C (self w) ->
        keysPaired C (self (fst (generateDecryptionKey C H w)))
        /\ keysPaired C (self (fst (register C H w)))
        /\ (forall recipient mintAmount aud message,
              keysPaired C
                (self (fst (privateMint C H recipient mintAmount aud message
                                        w))))
        /\ (forall amount eb bal aud message,
              keysPaired C
                (self (fst (privateBurn C H amount eb bal aud message w))))
        /\ (forall to amount eb bal aud tokenAddress message,
              keysPaired C
                (self (fst (transfer C H to amount eb bal aud tokenAddress
                                     message w))))
        /\ (forall amount eb bal aud tokenAddress message,
              keysPaired C
                (self (fst (withdraw C H amount eb bal aud tokenAddress
                                     message w))))).
Proof.
  split.
  - intros. unfold keysPaired, construct, isDecryptionKeySet.
    cbn [decryptionKey publicKey].
    destruct key as [k|]; [destruct (truthyStr k) eqn:Hk|].
    + rewrite Hk. now left.
    + right. now split.
    + right. now split.
  - intros w Hw. repeat split; intros.
    + destruct (generateDecryptionKey_state C H w)
        as [(_ & ->)|(? & ? & ? & _ & _ & _ & ->)];
        [assumption|apply withKey_paired].
    + destruct (register_state C H w) as [(_ & ->)|(? & ? & ? & _ & _ & ->)];
        [assumption|apply withKey_paired].
    + now rewrite privateMint_keeps_state.
    + now rewrite privateBurn_keeps_state.
    + now rewrite transfer_keeps_state.
    + now rewrite withdraw_keeps_state.
Qed.

End WithHost.

End EngineMoreFacts.

(* ================================================================== *)
(** * Part II, continued: what the operations produce *)
(* ================================================================== *)

Module OperationFacts.
Import Engine EngineFacts EngineMore EngineMoreFacts EngineSent.

(** The history up to the last three calls. *)
Lemma last_three {A} (t : list A) (a b c : A) :
  ((t ++ [a]) ++ [b]) ++ [c] = t ++ [a; b; c].
Proof. now rewrite <- !app_assoc. Qed.

Lemma last_two {A} (t : list A) (a b : A) :
  (t ++ [a]) ++ [b] = t ++ [a; b].
Proof. now rewrite <- !app_assoc. Qed.

(** A history written as what came before and what was added. *)
Ltac grown :=
  eexists; repeat first [rewrite <- app_assoc | progress cbn [app]];
  reflexivity.

(** One value for what was read twice. *)
Ltac same_answers :=
  same_values;
  repeat match goal with
         | H1 : ?x = Answer _, H2 : ?x = Answer _ |- _ =>
             rewrite H1 in H2; injection H2 as <-
         end.

Section WithHost.
Context (C : Crypto) (H : Host).

(** *** Minting *)

Lemma privateMint_success (recipient : string) (mintAmount : Z)
    (auditorPublicKey : list Z) (message : option Platform.ustring)
    (w : World) (hash : string) :
  snd (privateMint C H recipient mintAmount auditorPublicKey message w)
  = Ok hash ->
  exists t auditor chainId a0 a1 a2 a3 input proof call request,
    (exists pre, t = trace w ++ pre)
    /\ processPoseidonEncryption H t [mintAmount] auditorPublicKey
       = Answer auditor
    /\ cipher auditor = [a0; a1; a2; a3]
    /\ getChainId H (t ++ [PoseidonEncryption [mintAmount] auditorPublicKey])
       = Answer chainId
    /\ field "ValueToMint" input = Some (VNum mintAmount)
    /\ field "ChainID" input = Some (VNum chainId)
    /\ field "AuditorPublicKey" input = Some (VArr auditorPublicKey)
    /\ field "AuditorPCT" input = Some (VArr [a0; a1; a2; a3])
    /\ field "NullifierHash" input
       = Some (VNum (poseidon5 C chainId a0 a1 a2 a3))
    /\ fullProve H
         (t ++ [PoseidonEncryption [mintAmount] auditorPublicKey; GetChainId])
         MINT input (wasm (circuitURL (self w) MINT))
         (zkey (circuitURL (self w) MINT))
       = Answer proof
    /\ call_functionName call = "privateMint"%string
    /\ In (AProof proof) (call_args call)
    /\ simulateContract H
         (t ++ [PoseidonEncryption [mintAmount] auditorPublicKey; GetChainId;
                FullProve MINT input])
         call
       = Answer request
    /\ writeContract H
         (t ++ [PoseidonEncryption [mintAmount] auditorPublicKey; GetChainId;
                FullProve MINT input; SimulateContract call])
         request
       = Answer hash
    /\ trace (fst (privateMint C H recipient mintAmount auditorPublicKey
                               message w))
       = t ++ [PoseidonEncryption [mintAmount] auditorPublicKey; GetChainId;
               FullProve MINT input; SimulateContract call;
               WriteContract request].
Proof.
  unfold privateMint, validateAddress, generateProof, fetchPublicKey,
    mintInput.
  monad. steps; intros Hok; try discriminate Hok.
  all: injection Hok as <-.
  all: match goal with
       | Hn : nullifierOf _ _ _ = Ok _ |- _ =>
           apply nullifierOf_Ok in Hn as (? & ? & ? & ? & ? & ->)
       end.
  all: match goal with
       | Hc : getChainId H (?t ++ [PoseidonEncryption _ _]) = Answer ?chainId,
         Hp : processPoseidonEncryption H ?t _ _ = Answer ?auditor,
         Hx : cipher ?auditor = [?a0; ?a1; ?a2; ?a3],
         Hf : fullProve H _ MINT ?input _ _ = Answer ?proof,
         Hs : simulateContract H _ ?call = Answer ?request |- _ =>
           exists t, auditor, chainId, a0, a1, a2, a3, input, proof, call,
                  request;
           rewrite Hx in *
       end.
  all: repeat rewrite <- app_assoc in *; cbn [app] in *.
  all: repeat (split; [first [ eassumption | reflexivity | grown
                             | cbn [call_args In]; tauto ]|]).
  all: reflexivity.
Qed.

(** *** The balance PCT of a sending operation that went through *)

Ltac sent_goal :=
  match goal with
  | Hp : processPoseidonEncryption H ?t [_ - _] _ = Answer ?o,
    Hs : simulateContract H ?t2 ?call = Answer ?request |- _ =>
      exists t, o, t2, call, request
  end;
  repeat rewrite <- app_assoc in *; cbn [app] in *;
  repeat (split; [first [ eassumption | reflexivity | grown
                        | exists []; now rewrite app_nil_r ]|]);
  reflexivity.

Lemma transfer_sent (to : string) (amount : Z) (eb : list Z) (bal : Z)
    (aud : list Z) (tokenAddress : option string)
    (message : option Platform.ustring) (w : World) (hash : string)
    (rpct spct : list Z) :
  snd (transfer C H to amount eb bal aud tokenAddress message w)
  = Ok (hash, rpct, spct) ->
  sentBalancePCT H (self w) "transfer" 3 (bal - amount) (trace w)
    (trace (fst (transfer C H to amount eb bal aud tokenAddress message w)))
    hash.
Proof.
  unfold sentBalancePCT, transfer, generateTransferProof, validateAddress,
    generateProof, fetchPublicKey, fetchTokenId, pctFields.
  monad. steps; intros Hok; try discriminate Hok.
  all: injection Hok as <- <- <-.
  all: sent_goal.
Qed.

Lemma withdraw_sent (amount : Z) (eb : list Z) (bal : Z) (aud : list Z)
    (tokenAddress : string) (message : option Platform.ustring) (w : World)
    (hash : string) :
  snd (withdraw C H amount eb bal aud tokenAddress message w) = Ok hash ->
  sentBalancePCT H (self w) "withdraw" 2 (bal - amount) (trace w)
    (trace (fst (withdraw C H amount eb bal aud tokenAddress message w)))
    hash.
Proof.
  unfold sentBalancePCT, withdraw, generateProof, fetchTokenId, pctFields.
  monad. steps; intros Hok; try discriminate Hok.
  all: injection Hok as <-.
  all: sent_goal.
Qed.

Lemma privateBurn_sent (amount : Z) (eb : list Z) (bal : Z) (aud : list Z)
    (message : option Platform.ustring) (w : World) (hash : string) :
  snd (privateBurn C H amount eb bal aud message w) = Ok hash ->
  sentBalancePCT H (self w) "privateBurn" 1 (bal - amount) (trace w)
    (trace (fst (privateBurn C H amount eb bal aud message w))) hash.
Proof.
  unfold sentBalancePCT, privateBurn, generateTransferProof, validateAddress,
    generateProof, fetchPublicKey, pctFields.
  monad. steps; intros Hok; try discriminate Hok.
  all: injection Hok as <-.
  all: sent_goal.
Qed.

(** *** Registration that went through *)


(** *** The instance after [register] *)

(** Once the key was derived, [register] leaves it installed, whatever comes
    of the steps that follow. *)
Lemma register_keeps_derived_key (w : World) (key : string) :
  truthyStr (contractAddress (self w)) = true ->
  snd (generateDecryptionKey C H w) = Ok key ->
  self (fst (register C H w)) = withKey C (self w) key.
Proof.
  unfold register, generateDecryptionKey, generateProof, fetchPublicKey,
    withKey.
  monad. steps; intros Hc Hk; try discriminate Hk; bools; try congruence.
  all: injection Hk as <-; same_answers; try congruence; reflexivity.
Qed.

(** A [register] that throws for another reason than a missing wallet or
    contract address or a failed key generation threw after the key was
    derived. *)
Lemma register_late_failure (w : World) (e : Error) :
  snd (register C H w) = Err e ->
  rootCause e <> MissingClientWalletOrContract ->
  rootCause e <> FailedToGenerateDecryptionKey ->
  exists key,
    snd (generateDecryptionKey C H w) = Ok key
    /\ self (fst (register C H w)) = withKey C (self w) key.
Proof.
  unfold register, generateDecryptionKey, generateProof, fetchPublicKey,
    withKey.
  monad. steps; intros [= <-]; cbn [rootCause]; intros Hm Hf;
    try congruence.
  all: same_answers; try congruence.
  all: eexists; split; reflexivity.
Qed.

(** *** The statements on the operations *)

(** C5. A [privateMint] that returns a transaction hash asked the host for
    the auditor's PCT of the mint amount and for the chain id, and then
    called the prover on the MINT circuit with an input whose [NullifierHash]
    is [poseidon5] of that chain id and of the four ciphertext fields of that
    PCT, which the same input carries as [AuditorPCT]; the proof went into
    the [privateMint] call that was simulated and written.  And in every run,
    successful or not, a prover call that [privateMint] makes is for MINT
    with a [NullifierHash] so computed. *)
Theorem privateMint_nullifier (recipient : string) (mintAmount : Z)
    (auditorPublicKey : list Z) (message : option Platform.ustring)
    (w : World) :
  (forall hash,
     snd (privateMint C H recipient mintAmount auditorPublicKey message w)
     = Ok hash ->
     exists t auditor chainId a0 a1 a2 a3 input proof call request,
       (exists pre, t = trace w ++ pre)
       /\ processPoseidonEncryption H t [mintAmount] auditorPublicKey
          = Answer auditor
       /\ cipher auditor = [a0; a1; a2; a3]
       /\ getChainId H
            (t ++ [PoseidonEncryption [mintAmount] auditorPublicKey])
          = Answer chainId
       /\ field "ValueToMint" input = Some (VNum mintAmount)
       /\ field "ChainID" input = Some (VNum chainId)
       /\ field "AuditorPublicKey" input = Some (VArr auditorPublicKey)
       /\ field "AuditorPCT" input = Some (VArr [a0; a1; a2; a3])
       /\ field "NullifierHash" input
          = Some (VNum (poseidon5 C chainId a0 a1 a2 a3))
       /\ fullProve H
            (t ++ [PoseidonEncryption [mintAmount] auditorPublicKey;
                   GetChainId])
            MINT input (wasm (circuitURL (self w) MINT))
            (zkey (circuitURL (self w) MINT))
          = Answer proof
       /\ call_functionName call = "privateMint"%string
       /\ In (AProof proof) (call_args call)
       /\ simulateContract H
            (t ++ [PoseidonEncryption [mintAmount] auditorPublicKey;
                   GetChainId; FullProve MINT input])
            call
          = Answer request
       /\ writeContract H
            (t ++ [PoseidonEncryption [mintAmount] auditorPublicKey;
                   GetChainId; FullProve MINT input; SimulateContract call])
            request
          = Answer hash
       /\ trace (fst (privateMint C H recipient mintAmount auditorPublicKey
                                  message w))
          = t ++ [PoseidonEncryption [mintAmount] auditorPublicKey;
                  GetChainId; FullProve MINT input; SimulateContract call;
                  WriteContract request])
  /\ (forall op input,
        In (FullProve op input)
           (trace (fst (privateMint C H recipient mintAmount auditorPublicKey
                                    message w))) ->
        In (FullProve op input) (trace w)
        \/ (op = MINT
            /\ exists t t' chainId auditor a0 a1 a2 a3,
                 getChainId H t = Answer chainId
                 /\ processPoseidonEncryption H t' [mintAmount]
                      auditorPublicKey
                    = Answer auditor
                 /\ cipher auditor = [a0; a1; a2; a3]
                 /\ field "ValueToMint" input = Some (VNum mintAmount)
                 /\ field "ChainID" input = Some (VNum chainId)
                 /\ field "AuditorPCT" input = Some (VArr [a0; a1; a2; a3])
                 /\ field "NullifierHash" input
                    = Some (VNum (poseidon5 C chainId a0 a1 a2 a3)))).
Proof.
  split.
  - intros hash. apply privateMint_success.
  - intros op input. apply privateMint_prover_calls.
Qed.

(** C6. A [transfer], [withdraw] or [privateBurn] that returns a transaction
    hash asked the host for a Poseidon encryption, under the instance's own
    public key, of the one-element vector [[bal - v]], and the call that was
    simulated and written carries the seven-field form
    [cipher ++ authKey ++ [nonce]] of the answer as its balance PCT -- the
    fourth, third and second argument.  And in every run, successful or not,
    a call that one of them simulates carries such a balance PCT. *)
Theorem balancePCT_encrypts_new_balance (amount : Z) (eb : list Z) (bal : Z)
    (aud : list Z) (message : option Platform.ustring) (w : World) :
  (forall to tokenAddress hash rpct spct,
     snd (transfer C H to amount eb bal aud tokenAddress message w)
     = Ok (hash, rpct, spct) ->
     sentBalancePCT H (self w) "transfer" 3 (bal - amount) (trace w)
       (trace (fst (transfer C H to amount eb bal aud tokenAddress message
                             w)))
       hash)
  /\ (forall tokenAddress hash,
        snd (withdraw C H amount eb bal aud tokenAddress message w)
        = Ok hash ->
        sentBalancePCT H (self w) "withdraw" 2 (bal - amount) (trace w)
          (trace (fst (withdraw C H amount eb bal aud tokenAddress message
                                w)))
          hash)
  /\ (forall hash,
        snd (privateBurn C H amount eb bal aud message w) = Ok hash ->
        sentBalancePCT H (self w) "privateBurn" 1 (bal - amount) (trace w)
          (trace (fst (privateBurn C H amount eb bal aud message w))) hash)
  /\ (forall to tokenAddress call,
        In (SimulateContract call)
           (trace (fst (transfer C H to amount eb bal aud tokenAddress
                                 message w))) ->
        In (SimulateContract call) (trace w)
        \/ exists t o,
             processPoseidonEncryption H t [bal - amount] (publicKey (self w))
             = Answer o
             /\ call_functionName call = "transfer"%string
             /\ nth_error (call_args call) 3
                = Some (AArr (cipher o ++ authKey o ++ [nonce o])))
  /\ (forall tokenAddress call,
        In (SimulateContract call)
           (trace (fst (withdraw C H amount eb bal aud tokenAddress
                                 message w))) ->
        In (SimulateContract call) (trace w)
        \/ exists t o,
             processPoseidonEncryption H t [bal - amount] (publicKey (self w))
             = Answer o
             /\ call_functionName call = "withdraw"%string
             /\ nth_error (call_args call) 2
                = Some (AArr (cipher o ++ authKey o ++ [nonce o])))
  /\ (forall call,
        In (SimulateContract call)
           (trace (fst (privateBurn C H amount eb bal aud message w))) ->
        In (SimulateContract call) (trace w)
        \/ exists t o,
             processPoseidonEncryption H t [bal - amount] (publicKey (self w))
             = Answer o
             /\ call_functionName call = "privateBurn"%string
             /\ nth_error (call_args call) 1
                = Some (AArr (cipher o ++ authKey o ++ [nonce o]))).
Proof.
  split; [|split; [|split; [|split; [|split]]]].
  - intros to tokenAddress hash rpct spct. apply transfer_sent.
  - intros tokenAddress hash. apply withdraw_sent.
  - intros hash. apply privateBurn_sent.
  - intros to tokenAddress call. apply transfer_balancePCT.
  - intros tokenAddress call. apply withdraw_balancePCT.
  - intros call. apply privateBurn_balancePCT.
Qed.



(** C9 (as amended).  [privateMint], [transfer], [withdraw] and
    [privateBurn] never write the instance, whether they return or throw.
    [generateDecryptionKey] leaves it as it was whenever it throws.
    [register] leaves it as it was when it throws for want of a wallet, of a
    contract address or of a decryption key.  When it throws for any other
    reason, the key had been derived and the [decryptionKey] and [publicKey]
    fields hold it: once [generateDecryptionKey] succeeds on an instance with
    a contract address, [register] ends with the derived key installed,
    whatever comes of the later steps -- a throw or a normal return. *)
Theorem failed_operation_state (w : World) :
  (forall recipient mintAmount aud message,
     self (fst (privateMint C H recipient mintAmount aud message w)) = self w)
  /\ (forall to amount eb bal aud tokenAddress message,
        self (fst (transfer C H to amount eb bal aud tokenAddress message w))
        = self w)
  /\ (forall amount eb bal aud tokenAddress message,
        self (fst (withdraw C H amount eb bal aud tokenAddress message w))
        = self w)
  /\ (forall amount eb bal aud message,
        self (fst (privateBurn C H amount eb bal aud message w)) = self w)
  /\ (forall e,
        snd (generateDecryptionKey C H w) = Err e ->
        self (fst (generateDecryptionKey C H w)) = self w)
  /\ (forall e,
        snd (register C H w) = Err e ->
        rootCause e = MissingClientWalletOrContract
        \/ rootCause e = FailedToGenerateDecryptionKey ->
        self (fst (register C H w)) = self w)
  /\ (forall e,
        snd (register C H w) = Err e ->
        rootCause e <> MissingClientWalletOrContract ->
        rootCause e <> FailedToGenerateDecryptionKey ->
        exists key,
          snd (generateDecryptionKey C H w) = Ok key
          /\ self (fst (register C H w)) = withKey C (self w) key)
  /\ (forall key,
        truthyStr (contractAddress (self w)) = true ->
        snd (generateDecryptionKey C H w) = Ok key ->
        self (fst (register C H w)) = withKey C (self w) key)
  /\ (forall key hash,
        snd (register C H w) = Ok (key, hash) ->
        self (fst (register C H w)) = withKey C (self w) key).
Proof.
  repeat split.
  - intros. apply privateMint_keeps_state.
  - intros. apply transfer_keeps_state.
  - intros. apply withdraw_keeps_state.
  - intros. apply privateBurn_keeps_state.
  - intros e He.
    destruct (generateDecryptionKey_state C H w)
      as [[_ Hsame]|(a & t & sg & _ & _ & Hok & _)]; [exact Hsame|congruence].
  - apply register_early_failure.
  - apply register_late_failure.
  - apply register_keeps_derived_key.
  - intros key hash Hok. now apply register_result in Hok.
Qed.

End WithHost.

(** *** The statements on concrete sessions *)

Import Scenario MoreScenario.

Lemma privateMint_nullifier_witness :
  (exists input chainId a0 a1 a2 a3,
     In (FullProve MINT input) (trace (fst (mintToCarol (start erins))))
     /\ field "ChainID" input = Some (VNum chainId)
     /\ field "AuditorPCT" input = Some (VArr [a0; a1; a2; a3])
     /\ field "NullifierHash" input
        = Some (VNum (poseidon5 crypto chainId a0 a1 a2 a3)))
  /\ exists chainId a0 a1 a2 a3,
       field "ChainID" mintToCarolInput = Some (VNum chainId)
       /\ field "AuditorPCT" mintToCarolInput = Some (VArr [a0; a1; a2; a3])
       /\ field "NullifierHash" mintToCarolInput
          = Some (VNum (poseidon5 crypto chainId a0 a1 a2 a3)).
Proof.
  destruct (privateMint_nullifier crypto checkedHost carol 100 [7; 5] None
              (start erins)) as [Hsuccess Hcalls].
  split.
  - destruct (Hsuccess "0xfeed"%string eq_refl)
      as (t & o & ch & a0 & a1 & a2 & a3 & input & pr & call & request
          & _ & _ & _ & _ & _ & Hch & _ & Hpct & Hnull & _ & _ & _ & _ & _
          & Htrace).
    exists input, ch, a0, a1, a2, a3.
    split; [|repeat split; assumption].
    unfold mintToCarol. rewrite Htrace.
    apply in_or_app. right. right. right. left. reflexivity.
  - assert (Hin : In (FullProve MINT mintToCarolInput)
                     (trace (fst (mintToCarol (start erins))))) by in_trace.
    destruct (Hcalls MINT mintToCarolInput Hin)
      as [[]|(_ & t & t' & ch & o & a0 & a1 & a2 & a3
              & _ & _ & _ & _ & Hch & Hpct & Hnull)].
    eexists _, _, _, _, _. repeat split; eassumption.
Defined.

Lemma balancePCT_encrypts_new_balance_witness :
  sentBalancePCT checkedHost erins "transfer" 3 (100 - 30) []
    (trace (fst (transferToCarol (start erins)))) "0xfeed"
  /\ sentBalancePCT checkedHost erinsConverter "withdraw" 2 (70 - 40) []
       (trace (fst (withdrawAsset (start erinsConverter)))) "0xfeed"
  /\ sentBalancePCT checkedHost erins "privateBurn" 1 (70 - 40) []
       (trace (fst (burnOfErin (start erins)))) "0xfeed"
  /\ (exists t o,
        processPoseidonEncryption checkedHost t [100 - 30] (publicKey erins)
        = Answer o
        /\ nth_error (call_args transferToCarolCall) 3
           = Some (AArr (cipher o ++ authKey o ++ [nonce o])))
  /\ (exists t o,
        processPoseidonEncryption checkedHost t [70 - 40]
          (publicKey erinsConverter)
        = Answer o
        /\ nth_error (call_args withdrawAssetCall) 2
           = Some (AArr (cipher o ++ authKey o ++ [nonce o])))
  /\ (exists t o,
        processPoseidonEncryption checkedHost t [70 - 40] (publicKey erins)
        = Answer o
        /\ nth_error (call_args burnOfErinCall) 1
           = Some (AArr (cipher o ++ authKey o ++ [nonce o]))).
Proof.
  destruct (balancePCT_encrypts_new_balance crypto checkedHost 30
              encryptedBalance 100 [7; 5] None (start erins))
    as (Htransfer & _ & _ & Htransfer' & _ & _).
  destruct (balancePCT_encrypts_new_balance crypto checkedHost 40
              encryptedBalance 70 [7; 5] None (start erinsConverter))
    as (_ & Hwithdraw & _ & _ & Hwithdraw' & _).
  destruct (balancePCT_encrypts_new_balance crypto checkedHost 40
              encryptedBalance 70 [7; 5] None (start erins))
    as (_ & _ & Hburn & _ & _ & Hburn').
  assert (Hr : exists rpct spct,
             snd (transferToCarol (start erins))
             = Ok ("0xfeed"%string, rpct, spct))
    by (vm_compute; eexists _, _; reflexivity).
  destruct Hr as (rpct & spct & Hr).
  assert (Ht : In (SimulateContract transferToCarolCall)
                  (trace (fst (transferToCarol (start erins))))) by in_trace.
  assert (Hw : In (SimulateContract withdrawAssetCall)
                  (trace (fst (withdrawAsset (start erinsConverter)))))
    by in_trace.
  assert (Hb : In (SimulateContract burnOfErinCall)
                  (trace (fst (burnOfErin (start erins))))) by in_trace.
  split; [exact (Htransfer carol None "0xfeed"%string rpct spct Hr)|].
  split; [exact (Hwithdraw asset "0xfeed"%string eq_refl)|].
  split; [exact (Hburn "0xfeed"%string eq_refl)|].
  split; [|split].
  - destruct (Htransfer' carol None transferToCarolCall Ht)
      as [[]|(t & o & Henc & _ & Harg)].
    eexists _, _. split; eassumption.
  - destruct (Hwithdraw' asset withdrawAssetCall Hw)
      as [[]|(t & o & Henc & _ & Harg)].
    eexists _, _. split; eassumption.
  - destruct (Hburn' burnOfErinCall Hb) as [[]|(t & o & Henc & _ & Harg)].
    eexists _, _. split; eassumption.
Defined.



Lemma failed_operation_state_witness :
  self (fst (generateDecryptionKey crypto checkedHost (start noWallet)))
  = noWallet
  /\ self (fst (register crypto checkedHost (start noWallet))) = noWallet
  /\ (exists key,
        snd (generateDecryptionKey crypto checkedHostWithoutProver
               (start erinsFresh)) = Ok key
        /\ self (fst (register crypto checkedHostWithoutProver
                        (start erinsFresh)))
           = withKey crypto erinsFresh key)
  /\ self (fst (register crypto checkedHostWithoutProver (start erinsFresh)))
     = withKey crypto erinsFresh "c0ffee"
  /\ self (fst (register crypto checkedHost (start erinsFresh)))
     = withKey crypto erinsFresh "c0ffee".
Proof.
  pose proof (failed_operation_state crypto checkedHost (start noWallet))
    as (_ & _ & _ & _ & Hkey & Hreg & _).
  pose proof (failed_operation_state crypto checkedHostWithoutProver
                (start erinsFresh))
    as (_ & _ & _ & _ & _ & _ & Hlate & Hderived & _).
  pose proof (failed_operation_state crypto checkedHost (start erinsFresh))
    as (_ & _ & _ & _ & _ & _ & _ & _ & Hreturn).
  split; [apply (Hkey MissingWalletOrClient); reflexivity|].
  split.
  { apply (Hreg MissingClientWalletOrContract); [reflexivity|].
    left. reflexivity. }
  split.
  { apply (Hlate (Rethrown (Rejected "prover failed")));
      [reflexivity|discriminate|discriminate]. }
  split.
  { apply Hderived; reflexivity. }
  apply (Hreturn "c0ffee"%string "0xfeed"%string). reflexivity.
Defined.


(** C9 as stated fails: when the prover fails, [register] throws, yet the
    instance then holds the key that [generateDecryptionKey] derived. *)
Lemma register_failure_keeps_new_key :
  snd (register crypto hostWithoutProver (start fresh))
  = Err (Rethrown (Rejected "prover failed"))
  /\ decryptionKey fresh = ""%string
  /\ publicKey fresh = []
  /\ decryptionKey (self (fst (register crypto hostWithoutProver (start fresh))))
     = "c0ffee"%string
  /\ publicKey (self (fst (register crypto hostWithoutProver (start fresh))))
     = [6; 0].
Proof. repeat split. Qed.

End OperationFacts.

(* ================================================================== *)
(** * Part II, continued: the scenarios, run through the theorems *)
(* ================================================================== *)

Module MoreScenarioFacts.
Import Engine EngineMore EngineMoreFacts Scenario MoreScenario.

Lemma mode_gates_witness :
  snd (mint100 (start converter)) = Err NotAllowedForConverter
  /\ fst (mint100 (start converter)) = start converter
  /\ snd (burn40 (start converter)) = Err NotAllowedForConverter
  /\ snd (withdraw40 (start standalone)) = Err NotAllowedForStandAlone
  /\ fst (withdraw40 (start standalone)) = start standalone
  /\ rootCause (Rethrown AuditorNotSet) <> NotAllowedForConverter.
Proof.
  pose proof (mode_gates crypto host (start converter)) as (Hm & Hb & _ & _).
  pose proof (mode_gates crypto host (start standalone)) as (_ & _ & Hw & Ht).
  split; [apply Hm; reflexivity|].
  split; [apply Hm; reflexivity|].
  split; [apply Hb; reflexivity|].
  split; [apply Hw; reflexivity|].
  split; [apply Hw; reflexivity|].
  apply (Ht bob 30 encryptedBalance 100 [0; 0] None None). reflexivity.
Defined.

Lemma validation_comes_first_witness :
  fst (transfer crypto host bob 0 encryptedBalance 100 auditorKey None None
                (start standalone))
  = start standalone
  /\ fst (withdraw crypto host 0 encryptedBalance 70 auditorKey token None
                   (start converter))
     = start converter
  /\ fst (privateBurn crypto host 0 encryptedBalance 70 auditorKey None
                      (start standalone))
     = start standalone
  /\ (isAddress host bob = true /\ 0 <= 0).
Proof.
  pose proof (validation_comes_first crypto host (start standalone)
                InvalidAmount (or_intror (or_introl eq_refl)))
    as (Ht & _ & Hb & Hm).
  pose proof (validation_comes_first crypto host (start converter)
                InvalidAmount (or_intror (or_introl eq_refl)))
    as (_ & Hw & _ & _).
  split; [apply Ht; reflexivity|].
  split; [apply Hw; reflexivity|].
  split; [apply Hb; reflexivity|].
  destruct (Hm bob 0 auditorKey None eq_refl) as (_ & _ & [[Hx _]|(Ha & _ & Hz)]).
  - discriminate Hx.
  - split; assumption.
Defined.

Lemma hash_comes_from_proved_call_witness :
  submitted host standalone TRANSFER "transfer" (contractAddress standalone)
    (trace (fst (transfer30 (start standalone)))) "0xfeed"
  /\ submitted host converter WITHDRAW "withdraw" (contractAddress converter)
       (trace (fst (withdraw40 (start converter)))) "0xfeed"
  /\ submitted host standalone BURN "privateBurn" (contractAddress standalone)
       (trace (fst (burn40 (start standalone)))) "0xfeed"
  /\ submitted host standalone MINT "privateMint" (contractAddress standalone)
       (trace (fst (mint100 (start standalone)))) "0xfeed".
Proof.
  pose proof (hash_comes_from_proved_call crypto host (start standalone)
                "0xfeed") as (Ht & _ & Hb & Hm).
  pose proof (hash_comes_from_proved_call crypto host (start converter)
                "0xfeed") as (_ & Hw & _ & _).
  split; [eapply Ht; vm_compute; reflexivity|].
  split; [apply Hw; vm_compute; reflexivity|].
  split; [apply Hb; vm_compute; reflexivity|].
  apply Hm; vm_compute; reflexivity.
Defined.

Lemma missing_asset_stops_before_prover_witness :
  assetMissing withoutTransferKey TRANSFER
  /\ isOk (snd (transfer30 (start withoutTransferKey))) = false
  /\ exists added,
       trace (fst (transfer30 (start withoutTransferKey))) = added
       /\ submissions added = [].
Proof.
  assert (Hurl : assetMissing (self (start withoutTransferKey)) TRANSFER)
    by (right; reflexivity).
  split; [exact Hurl|].
  destruct (proj1 (missing_asset_stops_before_prover crypto host
                     (start withoutTransferKey)) Hurl
              bob 30 encryptedBalance 100 auditorKey None None)
    as (Hfail & added & Htrace & Hnone).
  split; [exact Hfail|].
  exists added. split; [exact Htrace|exact Hnone].
Defined.

Lemma register_outcomes_witness :
  snd (generateDecryptionKey crypto host (start fresh)) = Ok "c0ffee"%string
  /\ self (fst (registration (start fresh))) = withKey crypto fresh "c0ffee"
  /\ submitted host fresh REGISTER "register" (registrarAddress fresh)
       (trace (fst (registration (start fresh)))) "0xfeed".
Proof.
  destruct (register_outcomes crypto host (start fresh) "c0ffee" "0xfeed"
              eq_refl)
    as (Hkey & Hself & address & pk & Ha & Hfetch & Hcases).
  split; [exact Hkey|]. split; [exact Hself|].
  injection Ha as <-. vm_compute in Hfetch. injection Hfetch as <-.
  exact Hcases.
Defined.

Lemma half_zero_key_read_two_ways_witness :
  submitted host bobs REGISTER "register" (registrarAddress bobs)
    (trace (fst (register crypto host (start bobs)))) "0xfeed"
  /\ rootCause (Rethrown InvalidAmount) <> ReceiverNotRegistered.
Proof.
  destruct (half_zero_key_read_two_ways crypto host [11; 0] bob (start bobs))
    as (Hr & Ht).
  - vm_compute. discriminate.
  - intros t registrar. reflexivity.
  - reflexivity.
  - split.
    + apply (Hr eq_refl "c0ffee"%string "0xfeed"%string). reflexivity.
    + apply (Ht 0 encryptedBalance 100 auditorKey). reflexivity.
Defined.

Lemma keys_stay_paired_witness :
  keysPaired crypto alices
  /\ keysPaired crypto (self (fst (registration (start alices))))
  /\ keysPaired crypto (self (fst (transfer30 (start alices)))).
Proof.
  pose proof (keys_stay_paired crypto host) as (Hnew & Hkeep).
  assert (Ha : keysPaired crypto (self (start alices)))
    by (left; reflexivity).
  destruct (Hkeep (start alices) Ha) as (_ & Hr & _ & _ & Ht & _).
  split; [exact Ha|]. split; [exact Hr|]. apply Ht.
Defined.

End MoreScenarioFacts.

(* ================================================================== *)
(** * Part II, continued: the message on the wire *)
(* ================================================================== *)

Module WireFacts.
Import Platform Metadata CodecAux MetadataMore.

Lemma length_app_string (a b : string) :
  String.length (a ++ b) = (String.length a + String.length b)%nat.
Proof. induction a as [|c a IH]; cbn; [reflexivity|now rewrite IH]. Qed.

Lemma app_assoc_string (a b c : string) :
  ((a ++ b) ++ c = a ++ (b ++ c))%string.
Proof. induction a as [|x a IH]; cbn; [reflexivity|now rewrite IH]. Qed.

Lemma length_zeros (k : nat) : String.length (zeros k) = k.
Proof. induction k as [|k IH]; cbn; [reflexivity|now rewrite IH]. Qed.

Lemma substring_all (s : string) : String.substring 0 (String.length s) s = s.
Proof. induction s as [|c s IH]; cbn; [reflexivity|now rewrite IH]. Qed.

Lemma substring_head (a b : string) :
  String.substring 0 (String.length a) (a ++ b) = a.
Proof.
  induction a as [|c a IH]; cbn.
  - destruct b; reflexivity.
  - now rewrite IH.
Qed.

Lemma substring_skip (a b : string) (i m : nat) :
  String.substring (String.length a + i) m (a ++ b) = String.substring i m b.
Proof. induction a as [|c a IH]; cbn; [reflexivity|exact IH]. Qed.

Lemma substring_word (pre w rest : string) (i : nat) :
  String.length pre = i -> String.length w = 64%nat ->
  String.substring i (i + 64 - i) (pre ++ w ++ rest) = w.
Proof.
  intros <- <-. rewrite Nat.add_comm, Nat.add_sub.
  rewrite <- (Nat.add_0_r (String.length pre)).
  now rewrite substring_skip, substring_head.
Qed.

Lemma substring_tail (pre rest : string) (i : nat) :
  String.length pre = i ->
  String.substring i (String.length (pre ++ rest) - i) (pre ++ rest) = rest.
Proof.
  intros <-. rewrite length_app_string, Nat.add_comm, Nat.add_sub.
  rewrite <- (Nat.add_0_r (String.length pre)).
  now rewrite substring_skip, substring_all.
Qed.

(** *** One word *)

Lemma length_hexDigitsOnto (f : nat) :
  forall (k : nat) (n : Z) (acc : string),
    n < 16 ^ Z.of_nat k ->
    (String.length (hexDigitsOnto f n acc) <= k + String.length acc)%nat.
Proof.
  induction f as [|f IH]; intros k n acc Hn; cbn [hexDigitsOnto]; [lia|].
  destruct (Z.leb_spec n 0) as [Hle|Hpos]; [lia|].
  destruct k as [|k]; [change (16 ^ Z.of_nat 0) with 1 in Hn; lia|].
  rewrite Nat2Z.inj_succ, Z.pow_succ_r in Hn by lia.
  assert (Hq : n / 16 < 16 ^ Z.of_nat k)
    by (apply Z.div_lt_upper_bound; lia).
  specialize (IH k (n / 16) (String (hexDigit (n mod 16)) acc) Hq).
  cbn [String.length] in IH. lia.
Qed.

Lemma length_toString16 (v : Z) :
  isWord v -> (1 <= String.length (toString16 v) <= 64)%nat.
Proof.
  intros [Hlo Hhi]. unfold toString16.
  destruct (Z.eqb_spec v 0) as [->|Hnz]; [cbn; lia|].
  destruct (Z.ltb_spec v 0) as [Hneg|_]; [lia|].
  split.
  - cbn [hexDigitsOnto]. destruct (Z.leb_spec v 0) as [Hle|_]; [lia|].
    assert (Hmono : forall f n acc,
               (String.length acc
                <= String.length (hexDigitsOnto f n acc))%nat).
    { induction f as [|f IH]; intros n acc; cbn [hexDigitsOnto]; [lia|].
      destruct (n <=? 0); [lia|].
      specialize (IH (n / 16) (String (hexDigit (n mod 16)) acc)).
      cbn [String.length] in IH. lia. }
    specialize (Hmono (Z.to_nat (Z.log2 v)) (v / 16)
                      (String (hexDigit (v mod 16)) EmptyString)).
    cbn [String.length] in Hmono. lia.
  - pose proof (length_hexDigitsOnto (S (Z.to_nat (Z.log2 v))) 64 v
                  EmptyString) as Hlen.
    cbn [String.length] in Hlen. rewrite Nat.add_0_r in Hlen. apply Hlen.
    change (16 ^ Z.of_nat 64) with (2 ^ 256). exact Hhi.
Qed.

Lemma length_wordHex (v : Z) : isWord v -> String.length (wordHex v) = 64%nat.
Proof.
  intros Hv. unfold wordHex. rewrite length_app_string, length_zeros.
  pose proof (length_toString16 v Hv). lia.
Qed.

Lemma parseHexFrom_zeros (k : nat) (s : string) :
  parseHexFrom 0 (zeros k ++ s) = parseHexFrom 0 s.
Proof. induction k as [|k IH]; [reflexivity|exact IH]. Qed.

Lemma parseHexFrom_hexDigitsOnto (f : nat) :
  forall (n : Z) (rest : string),
    0 <= n < 16 ^ Z.of_nat f ->
    parseHexFrom 0 (hexDigitsOnto f n rest) = parseHexFrom n rest.
Proof.
  induction f as [|f IH]; intros n rest Hn; cbn [hexDigitsOnto].
  - change (16 ^ Z.of_nat 0) with 1 in Hn. now replace n with 0 by lia.
  - destruct (Z.leb_spec n 0) as [Hle|Hpos]; [now replace n with 0 by lia|].
    rewrite Nat2Z.inj_succ, Z.pow_succ_r in Hn by lia.
    rewrite IH by (split; [apply Z.div_pos; lia|apply Z.div_lt_upper_bound; lia]).
    cbn [parseHexFrom].
    rewrite CodecFacts.hexValue_hexDigit by (apply Z.mod_pos_bound; lia).
    f_equal. pose proof (Z.div_mod n 16). lia.
Qed.

Lemma parseHexFrom_toString16 (v : Z) :
  0 <= v -> parseHexFrom 0 (toString16 v) = Some v.
Proof.
  intros Hv. unfold toString16.
  destruct (Z.eqb_spec v 0) as [->|Hnz]; [reflexivity|].
  destruct (Z.ltb_spec v 0) as [Hneg|_]; [lia|].
  rewrite parseHexFrom_hexDigitsOnto; [reflexivity|].
  split; [exact Hv|].
  rewrite Nat2Z.inj_succ, Z2Nat.id by apply Z.log2_nonneg.
  assert (Hpos : 0 < v) by lia.
  pose proof (Z.log2_spec v Hpos) as [_ Hup].
  eapply Z.lt_le_trans; [exact Hup|].
  apply Z.pow_le_mono_l. lia.
Qed.

(** A word is read back from its 64 digits. *)
Lemma BigIntOfHex_wordHex (v : Z) :
  isWord v -> BigIntOfHex (wordHex v) = Some v.
Proof.
  intros Hv. pose proof (length_wordHex v Hv) as Hlen.
  unfold BigIntOfHex. destruct (wordHex v) eqn:Hw; [discriminate Hlen|].
  rewrite <- Hw. unfold wordHex.
  rewrite parseHexFrom_zeros. apply parseHexFrom_toString16. apply Hv.
Qed.

(** *** The layout *)

Lemma ciphertextFrom_words (ws : list Z) :
  forall (pre : string) (fuel : nat),
    Forall isWord ws -> (List.length ws <= fuel)%nat ->
    ciphertextFrom fuel (String.length pre)
                   (pre ++ joinStrings (map wordHex ws))
    = Some ws.
Proof.
  induction ws as [|v r IH]; intros pre fuel Hws Hfuel.
  - cbn [map joinStrings]. destruct fuel; cbn [ciphertextFrom]; [reflexivity|].
    rewrite length_app_string. cbn [String.length].
    now rewrite Nat.add_0_r, Nat.ltb_irrefl.
  - destruct fuel as [|f]; [cbn in Hfuel; lia|].
    inversion Hws as [|? ? Hv Hr]; subst.
    cbn [map joinStrings ciphertextFrom].
    pose proof (length_wordHex v Hv) as Hlen.
    rewrite !length_app_string, Hlen.
    replace (String.length pre <? String.length pre + (64 + _))%nat with true
      by (symmetry; apply Nat.ltb_lt; lia).
    unfold sliceStr.
    replace (String.length pre + 64 - String.length pre)%nat with 64%nat by lia.
    rewrite <- (Nat.add_0_r (String.length pre)) at 1.
    rewrite substring_skip, <- Hlen, substring_head.
    rewrite BigIntOfHex_wordHex by assumption.
    rewrite <- app_assoc_string.
    replace (String.length pre + String.length (wordHex v))%nat
      with (String.length (pre ++ wordHex v))
      by (rewrite length_app_string; reflexivity).
    rewrite IH; [reflexivity|assumption|cbn in Hfuel; lia].
Qed.

Lemma length_joinStrings (ws : list Z) :
  Forall isWord ws ->
  String.length (joinStrings (map wordHex ws)) = (64 * List.length ws)%nat.
Proof.
  induction 1 as [|v r Hv _ IH]; [reflexivity|].
  cbn [map joinStrings List.length].
  rewrite length_app_string, length_wordHex, IH by assumption. lia.
Qed.

(** The parse of a layout of four header words and the ciphertext. *)
Lemma decryptMetadata_hexData (C : Crypto) (privateKey length nonce a0 a1 : Z)
    (cipher : list Z) (encryptedMessage : string) :
  isWord length -> isWord nonce -> isWord a0 -> isWord a1 ->
  Forall isWord cipher ->
  (if String.prefix "0x" encryptedMessage then sliceFrom 2 encryptedMessage
   else encryptedMessage)
  = joinStrings (map wordHex (length :: nonce :: a0 :: a1 :: cipher)) ->
  decryptMetadata C privateKey encryptedMessage
  = Ok (int2str (processPoseidonDecryption C privateKey [a0; a1] cipher
                   (Some nonce) (Z.to_nat length))).
Proof.
  intros Hl Hn H0 H1 Hc Hdata. unfold decryptMetadata. rewrite Hdata.
  cbn [map joinStrings].
  pose proof (length_wordHex _ Hl) as Ll.
  pose proof (length_wordHex _ Hn) as Ln.
  pose proof (length_wordHex _ H0) as L0.
  pose proof (length_wordHex _ H1) as L1.
  pose proof (BigIntOfHex_wordHex _ Hl) as Bl.
  pose proof (BigIntOfHex_wordHex _ Hn) as Bn.
  pose proof (BigIntOfHex_wordHex _ H0) as B0.
  pose proof (BigIntOfHex_wordHex _ H1) as B1.
  pose proof (ciphertextFrom_words cipher EmptyString
                (String.length (joinStrings (map wordHex cipher))) Hc)
    as Hloop.
  pose proof (length_joinStrings cipher Hc) as Hfuel.
  specialize (Hloop ltac:(lia)). cbn [String.length append] in Hloop.
  clear Hfuel.
  revert Ll Ln L0 L1 Bl Bn B0 B1 Hloop.
  generalize (wordHex length) (wordHex nonce) (wordHex a0) (wordHex a1)
             (joinStrings (map wordHex cipher)).
  intros wl wn w0 w1 rest Ll Ln L0 L1 Bl Bn B0 B1 Hloop.
  unfold sliceStr, sliceFrom.
  assert (El : String.substring 0 (64 - 0) (wl ++ wn ++ w0 ++ w1 ++ rest) = wl)
    by apply (substring_word EmptyString wl _ 0 eq_refl Ll).
  assert (En : String.substring 64 (128 - 64) (wl ++ wn ++ w0 ++ w1 ++ rest)
               = wn)
    by apply (substring_word wl wn _ 64 Ll Ln).
  assert (E0 : String.substring 128 (192 - 128)
                 (wl ++ wn ++ w0 ++ w1 ++ rest) = w0).
  { rewrite <- (app_assoc_string wl wn).
    apply (substring_word (wl ++ wn) w0 _ 128); [|assumption].
    rewrite length_app_string; lia. }
  assert (E1 : String.substring 192 (256 - 192)
                 (wl ++ wn ++ w0 ++ w1 ++ rest) = w1).
  { rewrite <- (app_assoc_string wl wn), <- (app_assoc_string (wl ++ wn) w0).
    apply (substring_word ((wl ++ wn) ++ w0) w1 _ 192); [|assumption].
    rewrite !length_app_string; lia. }
  assert (Er : String.substring 256
                 (String.length (wl ++ wn ++ w0 ++ w1 ++ rest) - 256)
                 (wl ++ wn ++ w0 ++ w1 ++ rest) = rest).
  { rewrite <- (app_assoc_string wl wn), <- (app_assoc_string (wl ++ wn) w0),
      <- (app_assoc_string ((wl ++ wn) ++ w0) w1).
    apply substring_tail. rewrite !length_app_string; lia. }
  rewrite El, En, E0, E1, Er, Bl, Bn, B0, B1, Hloop. reflexivity.
Qed.

Lemma decryptMetadata_concatHex (C : Crypto)
    (privateKey length nonce a0 a1 : Z) (cipher : list Z) :
  isWord length -> isWord nonce -> isWord a0 -> isWord a1 ->
  Forall isWord cipher ->
  let words := length :: nonce :: a0 :: a1 :: cipher in
  let decoded :=
    int2str (processPoseidonDecryption C privateKey [a0; a1] cipher
               (Some nonce) (Z.to_nat length)) in
  decryptMetadata C privateKey (concatHex words) = Ok decoded.
Proof.
  intros Hl Hn H0 H1 Hc words decoded.
  apply decryptMetadata_hexData; try assumption.
  unfold concatHex. subst words.
  generalize (joinStrings (map wordHex (length :: nonce :: a0 :: a1 :: cipher))).
  intros hex.
  replace (String.prefix "0x" ("0x" ++ hex)) with true
    by (destruct hex; reflexivity).
  unfold sliceFrom. cbn [append String.length Nat.sub String.substring].
  rewrite Nat.sub_0_r. apply substring_all.
Qed.

(** X17. [decryptMetadata] reads what [encryptMetadata] lays out.  Given the
    hex string of a length, a nonce, the two coordinates of an
    authentication key and a ciphertext, each padded to 32 bytes,
    [decryptMetadata] hands exactly these values to the Poseidon decryption
    -- the length as the number of field elements wanted -- and decodes the
    result with [int2str]; the "0x" in front may be missing. *)
Theorem decryptMetadata_reads_layout (C : Crypto)
    (privateKey length nonce a0 a1 : Z) (cipher : list Z) :
  isWord length -> isWord nonce -> isWord a0 -> isWord a1 ->
  Forall isWord cipher ->
  let words := length :: nonce :: a0 :: a1 :: cipher in
  let decoded :=
    int2str (processPoseidonDecryption C privateKey [a0; a1] cipher
               (Some nonce) (Z.to_nat length)) in
  decryptMetadata C privateKey (concatHex words) = Ok decoded.
Proof. apply decryptMetadata_concatHex. Qed.


Lemma decryptMetadata_reads_layout_witness :
  decryptMetadata Scenario.crypto 3 (concatHex [1; 101; 1; 0; 26732; 3; 3; 3])
  = Ok (int2str [26729]).
Proof.
  apply (decryptMetadata_reads_layout Scenario.crypto 3 1 101 1 0
           [26732; 3; 3; 3]);
    repeat constructor; unfold isWord; lia.
Defined.

(** *** From the sender to the reader *)

Lemma mapResult_pad32_Ok (l : list (option Z)) (ws : list Z) :
  Engine.mapResult Engine.pad32 l = Ok ws ->
  l = map Some ws /\ Forall isWord ws.
Proof.
  revert ws. induction l as [|x r IH]; intros ws; cbn [Engine.mapResult].
  - intros [= <-]. split; [reflexivity|constructor].
  - unfold Engine.pad32 at 1. destruct x as [v|]; [|discriminate].
    destruct (Z.leb_spec 0 v); cbn [andb]; [|discriminate].
    destruct (Z.ltb_spec v (2 ^ 256)); [|discriminate].
    destruct (Engine.mapResult Engine.pad32 r) as [ys|]; [|discriminate].
    intros [= <-]. destruct (IH ys eq_refl) as [-> Hys].
    split; [reflexivity|]. constructor; [split; assumption|assumption].
Qed.

(** X18. A message survives the way from sender to reader.  Let the host
    encrypt the chunks of a well-formed message for a public key, with an
    authentication key of two coordinates, and let the decryption under the
    matching private key return these chunks.  Then the hex string that
    [encryptMetadata] returns is decoded by [decryptMetadata] to the message
    without its U+0000 characters. *)
Theorem message_round_trip (C : Crypto) (H : Host) (pk : list Z)
    (privateKey : Z) (message : ustring) (w : World) (elements : list Z)
    (len : Z) (out : PoseidonOut) (words : list Z) :
  wellFormed message ->
  str2int message = Some (elements, len) ->
  processPoseidonEncryption H (trace w) elements pk = Answer out ->
  List.length (authKey out) = 2%nat ->
  processPoseidonDecryption C privateKey (authKey out) (cipher out)
                            (Some (nonce out)) (List.length elements)
  = elements ->
  snd (Engine.encryptMetadata H pk message w) = Ok words ->
  decryptMetadata C privateKey (concatHex words) = Ok (removeNul message).
Proof.
  intros Hwf Hstr Henc Hauth Hdec Hwords.
  rewrite (CodecFacts.str2int_chunks message Hwf) in Hstr.
  injection Hstr as <- <-.
  unfold Engine.encryptMetadata in Hwords.
  rewrite (CodecFacts.str2int_chunks message Hwf) in Hwords.
  EngineFacts.monad. rewrite Henc in Hwords. cbn [snd] in Hwords.
  destruct (authKey out) as [|a0 [|a1 [|? ?]]] eqn:Hkey; try discriminate Hauth.
  cbn [nth_error app] in Hwords.
  apply mapResult_pad32_Ok in Hwords. destruct Hwords as [Hmap Hall].
  destruct words as [|wl [|wn [|w0 [|w1 wc]]]]; try discriminate Hmap.
  cbn [map] in Hmap. injection Hmap as <- <- <- <- Hcipher.
  assert (Hc : cipher out = wc).
  { clear - Hcipher. revert wc Hcipher.
    induction (cipher out) as [|c r IH]; intros [|c' r'] Heq;
      try discriminate Heq; [reflexivity|].
    cbn [map] in Heq. injection Heq as <- Heq. f_equal. now apply IH. }
  pose proof (Forall_inv Hall) as Hl.
  apply Forall_inv_tail in Hall. pose proof (Forall_inv Hall) as Hn.
  apply Forall_inv_tail in Hall. pose proof (Forall_inv Hall) as H0.
  apply Forall_inv_tail in Hall. pose proof (Forall_inv Hall) as H1.
  apply Forall_inv_tail in Hall.
  rewrite decryptMetadata_concatHex by assumption.
  rewrite Nat2Z.id, <- Hc, Hdec.
  now rewrite CodecFacts.int2str_str2int.
Qed.

Lemma message_round_trip_witness :
  decryptMetadata Scenario.crypto 3 (concatHex [1; 101; 1; 0; 26732; 3; 3; 3])
  = Ok [104; 105].
Proof.
  apply (message_round_trip Scenario.crypto Scenario.host [3; 0] 3 [104; 105]
           (Scenario.start Scenario.standalone) [26729] 1
           {| cipher := [26732; 3; 3; 3]; nonce := 101; authKey := [1; 0];
              encryptionRandom := 1 |});
    try reflexivity.
  repeat constructor.
Defined.

End WireFacts.


(* ================================================================== *)
(** * Part II, continued: reading the chain *)
(* ================================================================== *)

Module EngineReadsFacts.
Import Platform MetadataMore EngineReads.

Lemma auditorLoop_mined (user : option string) (logs : list AuditorLog) :
  Forall (fun log => blockNumber log <> None) logs ->
  forall currentStart,
    auditorLoop user logs currentStart
    = notNull currentStart
      || existsb (fun log => sameAddress (newAuditor log) user) logs.
Proof.
  induction 1 as [|log rest Hlog _ IH]; intros currentStart.
  - cbn. destruct (notNull currentStart); reflexivity.
  - cbn [auditorLoop existsb].
    destruct (sameAddress (newAuditor log) user).
    + rewrite IH. destruct (blockNumber log); [|contradiction].
      cbn. now rewrite orb_true_r.
    + destruct (sameAddress (oldAuditor log) user), (notNull currentStart) eqn:Hs;
        cbn [andb orb]; try reflexivity; rewrite IH, Hs; reflexivity.
Qed.

Lemma existsb_filter {A} (f g : A -> bool) (l : list A) :
  (forall x, f x = true -> g x = true) ->
  existsb f (filter g l) = existsb f l.
Proof.
  intros Hfg. induction l as [|x r IH]; [reflexivity|].
  cbn [filter existsb]. destruct (g x) eqn:Hg.
  - cbn [existsb]. now rewrite IH.
  - rewrite IH. destruct (f x) eqn:Hf; [|reflexivity].
    rewrite (Hfg x Hf) in Hg. discriminate Hg.
Qed.

(** X19. What [hasBeenAuditor] answers.  It asks for the [AuditorChanged]
    logs of the last 1000 blocks -- from block 0 when the chain is shorter --
    up to the current one, and, these logs being mined, answers whether one
    of them names the account as the new auditor, letter case apart.  Being
    named as the old auditor makes no difference: an account that was
    appointed before the window and replaced within it has not been an
    auditor. *)
Theorem hasBeenAuditor_new_auditor_in_window (s : EERC) (chain : Chain)
    (currentBlock : Z) (logs : list AuditorLog) :
  0 <= currentBlock ->
  getBlockNumber chain = Answer currentBlock ->
  getAuditorLogs chain (contractAddress s)
                 (Z.max 0 (currentBlock - 1000)) currentBlock
  = Answer logs ->
  Forall (fun log => blockNumber log <> None) logs ->
  hasBeenAuditor s chain
  = Ok (existsb (fun log => sameAddress (newAuditor log) (walletAddress s))
                logs).
Proof.
  intros Hpos Hblock Hlogs Hmined. unfold hasBeenAuditor, fromBlock.
  rewrite Hblock.
  replace (if currentBlock >? 1000 then currentBlock - 1000 else 0)
    with (Z.max 0 (currentBlock - 1000))
    by (destruct (Z.gtb_spec currentBlock 1000); lia).
  rewrite Hlogs. cbv zeta. f_equal.
  rewrite auditorLoop_mined.
  - cbn [notNull orb]. apply existsb_filter. intros log ->. apply orb_true_r.
  - clear -Hmined. induction Hmined as [|log rest Hlog _ IH]; [constructor|].
    cbn [filter]. destruct (_ || _); [constructor; assumption|assumption].
Qed.

(** X20. [decryptMessage] looks at the block of the transaction, not at the
    transaction: two hashes whose transactions are in the same block get the
    same answer, for the logs are asked for by block and never matched
    against the hash. *)
Theorem decryptMessage_same_block (C : Crypto) (s : EERC) (chain : Chain)
    (hash1 hash2 : string) (tx1 tx2 : Transaction) :
  getTransaction chain hash1 = Answer tx1 ->
  getTransaction chain hash2 = Answer tx2 ->
  tx_blockNumber tx1 = tx_blockNumber tx2 ->
  decryptMessage C s chain hash1 = decryptMessage C s chain hash2.
Proof.
  intros H1 H2 Hblock. unfold decryptMessage. now rewrite H1, H2, Hblock.
Qed.

Lemma hasBeenAuditor_new_auditor_in_window_witness :
  hasBeenAuditor Scenario.standalone MoreScenario.chain = Ok true.
Proof.
  apply (hasBeenAuditor_new_auditor_in_window Scenario.standalone
           MoreScenario.chain 5000 MoreScenario.auditorHistory);
    try reflexivity; try lia.
  repeat constructor; discriminate.
Defined.

Lemma decryptMessage_same_block_witness :
  decryptMessage Scenario.crypto Scenario.standalone MoreScenario.chain "0xaa"
  = decryptMessage Scenario.crypto Scenario.standalone MoreScenario.chain
                   "0xbb".
Proof.
  apply (decryptMessage_same_block Scenario.crypto Scenario.standalone
           MoreScenario.chain "0xaa" "0xbb"
           {| tx_blockNumber := Some 4321 |} {| tx_blockNumber := Some 4321 |});
    reflexivity.
Defined.

End EngineReadsFacts.


(* ================================================================== *)
(** * Part II, continued: the hooks *)
(* ================================================================== *)

Module HooksFacts.
Import Engine EngineFacts EngineMore EngineMoreFacts Hooks.

Lemma auditorKey_present (k : list Z) :
  auditorKeyMissing k = false ->
  isZeroAt k 0 = false /\ isAuditorKeySet k = true.
Proof.
  unfold auditorKeyMissing, isAuditorKeySet, isZeroAt.
  destruct k as [|x [|y r]]; cbn; try discriminate.
  - destruct (x =? 0); [discriminate|]. now split.
  - destruct (x =? 0); [discriminate|]. destruct (y =? 0); [discriminate|].
    now split.
Qed.

Lemma hook_amount (bal amount : Z) :
  (bal <? amount) || (amount <=? 0) = false ->
  0 < amount <= bal /\ validateAmount amount (Some bal) = Ok tt.
Proof.
  intros Hg. apply orb_false_elim in Hg as [Hlt Hle].
  apply Z.ltb_ge in Hlt. apply Z.leb_gt in Hle.
  split; [lia|]. unfold validateAmount.
  destruct (Z.leb_spec amount 0); [lia|].
  destruct (Z.gtb_spec amount bal); [lia|].
  now rewrite andb_false_r.
Qed.

Section WithEngine.
Context (C : Crypto) (H : Host).

Lemma transfer_auditor_not_set (to : string) (amount : Z) (eb : list Z)
    (bal : Z) (aud : list Z) (tokenAddress : option string)
    (message : option Platform.ustring) (w : World) (e : Error) :
  snd (transfer C H to amount eb bal aud tokenAddress message w) = Err e ->
  rootCause e = AuditorNotSet ->
  isZeroAt aud 0 = true.
Proof.
  unfold transfer, generateTransferProof, validateAddress, validateAmount,
    generateProof, fetchPublicKey, fetchTokenId.
  monad. steps; intros [= <-]; cbn [rootCause]; intros Hc;
    try discriminate Hc;
    try (layout_error; cbn [rootCause] in Hc; discriminate Hc).
  all: match goal with
       | Hb : isZeroAt _ 0 && _ = true |- _ =>
           now apply andb_prop in Hb
       end.
Qed.

(** X21. The guards of the hooks cover the engine's checks.  When
    [privateTransfer] or [privateBurn] of [useEncryptedBalance] reaches the
    engine, the amount is positive and within the decrypted balance, so that
    the engine never answers "Invalid amount!" or "Insufficient balance!";
    and no coordinate of the auditor's key is zero, so that a transfer is
    never refused for a missing auditor. *)
Theorem hook_guards_cover_engine_checks (st : HookState) (amount : Z)
    (message : option Platform.ustring) :
  (forall to op,
     Hooks.privateTransfer C H st to amount message = inr op ->
     0 < amount <= decrypted (balanceState st)
     /\ forall w e,
          snd (op w) = Err e ->
          rootCause e <> InvalidAmount
          /\ rootCause e <> InsufficientBalance
          /\ rootCause e <> AuditorNotSet)
  /\ (forall op,
        Hooks.privateBurn C H st amount message = inr op ->
        0 < amount <= decrypted (balanceState st)
        /\ forall w e,
             snd (op w) = Err e ->
             rootCause e <> InvalidAmount
             /\ rootCause e <> InsufficientBalance).
Proof.
  split.
  - intros to op. unfold Hooks.privateTransfer.
    destruct (negb (eerc st) || _); [discriminate|].
    destruct (auditorKeyMissing (auditorPublicKey st)) eqn:Haud;
      [discriminate|].
    destruct ((decrypted (balanceState st) <? amount) || (amount <=? 0))
      eqn:Hamount; [discriminate|].
    intros [= <-]. destruct (hook_amount _ _ Hamount) as [Hrange Hvalid].
    split; [exact Hrange|]. intros w e He.
    assert (Hchecks : rootCause e = InvalidAddress \/ rootCause e = InvalidAmount
                      \/ rootCause e = InsufficientBalance ->
                      rootCause e = InvalidAddress).
    { intros Hroot.
      destruct (transfer_validation C H _ _ _ _ _ _ _ _ _ He Hroot)
        as (_ & [[-> _]|[_ Hv]]); [reflexivity|].
      rewrite Hvalid in Hv. discriminate Hv. }
    repeat split; intros Hc.
    + rewrite Hchecks in Hc by tauto. discriminate Hc.
    + rewrite Hchecks in Hc by tauto. discriminate Hc.
    + pose proof (transfer_auditor_not_set _ _ _ _ _ _ _ _ _ He Hc) as Hz.
      destruct (auditorKey_present _ Haud) as [Hnz _]. congruence.
  - intros op. unfold Hooks.privateBurn.
    destruct (negb (eerc st) || _); [discriminate|].
    destruct (auditorKeyMissing (auditorPublicKey st)); [discriminate|].
    destruct ((decrypted (balanceState st) <? amount) || (amount <=? 0))
      eqn:Hamount; [discriminate|].
    intros [= <-]. destruct (hook_amount _ _ Hamount) as [Hrange Hvalid].
    split; [exact Hrange|]. intros w e He.
    assert (Hchecks : ~ (rootCause e = InvalidAddress
                         \/ rootCause e = InvalidAmount
                         \/ rootCause e = InsufficientBalance)).
    { intros Hroot.
      destruct (privateBurn_validation C H _ _ _ _ _ _ _ He Hroot)
        as (_ & _ & Hv).
      rewrite Hvalid in Hv. discriminate Hv. }
    tauto.
Qed.

Lemma withdraw_zero_balance (amount : Z) (eb : list Z) (aud : list Z)
    (tokenAddress : string) (message : option Platform.ustring) (w : World) :
  0 < amount -> isConverter (self w) = true ->
  In (TokenIds (contractAddress (self w)) tokenAddress)
     (trace (fst (Engine.withdraw C H amount eb 0 aud tokenAddress message w))).
Proof.
  intros Hpos Hconv. unfold Engine.withdraw, validateAmount, generateProof,
    fetchTokenId.
  monad. rewrite Hconv. cbn [negb].
  destruct (Z.leb_spec amount 0); [lia|]. cbn [Z.eqb negb andb].
  steps; cbn [fst trace]; rewrite <- ?app_assoc;
    apply in_or_app; right; now left.
Qed.

(** X22. A zero balance seen through the hooks.  With a decrypted balance
    of zero, [privateTransfer] and [privateBurn] of [useEncryptedBalance]
    refuse every positive amount before they reach the engine.  [withdraw]
    has no guard on the amount: whenever it reaches the engine of a
    converter, the engine's own check lets the positive amount pass and the
    token id is asked of the chain. *)
Theorem zero_balance_through_hooks (st : HookState) (amount : Z)
    (message : option Platform.ustring) :
  decrypted (balanceState st) = 0 -> 0 < amount ->
  (forall to op, Hooks.privateTransfer C H st to amount message <> inr op)
  /\ (forall op, Hooks.privateBurn C H st amount message <> inr op)
  /\ (forall op w,
        Hooks.withdraw C H st amount message = inr op ->
        isConverter (self w) = true ->
        exists a,
          tokenAddress st = Some a
          /\ In (TokenIds (contractAddress (self w)) a) (trace (fst (op w)))).
Proof.
  intros Hzero Hpos.
  assert (Hguard : (decrypted (balanceState st) <? amount) || (amount <=? 0)
                   = true).
  { rewrite Hzero. destruct (Z.ltb_spec 0 amount); [reflexivity|lia]. }
  split; [|split].
  - intros to op. unfold Hooks.privateTransfer. rewrite Hguard.
    destruct (negb (eerc st) || _); [discriminate|].
    destruct (auditorKeyMissing _); discriminate.
  - intros op. unfold Hooks.privateBurn. rewrite Hguard.
    destruct (negb (eerc st) || _); [discriminate|].
    destruct (auditorKeyMissing _); discriminate.
  - intros op w. unfold Hooks.withdraw.
    destruct (negb (eerc st)); [discriminate|].
    destruct (tokenAddress st) as [a|]; [|discriminate].
    destruct (negb (truthyStr a)); [discriminate|].
    destruct (auditorKeyMissing _); [discriminate|].
    intros [= <-] Hconv. exists a. split; [reflexivity|].
    rewrite Hzero. now apply withdraw_zero_balance.
Qed.

End WithEngine.

(** X23. Three readings of a registered key in the hooks.  What
    [isAddressRegistered] of [useEERC] answers is the test on which
    [register] takes its early exit, and the [isRegistered] flag is the
    negation of the test on which [generateTransferProof] refuses a
    receiver.  An address that [isAddressRegistered] accepts has the flag
    set, and the two disagree exactly on the keys with one zero
    coordinate. *)
Theorem registered_readings (data : list Z) :
  isAddressRegistered data
  = negb (isZeroAt data 0) && negb (isZeroAt data 1)
  /\ isRegistered data = negb (isZeroPair data)
  /\ (isAddressRegistered data = true -> isRegistered data = true)
  /\ (isRegistered data <> isAddressRegistered data
      <-> isZeroAt data 0 <> isZeroAt data 1).
Proof.
  unfold isAddressRegistered, isRegistered, isZeroPair.
  destruct (isZeroAt data 0), (isZeroAt data 1); cbn;
    repeat split; intros; congruence.
Qed.

Lemma hook_guards_cover_engine_checks_witness :
  0 < 30 <= 100
  /\ rootCause (Rethrown (Rejected "prover failed")) <> InvalidAmount
  /\ 0 < 40 <= 100.
Proof.
  destruct (hook_guards_cover_engine_checks Scenario.crypto
              Scenario.hostWithoutProver MoreScenario.hookState 30 None)
    as [Ht _].
  destruct (hook_guards_cover_engine_checks Scenario.crypto
              Scenario.hostWithoutProver MoreScenario.hookState 40 None)
    as [_ Hb].
  destruct (Ht Scenario.bob _ eq_refl) as [Hrange Herrors].
  destruct (Hb _ eq_refl) as [Hrange' _].
  split; [exact Hrange|]. split; [|exact Hrange'].
  apply (Herrors (Scenario.start Scenario.standalone)
                 (Rethrown (Rejected "prover failed"))).
  reflexivity.
Defined.

Lemma zero_balance_through_hooks_witness :
  exists a,
    tokenAddress MoreScenario.emptyHookState = Some a
    /\ In (TokenIds (contractAddress Scenario.converter) a)
          (trace (fst (Engine.withdraw Scenario.crypto Scenario.host 5
                         Scenario.encryptedBalance 0 [7; 5] Scenario.token
                         None (Scenario.start Scenario.converter)))).
Proof.
  destruct (zero_balance_through_hooks Scenario.crypto Scenario.host
              MoreScenario.emptyHookState 5 None eq_refl ltac:(lia))
    as (_ & _ & Hw).
  apply (Hw _ (Scenario.start Scenario.converter) eq_refl eq_refl).
Defined.

Lemma registered_readings_witness :
  isAddressRegistered [11; 5] = true /\ isRegistered [11; 5] = true
  /\ isRegistered [11; 0] <> isAddressRegistered [11; 0].
Proof.
  destruct (registered_readings [11; 5]) as (_ & _ & Himp & _).
  destruct (registered_readings [11; 0]) as (_ & _ & _ & Hdiff).
  split; [reflexivity|]. split; [apply Himp; reflexivity|].
  apply Hdiff. discriminate.
Defined.

End HooksFacts.


(* ================================================================== *)
(** * Part II, continued: deposits *)
(* ================================================================== *)

Module EngineDepositFacts.
Import Engine EngineFacts EngineMore EngineMoreFacts EngineDeposit.

Lemma skipn_added {A} (known added : list A) :
  skipn (List.length known) (known ++ added) = added.
Proof. induction known as [|x r IH]; [reflexivity|exact IH]. Qed.

Lemma coreEvents_app (a b : list DepositEvent) :
  coreEvents (a ++ b) = coreEvents a ++ coreEvents b.
Proof. apply flat_map_app. Qed.

(** Unfolding a deposit. *)
Ltac deposit_steps :=
  unfold deposit, fetchUserApprove, dbind, dask, dret, dthrow, dthis, liftM;
  cbn [dself dtrace fst snd]; monad;
  repeat (first [ message_step; rewrite ?skipn_added
                | branch; rewrite ?skipn_added ]);
  cbn [dself dtrace fst snd] in *.

Section WithHost.
Context (C : Crypto) (H : Host) (X : DepositHost).

Lemma deposit_result (amount : Z) (tokenAddress : string) (eERCDecimals : Z)
    (message : option Platform.ustring) (w : DepositWorld) (hash : string) :
  snd (deposit H X amount tokenAddress eERCDecimals message w) = inr hash ->
  isConverter (dself w) = true
  /\ dself (fst (deposit H X amount tokenAddress eERCDecimals message w))
     = dself w
  /\ deposited H X (dself w) amount tokenAddress eERCDecimals (dtrace w)
       (dtrace (fst (deposit H X amount tokenAddress eERCDecimals message w)))
       hash.
Proof.
  deposit_steps.
  all: intros Hok; try discriminate Hok.
  all: injection Hok as <-.
  all: rewrite ?skipn_added in *.
  all: split; [now destruct (isConverter (dself w))|].
  all: split; [reflexivity|].
  all: match goal with
       | Ha : accountAddress _ = Some ?a, Hal : allowance _ _ _ _ _ = Answer ?ap,
         Hd : erc20Decimals _ _ _ = Answer ?d,
         Hp : processPoseidonEncryption _ _ _ _ = Answer ?pct,
         Hs : simulateDeposit _ _ ?call = Answer ?q,
         Hevs : (forall ev, In ev ?evs -> _) |- _ =>
           exists a, ap, evs, d, pct, call, q
       end.
  all: repeat rewrite <- app_assoc; cbn [app map].
  all: repeat (split; [first [ eassumption | reflexivity
                            | now apply Z.ltb_ge
                            | eexists; eassumption
                            | eexists; reflexivity ]|]).
  all: eexists; eassumption.
Qed.

(** X24. What a successful [deposit] did.  The instance is a converter and
    is left as it was.  The history grew by: the read of the allowance of the
    instance's account for the contract, which covers the amount; the
    encryption of the message, if any; the read of the token's decimals; the
    encryption, for the instance's own key, of the amount converted to the
    decimals of the encrypted token; the simulation of [deposit] on the
    contract with the amount as it was given, the token and this PCT; and
    the write of the request that the simulation returned, whose answer is
    the hash. *)
Theorem deposit_outcome (amount : Z) (tokenAddress : string)
    (eERCDecimals : Z) (message : option Platform.ustring)
    (w : DepositWorld) (hash : string) :
  snd (deposit H X amount tokenAddress eERCDecimals message w) = inr hash ->
  isConverter (dself w) = true
  /\ dself (fst (deposit H X amount tokenAddress eERCDecimals message w))
     = dself w
  /\ deposited H X (dself w) amount tokenAddress eERCDecimals (dtrace w)
       (dtrace (fst (deposit H X amount tokenAddress eERCDecimals message w)))
       hash.
Proof. apply deposit_result. Qed.

(** X25. The refusals of [deposit].  It throws "Not allowed for stand
    alone!" exactly when the instance is no converter, "Missing wallet!"
    exactly when a converter has no account address, and "Insufficient
    approval amount!" exactly when the allowance that the token reports for
    the account and the contract is below the amount.  In the first two
    cases nothing was asked of the host, in the third only the allowance. *)
Theorem deposit_refusals (amount : Z) (tokenAddress : string)
    (eERCDecimals : Z) (message : option Platform.ustring)
    (w : DepositWorld) :
  let run := deposit H X amount tokenAddress eERCDecimals message w in
  (snd run = inl (Engine NotAllowedForStandAlone)
   <-> isConverter (dself w) = false)
  /\ (snd run = inl MissingWallet
      <-> isConverter (dself w) = true /\ accountAddress (dself w) = None)
  /\ (snd run = inl InsufficientApproval
      <-> isConverter (dself w) = true
          /\ exists address approved,
               accountAddress (dself w) = Some address
               /\ allowance X (dtrace w) tokenAddress address
                            (contractAddress (dself w)) = Answer approved
               /\ approved < amount)
  /\ (snd run = inl (Engine NotAllowedForStandAlone)
      \/ snd run = inl MissingWallet ->
      fst run = w)
  /\ (snd run = inl InsufficientApproval ->
      exists address,
        fst run
        = {| dself := dself w;
             dtrace := dtrace w
                       ++ [Allowance tokenAddress address
                                     (contractAddress (dself w))] |}).
Proof.
  cbv zeta. deposit_steps.
  all: bools.
  all: (split; [split; intros Hx
              |split; [split; intros Hx
                      |split; [split; intros Hx
                              |split; intros Hx]]]);
    repeat match goal with
           | Hc : _ /\ _ |- _ => destruct Hc
           | Hc : _ \/ _ |- _ => destruct Hc
           | Hc : exists _, _ |- _ => destruct Hc
           end;
    try discriminate; try congruence; try reflexivity;
    try (layout_error; discriminate).
  all: try (eexists; reflexivity).
  all: same_values;
    try match goal with
        | H1 : allowance _ _ _ _ _ = Answer _,
          H2 : allowance _ _ _ _ _ = _ |- _ =>
            rewrite H1 in H2; try discriminate H2; injection H2 as <-
        end;
    try match goal with
        | Hb : (_ <? _) = false |- _ => apply Z.ltb_ge in Hb
        end;
    try match goal with
        | Hb : (_ <? _) = true |- _ => apply Z.ltb_lt in Hb
        end;
    try lia;
    try (split; [assumption|reflexivity]);
    try (split; [assumption|]; eexists _, _; repeat split; eassumption).
Qed.

(** X26. Dust is taken and credited as nothing.  Let the token report more
    decimals than the encrypted token has, and let the amount be below one
    unit of the encrypted token.  Then a successful [deposit] simulated and
    wrote a call that moves the whole amount, while the balance PCT it sent
    along encrypts zero. *)
Theorem deposit_dust (amount : Z) (tokenAddress : string)
    (eERCDecimals decimals : Z) (message : option Platform.ustring)
    (w : DepositWorld) (hash : string) :
  snd (deposit H X amount tokenAddress eERCDecimals message w) = inr hash ->
  (forall t, erc20Decimals X t tokenAddress = Answer decimals) ->
  eERCDecimals < decimals ->
  0 <= amount < 10 ^ (decimals - eERCDecimals) ->
  exists pct call request sent,
    In (Core (PoseidonEncryption [0] (publicKey (dself w))))
       (dtrace (fst (deposit H X amount tokenAddress eERCDecimals message w)))
    /\ (exists t,
          processPoseidonEncryption H t [0] (publicKey (dself w)) = Answer pct)
    /\ In (SimulateDeposit call)
          (dtrace (fst (deposit H X amount tokenAddress eERCDecimals message
                                w)))
    /\ In (WriteDeposit request)
          (dtrace (fst (deposit H X amount tokenAddress eERCDecimals message
                                w)))
    /\ dep_args call
       = [ANum amount; AAddress tokenAddress; AArr (pctFields pct)] ++ sent.
Proof.
  intros Hok Hdec Hlt Hsmall.
  destruct (deposit_result _ _ _ _ _ _ Hok)
    as (_ & _ & address & approved & evs & d & pct & call & request & _
        & Htrace & _ & _ & _ & [t Hd] & Hpct & _ & _ & _ & [sent Hargs] & _).
  rewrite Hdec in Hd. injection Hd as <-.
  assert (Hzero : convertTokenDecimals amount decimals eERCDecimals = 0).
  { rewrite (DecimalsFacts.convert_down amount eERCDecimals decimals Hlt).
    apply Z.quot_small. exact Hsmall. }
  rewrite Hzero in Htrace, Hpct.
  exists pct, call, request, sent. rewrite Htrace.
  split; [|split; [exact Hpct|split; [|split; [|exact Hargs]]]].
  all: apply in_or_app; right; right; apply in_or_app; right; cbn; tauto.
Qed.

(** X27. [deposit] does not look at the sign of the amount.  On a converter
    with an account, and a host that answers every call with an allowance of
    at least the amount, a deposit without message succeeds -- for every
    amount, zero and the negative ones included. *)
Theorem deposit_any_amount (amount : Z) (tokenAddress : string)
    (eERCDecimals : Z) (w : DepositWorld) (address : string) :
  isConverter (dself w) = true ->
  accountAddress (dself w) = Some address ->
  answersDeposit H X amount ->
  exists hash,
    snd (deposit H X amount tokenAddress eERCDecimals None w) = inr hash.
Proof.
  intros Hconv Haddr (Hallow & Hdec & Henc & Hsim & Hwrite).
  unfold deposit, fetchUserApprove, dbind, dask, dret, dthrow, dthis, liftM,
    encryptedMessageFor.
  cbn [dself dtrace fst snd]. monad. rewrite Hconv, Haddr. cbn [negb].
  destruct (Hallow (dtrace w) tokenAddress address (contractAddress (dself w)))
    as (approved & -> & Hle).
  destruct (Z.ltb_spec approved amount); [lia|].
  rewrite skipn_all. cbn [map dself dtrace].
  match goal with
  | |- context [erc20Decimals X ?t ?a] =>
      destruct (Hdec t a) as (decimals & ->)
  end.
  match goal with
  | |- context [processPoseidonEncryption H ?t ?i ?pk] =>
      destruct (Henc t i pk) as (out & ->)
  end.
  rewrite skipn_added. cbn [map dself dtrace hasMessage].
  match goal with
  | |- context [simulateDeposit X ?t ?c] =>
      destruct (Hsim t c) as (request & ->)
  end.
  match goal with
  | |- context [writeDeposit X ?t ?q] =>
      destruct (Hwrite t q) as (hash & ->)
  end.
  now exists hash.
Qed.

End WithHost.

Lemma deposit_outcome_witness :
  deposited Scenario.host MoreScenario.depositHost Scenario.converter 500
    Scenario.token 2 []
    (dtrace (fst (MoreScenario.deposit500
                    (MoreScenario.depositStart Scenario.converter))))
    "0xfeed".
Proof.
  apply (deposit_outcome Scenario.host MoreScenario.depositHost 500
           Scenario.token 2 None
           (MoreScenario.depositStart Scenario.converter) "0xfeed").
  reflexivity.
Defined.

Lemma deposit_refusals_witness :
  snd (MoreScenario.deposit500 (MoreScenario.depositStart Scenario.standalone))
  = inl (Engine NotAllowedForStandAlone)
  /\ fst (MoreScenario.deposit500
            (MoreScenario.depositStart Scenario.standalone))
     = MoreScenario.depositStart Scenario.standalone
  /\ snd (deposit Scenario.host MoreScenario.depositHost 1001 Scenario.token 2
                  None (MoreScenario.depositStart Scenario.converter))
     = inl InsufficientApproval.
Proof.
  destruct (deposit_refusals Scenario.host MoreScenario.depositHost 500
              Scenario.token 2 None
              (MoreScenario.depositStart Scenario.standalone))
    as (Hmode & _ & _ & Hsame & _).
  destruct (deposit_refusals Scenario.host MoreScenario.depositHost 1001
              Scenario.token 2 None
              (MoreScenario.depositStart Scenario.converter))
    as (_ & _ & Happroval & _ & _).
  split; [apply Hmode; reflexivity|].
  split; [apply Hsame; left; apply Hmode; reflexivity|].
  apply Happroval. split; [reflexivity|].
  exists Scenario.alice, 1000. repeat split; try reflexivity; lia.
Defined.

Lemma deposit_dust_witness :
  exists pct call request sent,
    In (Core (PoseidonEncryption [0] (publicKey Scenario.converter)))
       (dtrace (fst (MoreScenario.deposit500
                       (MoreScenario.depositStart Scenario.converter))))
    /\ (exists t,
          processPoseidonEncryption Scenario.host t [0]
                                    (publicKey Scenario.converter)
          = Answer pct)
    /\ In (SimulateDeposit call)
          (dtrace (fst (MoreScenario.deposit500
                          (MoreScenario.depositStart Scenario.converter))))
    /\ In (WriteDeposit request)
          (dtrace (fst (MoreScenario.deposit500
                          (MoreScenario.depositStart Scenario.converter))))
    /\ dep_args call
       = [ANum 500; AAddress Scenario.token; AArr (pctFields pct)] ++ sent.
Proof.
  apply (deposit_dust Scenario.host MoreScenario.depositHost 500
           Scenario.token 2 18 None
           (MoreScenario.depositStart Scenario.converter) "0xfeed").
  - reflexivity.
  - intros t. reflexivity.
  - lia.
  - lia.
Defined.

Lemma deposit_any_amount_witness :
  exists hash,
    snd (deposit Scenario.host MoreScenario.depositHost (-5) Scenario.token 2
                 None (MoreScenario.depositStart Scenario.converter))
    = inr hash.
Proof.
  apply (deposit_any_amount Scenario.host MoreScenario.depositHost (-5)
           Scenario.token 2 (MoreScenario.depositStart Scenario.converter)
           Scenario.alice).
  - reflexivity.
  - reflexivity.
  - repeat split; intros; eexists; try split; try reflexivity; lia.
Defined.

End EngineDepositFacts.


(* ================================================================== *)
(** * Part II, continued: the receiver's key in a transfer *)
(* ================================================================== *)

Module TransferFacts.
Import Engine EngineFacts EngineMore EngineMoreFacts.

(** A call to [encryptedMessageFor] met in a goal, replaced by its effect
    and its result, which is kept. *)
Ltac message_result :=
  match goal with
  | |- context [encryptedMessageFor ?H' ?pk ?m ?w0] =>
      let evs := fresh "evs" in
      let Htr := fresh "Htr" in
      let Hself := fresh "Hself" in
      let Hevs := fresh "Hevs" in
      let Hrun := fresh "Hrun" in
      let s1 := fresh "s" in
      let t1 := fresh "t" in
      let r1 := fresh "r" in
      destruct (encryptedMessageFor_effect H' pk m w0)
        as (evs & Htr & Hself & Hevs);
      destruct (encryptedMessageFor H' pk m w0) as [[s1 t1] r1] eqn:Hrun;
      cbn [fst snd self trace] in Htr, Hself; subst s1 t1
  end.

(** An event of a history that grew by single calls. *)
Ltac in_history :=
  repeat first [ apply in_or_app; right; left; reflexivity
               | apply in_or_app; left ].

Section WithHost.
Context (C : Crypto) (H : Host).

(** X28. A transfer reads the receiver's key twice.  [transfer] fetches the
    key and encrypts the message for it; [generateTransferProof] then
    fetches the key again, later in the history, and it is this second
    answer that is tested for registration and proved as
    [ReceiverPublicKey].  The call that is simulated carries the proof for
    the second key together with the message for the first. *)
Theorem transfer_reads_receiver_key_twice (to : string) (amount : Z)
    (eb : list Z) (bal : Z) (aud : list Z) (tokenAddress : option string)
    (message : option Platform.ustring) (w : World)
    (res : string * list Z * list Z) :
  String.eqb to BURN_USER_address = false ->
  snd (transfer C H to amount eb bal aud tokenAddress message w) = Ok res ->
  exists pk1 words t2 pk2 input proof call,
    getUserPublicKey H (trace w) (registrarAddress (self w)) to = Answer pk1
    /\ snd (encryptedMessageFor H pk1 message
              {| self := self w;
                 trace := trace w
                          ++ [GetUserPublicKey (registrarAddress (self w)) to]
              |})
       = Ok words
    /\ (exists between,
          t2 = trace w
               ++ GetUserPublicKey (registrarAddress (self w)) to :: between)
    /\ getUserPublicKey H t2 (registrarAddress (self w)) to = Answer pk2
    /\ isZeroPair pk2 = false
    /\ field "ReceiverPublicKey" input = Some (VArr pk2)
    /\ (exists t, fullProve H t TRANSFER input
                    (wasm (circuitURL (self w) TRANSFER))
                    (zkey (circuitURL (self w) TRANSFER)) = Answer proof)
    /\ In (SimulateContract call)
          (trace (fst (transfer C H to amount eb bal aud tokenAddress message
                                w)))
    /\ In (AProof proof) (call_args call)
    /\ (hasMessage message = true -> In (ABytes words) (call_args call)).
Proof.
  intros Hburn.
  unfold transfer, generateTransferProof, validateAddress, generateProof,
    fetchPublicKey, fetchTokenId, isZeroPair.
  rewrite Hburn. monad.
  repeat (first [message_result | branch]); intros Hok; try discriminate Hok.
  all: match goal with
       | H1 : getUserPublicKey H (trace _) _ _ = Answer ?pk1,
         Hrun : encryptedMessageFor H ?pk1 _ _ = (_, Ok ?words),
         H2 : getUserPublicKey H ?t2 _ _ = Answer ?pk2,
         Hz : isZeroAt ?pk2 0 && isZeroAt ?pk2 1 = false,
         Hp : fullProve H _ TRANSFER ?input _ _ = Answer ?proof,
         Hs : simulateContract H _ ?call = Answer _ |- _ =>
           exists pk1, words, t2, pk2, input, proof, call
       end.
  all: split; [first [assumption|reflexivity]|].
  all: split; [match goal with
               | Hrun : encryptedMessageFor _ _ _ _ = _ |- _ =>
                   rewrite Hrun; reflexivity
               end|].
  all: split; [repeat rewrite <- app_assoc; cbn [app]; eexists; reflexivity|].
  all: split; [first [assumption|reflexivity]|];
    split; [first [assumption|reflexivity]|]; split; [reflexivity|].
  all: split; [eexists; eassumption|].
  all: split; [cbn [fst trace]; in_history|].
  all: split; [cbn [call_args In]; tauto|].
  all: intros Hm; first [congruence | cbn [call_args In]; tauto].
Qed.

End WithHost.

Lemma transfer_reads_receiver_key_twice_witness :
  exists words t2 input proof call,
    snd (encryptedMessageFor MoreScenario.hostWithNewKey [11; 5]
           (Some [104; 105])
           {| self := Scenario.standalone;
              trace := [GetUserPublicKey (registrarAddress Scenario.standalone)
                                         Scenario.bob] |})
    = Ok words
    /\ getUserPublicKey MoreScenario.hostWithNewKey t2
                        (registrarAddress Scenario.standalone) Scenario.bob
       = Answer [12; 5]
    /\ field "ReceiverPublicKey" input = Some (VArr [12; 5])
    /\ In (SimulateContract call)
          (trace (fst (MoreScenario.transfer30hi
                         (Scenario.start Scenario.standalone))))
    /\ In (AProof proof) (call_args call)
    /\ In (ABytes words) (call_args call).
Proof.
  edestruct (transfer_reads_receiver_key_twice Scenario.crypto
               MoreScenario.hostWithNewKey Scenario.bob 30
               Scenario.encryptedBalance 100 [7; 5] None (Some [104; 105])
               (Scenario.start Scenario.standalone))
    as (pk1 & words & t2 & pk2 & input & proof & call & H1 & Hw
        & [between ->] & H2 & _ & Hfield & _ & Hsim & Hproof & Hbytes).
  - reflexivity.
  - vm_compute. reflexivity.
  - cbn in H1. injection H1 as <-.
    cbn in H2. injection H2 as <-.
    exists words,
      (GetUserPublicKey (registrarAddress Scenario.standalone) Scenario.bob
         :: between), input, proof, call.
    split; [exact Hw|]. split; [reflexivity|]. split; [exact Hfield|].
    split; [exact Hsim|]. split; [exact Hproof|]. now apply Hbytes.
Defined.

End TransferFacts.


(* ================================================================== *)
(** * Part II, continued: the message on a call, and a mint *)
(* ================================================================== *)

Module MessageFacts.
Import Engine EngineFacts EngineMore EngineMoreFacts TransferFacts
       EngineMessages.

(** The call that was simulated shows the message as the path decided. *)
Ltac message_on_call :=
  match goal with
  | Hs : simulateContract _ _ ?call = Answer _ |- _ => exists call
  end;
  (split; [cbn [fst trace]; in_history|]);
  unfold carriesMessage;
  match goal with
  | Hm : hasMessage _ = _ |- _ => rewrite Hm
  end;
  (split; [reflexivity|]);
  first [ eexists _, _; split;
          [ match goal with
            | Hrun : encryptedMessageFor _ _ _ _ = _ |- _ =>
                rewrite Hrun; reflexivity
            end
          | reflexivity ]
        | intros words Hin; cbn [call_args In] in Hin;
          repeat (destruct Hin as [Hin|Hin]; [discriminate Hin|]);
          exact Hin ].

Section WithHost.
Context (C : Crypto) (H : Host).

Lemma transfer_message (to : string) (amount : Z) (eb : list Z) (bal : Z)
    (aud : list Z) (tokenAddress : option string)
    (message : option Platform.ustring) (w : World)
    (res : string * list Z * list Z) :
  snd (transfer C H to amount eb bal aud tokenAddress message w) = Ok res ->
  exists key,
    snd (fetchPublicKey H to w) = Ok key
    /\ exists call,
         In (SimulateContract call)
            (trace (fst (transfer C H to amount eb bal aud tokenAddress
                                  message w)))
         /\ carriesMessage H key message TRANSFER_WITH_MESSAGE_ABI call.
Proof.
  unfold transfer, generateTransferProof, validateAddress, generateProof,
    fetchPublicKey, fetchTokenId.
  monad.
  repeat (first [message_result | branch]); intros Hok; try discriminate Hok.
  all: eexists; split; [reflexivity|].
  all: message_on_call.
Qed.

Lemma privateMint_message (recipient : string) (mintAmount : Z)
    (aud : list Z) (message : option Platform.ustring) (w : World)
    (hash : string) :
  snd (privateMint C H recipient mintAmount aud message w) = Ok hash ->
  exists key,
    snd (fetchPublicKey H recipient w) = Ok key
    /\ exists call,
         In (SimulateContract call)
            (trace (fst (privateMint C H recipient mintAmount aud message w)))
         /\ carriesMessage H key message PRIVATE_MINT_WITH_MESSAGE_ABI call.
Proof.
  unfold privateMint, validateAddress, generateProof, fetchPublicKey.
  monad.
  repeat (first [message_result | branch]); intros Hok; try discriminate Hok.
  all: eexists; split; [reflexivity|].
  all: message_on_call.
Qed.

Lemma privateBurn_message (amount : Z) (eb : list Z) (bal : Z)
    (aud : list Z) (message : option Platform.ustring) (w : World)
    (hash : string) :
  snd (privateBurn C H amount eb bal aud message w) = Ok hash ->
  exists call,
    In (SimulateContract call)
       (trace (fst (privateBurn C H amount eb bal aud message w)))
    /\ carriesMessage H (publicKey (self w)) message
                      PRIVATE_BURN_WITH_MESSAGE_ABI call.
Proof.
  unfold privateBurn, generateProof.
  monad.
  repeat (first [message_result | branch]); intros Hok; try discriminate Hok.
  all: message_on_call.
Qed.

Lemma withdraw_message (amount : Z) (eb : list Z) (bal : Z) (aud : list Z)
    (tokenAddress : string) (message : option Platform.ustring) (w : World)
    (hash : string) :
  snd (withdraw C H amount eb bal aud tokenAddress message w) = Ok hash ->
  exists call,
    In (SimulateContract call)
       (trace (fst (withdraw C H amount eb bal aud tokenAddress message w)))
    /\ carriesMessage H (publicKey (self w)) message
                      WITHDRAW_WITH_MESSAGE_ABI call.
Proof.
  unfold withdraw, generateProof, fetchTokenId.
  monad.
  repeat (first [message_result | branch]); intros Hok; try discriminate Hok.
  all: message_on_call.
Qed.

(** X29. The message on the call.  A successful operation simulated a call
    that shows the optional message in one of two ways.  For a message that
    is not empty, the call uses the operation's ABI with a message and ends
    with the bytes that [encryptMetadata] laid out -- for the key that the
    registrar holds for the receiver in [transfer] and [privateMint], for
    the instance's own key in [privateBurn] and [withdraw].  For no message
    or an empty one, the call uses the contract's ABI and holds no bytes. *)
Theorem message_on_the_call (message : option Platform.ustring) (w : World) :
  (forall to amount eb bal aud tokenAddress res,
     snd (transfer C H to amount eb bal aud tokenAddress message w) = Ok res ->
     exists key,
       snd (fetchPublicKey H to w) = Ok key
       /\ exists call,
            In (SimulateContract call)
               (trace (fst (transfer C H to amount eb bal aud tokenAddress
                                     message w)))
            /\ carriesMessage H key message TRANSFER_WITH_MESSAGE_ABI call)
  /\ (forall recipient mintAmount aud hash,
        snd (privateMint C H recipient mintAmount aud message w) = Ok hash ->
        exists key,
          snd (fetchPublicKey H recipient w) = Ok key
          /\ exists call,
               In (SimulateContract call)
                  (trace (fst (privateMint C H recipient mintAmount aud
                                           message w)))
               /\ carriesMessage H key message PRIVATE_MINT_WITH_MESSAGE_ABI
                                 call)
  /\ (forall amount eb bal aud hash,
        snd (privateBurn C H amount eb bal aud message w) = Ok hash ->
        exists call,
          In (SimulateContract call)
             (trace (fst (privateBurn C H amount eb bal aud message w)))
          /\ carriesMessage H (publicKey (self w)) message
                            PRIVATE_BURN_WITH_MESSAGE_ABI call)
  /\ (forall amount eb bal aud tokenAddress hash,
        snd (withdraw C H amount eb bal aud tokenAddress message w) = Ok hash ->
        exists call,
          In (SimulateContract call)
             (trace (fst (withdraw C H amount eb bal aud tokenAddress message
                                   w)))
          /\ carriesMessage H (publicKey (self w)) message
                            WITHDRAW_WITH_MESSAGE_ABI call).
Proof.
  split; [|split; [|split]]; intros.
  - eapply transfer_message; eassumption.
  - eapply privateMint_message; eassumption.
  - eapply privateBurn_message; eassumption.
  - eapply withdraw_message; eassumption.
Qed.

Lemma fetchPublicKey_answers (to : string) (w : World) :
  (forall t registrar user,
     exists pk, getUserPublicKey H t registrar user = Answer pk) ->
  exists w1 key,
    fetchPublicKey H to w = (w1, Ok key) /\ self w1 = self w.
Proof.
  intros Hkey. unfold fetchPublicKey.
  destruct (String.eqb to BURN_USER_address).
  - now exists w, BURN_USER_publicKey.
  - monad. destruct (Hkey (trace w) (registrarAddress (self w)) to)
      as [pk Hpk].
    rewrite Hpk. now eexists _, pk.
Qed.

(** X30. [privateMint] tests no key.  In a stand-alone deployment with the
    assets of the MINT circuit, on a host that answers every call, a mint
    of a positive amount to a valid address succeeds whatever key the
    registrar holds for the recipient and whatever the auditor's key is --
    the all-zero keys of an unregistered recipient and of an auditor that
    was never set included. *)
Theorem privateMint_tests_no_key (recipient : string) (mintAmount : Z)
    (aud : list Z) (w : World) :
  isConverter (self w) = false ->
  isAddress H recipient = true ->
  0 < mintAmount ->
  ~ assetMissing (self w) MINT ->
  answersMint H ->
  exists hash,
    snd (privateMint C H recipient mintAmount aud None w) = Ok hash.
Proof.
  intros Hmode Haddr Hpos Hurl (Hkey & Henc & Hpct & Hchain & Hprove & Hsim
                                & Hwrite).
  assert (Hassets : negb (truthyStr (wasm (circuitURL (self w) MINT)))
                    || negb (truthyStr (zkey (circuitURL (self w) MINT)))
                    = false).
  { unfold assetMissing in Hurl.
    destruct (truthyStr (wasm _)), (truthyStr (zkey _)); cbn; tauto. }
  unfold privateMint, validateAddress, validateAmount, generateProof,
    encryptedMessageFor.
  monad. rewrite Hmode, Haddr. cbn [negb].
  destruct (Z.leb_spec mintAmount 0); [lia|].
  destruct (fetchPublicKey_answers recipient w Hkey)
    as (w1 & key & Hfetch & Hself).
  rewrite Hfetch. cbn [self trace].
  destruct (Henc (trace w1) key mintAmount) as [eg ->].
  match goal with
  | |- context [processPoseidonEncryption H ?t ?i key] =>
      destruct (Hpct t i key) as (receiver & -> & _)
  end.
  cbn [self trace].
  match goal with
  | |- context [processPoseidonEncryption H ?t ?i aud] =>
      destruct (Hpct t i aud) as (auditor & -> & Hfour)
  end.
  cbn [self trace].
  match goal with
  | |- context [getChainId H ?t] => destruct (Hchain t) as (chainId & ->)
  end.
  cbn [self trace].
  destruct (cipher auditor) as [|a0 [|a1 [|a2 [|a3 [|a4 r]]]]];
    try discriminate Hfour.
  cbn [nullifierOf self trace]. rewrite Hself, Hassets.
  match goal with
  | |- context [fullProve H ?t ?op ?i ?x ?y] =>
      destruct (Hprove t op i x y) as (proof & ->)
  end.
  cbn [self trace hasMessage].
  match goal with
  | |- context [simulateContract H ?t ?c] =>
      destruct (Hsim t c) as (request & ->)
  end.
  match goal with
  | |- context [writeContract H ?t ?q] =>
      destruct (Hwrite t q) as (hash & ->)
  end.
  now exists hash.
Qed.

End WithHost.

Lemma message_on_the_call_witness :
  (exists key call,
     In (SimulateContract call)
        (trace (fst (MoreScenario.transfer30hi
                       (Scenario.start Scenario.standalone))))
     /\ carriesMessage MoreScenario.hostWithNewKey key (Some [104; 105])
                       TRANSFER_WITH_MESSAGE_ABI call)
  /\ (exists call,
        In (SimulateContract call)
           (trace (fst (Scenario.burn40 (Scenario.start Scenario.standalone))))
        /\ carriesMessage Scenario.host (publicKey Scenario.standalone) None
                          PRIVATE_BURN_WITH_MESSAGE_ABI call).
Proof.
  split.
  - edestruct (proj1 (message_on_the_call Scenario.crypto
                        MoreScenario.hostWithNewKey (Some [104; 105])
                        (Scenario.start Scenario.standalone))
                 Scenario.bob 30 Scenario.encryptedBalance 100 [7; 5] None)
      as (key & _ & call & Hin & Hcall).
    + vm_compute. reflexivity.
    + exists key, call. split; [exact Hin|exact Hcall].
  - destruct (message_on_the_call Scenario.crypto Scenario.host None
                (Scenario.start Scenario.standalone)) as (_ & _ & Hburn & _).
    apply (Hburn 40 Scenario.encryptedBalance 70 Scenario.auditorKey
                 "0xfeed"%string).
    reflexivity.
Defined.

Lemma privateMint_tests_no_key_witness :
  getUserPublicKey Scenario.host []
                   (registrarAddress Scenario.standalone) Scenario.alice
  = Answer [0; 0]
  /\ exists hash,
       snd (privateMint Scenario.crypto Scenario.host Scenario.alice 100
                        [0; 0] None (Scenario.start Scenario.standalone))
       = Ok hash.
Proof.
  split; [reflexivity|].
  apply (privateMint_tests_no_key Scenario.crypto Scenario.host Scenario.alice
           100 [0; 0] (Scenario.start Scenario.standalone)).
  - reflexivity.
  - reflexivity.
  - lia.
  - intros [Hx|Hx]; discriminate Hx.
  - repeat split; intros; eexists; try split; reflexivity.
Defined.

End MessageFacts.
